(** * Polygon measurement and coordinate sanity checking of the map scripts

    A shallow embedding of the measurement core of [src/map-script.js],
    [src/unnamed/part_000] and [src/unnamed/part_001]: polygon area,
    perimeter, centroid, bounding box and aspect ratio, the two measurement
    caches, the coordinate checker [validateAndFixCoordinates] with its
    repair transforms, and the upload handler [displayUploadedData] of
    part_000 that calls them.

    Number model.  A JavaScript number is modelled by a real number: rounding
    and overflow of IEEE doubles are abstracted away, every other step of the
    arithmetic is kept as the source writes it (order of operations,
    constants, array indices).  The two operations by which this code can
    leave the finite numbers on finite inputs are modelled with the IEEE
    special values of [number]: a division whose divisor can be zero
    ([divide]) and a square root whose argument can be negative
    ([Math_sqrt]).  A vertex is the pair [(p[0], p[1])], that is (latitude,
    longitude).

    Rounding.  An equation between a result of the code and a formula, or
    between two results, is an equation of real numbers: the doubles of the
    code are roundings of the two sides and can differ in their last bits.
    Statements about the control flow, the caches and the shape of results
    do not depend on this.  Bounds on computed values are stated with a
    margin and for inputs of limited size, so that they also hold for the
    rounded values; [MapScript64] evaluates the area function on doubles
    where the difference shows. *)

From Stdlib Require Import String Ascii DecimalString.
From Stdlib Require Import Reals Lra Lia ZArith Bool List Permutation.
From Stdlib Require Floats.
Import ListNotations.
Local Open Scope R_scope.

(** ** Numbers, vertices and array access *)

Definition point : Type := (R * R)%type.

Definition lat (p : point) : R := fst p.
Definition lng (p : point) : R := snd p.

(** [points[i]] for an index that the loops keep inside the array. *)
Definition at_index (points : list point) (i : nat) : point :=
  nth i points (0, 0).

(** Results of an arithmetic operation that may leave the finite numbers. *)
Inductive number : Type :=
| Finite (r : R)
| PosInfinity
| NegInfinity
| NaN.

(** [x / y] of JavaScript for finite operands, the divisor possibly zero. *)
Definition divide (x y : R) : number :=
  if Req_dec_T y 0 then
    if Req_dec_T x 0 then NaN
    else if Rlt_dec 0 x then PosInfinity else NegInfinity
  else Finite (x / y).

Definition leb (x y : R) : bool := if Rle_dec x y then true else false.
Definition ltb (x y : R) : bool := if Rlt_dec x y then true else false.

(** [Math.atan2(y, x)] on finite operands. *)
Definition Math_atan2 (y x : R) : R :=
  if Rlt_dec 0 x then atan (y / x)
  else if Rlt_dec x 0 then
    (if Rle_dec 0 y then atan (y / x) + PI else atan (y / x) - PI)
  else if Rlt_dec 0 y then PI / 2
  else if Rlt_dec y 0 then - (PI / 2)
  else 0.

(** [Math.sqrt(x)]: NaN below zero. *)
Definition Math_sqrt (x : R) : number :=
  if Rle_dec 0 x then Finite (sqrt x) else NaN.

(** [x + y] on [number]. *)
Definition nadd (x y : number) : number :=
  match x, y with
  | NaN, _ | _, NaN => NaN
  | Finite a, Finite b => Finite (a + b)
  | PosInfinity, NegInfinity | NegInfinity, PosInfinity => NaN
  | PosInfinity, _ | _, PosInfinity => PosInfinity
  | NegInfinity, _ | _, NegInfinity => NegInfinity
  end.

(** [x * k] (or [x / k']) for a positive constant [k]. *)
Definition nscale (k : R) (x : number) : number :=
  match x with
  | Finite a => Finite (a * k)
  | other => other
  end.

Definition Rsum (l : list R) : R := fold_right Rplus 0 l.

(** [2 * Math.atan2(Math.sqrt(a), Math.sqrt(1 - a))]. *)
Definition central_angle (a : R) : number :=
  match Math_sqrt a, Math_sqrt (1 - a) with
  | Finite s, Finite t => Finite (2 * Math_atan2 s t)
  | _, _ => NaN
  end.

(** ** The measurement caches: a JavaScript [Map] with string keys

    A [Map] iterates in insertion order, so it is modelled by an association
    list, oldest entry first; [set] on a key already present keeps its
    position. *)

Section JSMap.
Context {V : Type}.

Definition Map : Type := list (string * V).

Fixpoint Map_get (m : Map) (key : string) : option V :=
  match m with
  | [] => None
  | (k, v) :: m' => if String.eqb k key then Some v else Map_get m' key
  end.

Definition Map_has (m : Map) (key : string) : bool :=
  match Map_get m key with Some _ => true | None => false end.

Fixpoint Map_set (m : Map) (key : string) (value : V) : Map :=
  match m with
  | [] => [(key, value)]
  | (k, v) :: m' =>
      if String.eqb k key then (k, value) :: m'
      else (k, v) :: Map_set m' key value
  end.

Fixpoint Map_delete (m : Map) (key : string) : Map :=
  match m with
  | [] => []
  | (k, v) :: m' =>
      if String.eqb k key then m' else (k, v) :: Map_delete m' key
  end.

Definition Map_keys (m : Map) : list string := map fst m.
Definition Map_size (m : Map) : nat := length m.
End JSMap.

Arguments Map V : clear implicits.

(** [x.toFixed(6)] for [|x| < 1e21]: the sign, then the integer nearest to
    [|x| * 10^6] (the larger one on a tie), written with at least seven
    digits and a point before the last six. *)
Fixpoint zeros (k : nat) : string :=
  match k with
  | O => EmptyString
  | S k' => String "0" (zeros k')
  end.

Definition decimal6 (negative : bool) (n : Z) : string :=
  let s := if negative then "-"%string else EmptyString in
  let m := NilZero.string_of_uint (N.to_uint (Z.to_N n)) in
  let m := (zeros (7 - String.length m) ++ m)%string in
  let k := String.length m in
  (s ++ substring 0 (k - 6) m ++ "." ++ substring (k - 6) 6 m)%string.

Definition toFixed6 (x : R) : string :=
  let negative := if Rlt_dec x 0 then true else false in
  let x := if Rlt_dec x 0 then - x else x in
  let n := Int_part (x * 1000000 + / 2) in
  decimal6 negative n.

(** [points.map(p => `${p[0].toFixed(6)},${p[1].toFixed(6)}`).join('|')] *)
Definition cacheKey (points : list point) : string :=
  String.concat "|"
    (map (fun p => (toFixed6 (fst p) ++ "," ++ toFixed6 (snd p))%string) points).

(** ** Values and effects of the coordinate checker *)

(** The argument and the result of [validateAndFixCoordinates]: [null],
    [undefined] or an array of vertices. *)
Inductive value : Type :=
| Null
| Undefined
| Array (coordinates : list point).

(** A function body either completes with a value or throws (here always
    the [TypeError] of reading an index of [undefined]). *)
Inductive completion (A : Type) : Type :=
| Normal (a : A)
| Throw.
Arguments Normal {A} a.
Arguments Throw {A}.

(** [try { body } catch (error) { return null; }] *)
Definition catch_null {A : Type} (body : completion (option A)) : option A :=
  match body with
  | Normal result => result
  | Throw => None
  end.

(** [const result = attempt; if (result) return result; rest] *)
Definition or_else {A : Type} (attempt rest : completion (option A))
  : completion (option A) :=
  match attempt with
  | Throw => Throw
  | Normal (Some result) => Normal (Some result)
  | Normal None => rest
  end.

(** The calls of [showNotification(message, type)], by message. *)
Inductive level : Type := info | success | warning | error.

Inductive notification : Type :=
| CorrectedSwap            (* "... automatically corrected (lat/lng were swapped)" *)
| ConvertedSimpleScaling   (* "... automatically converted using simple scaling" *)
| ConvertedUTM             (* "... automatically converted from UTM to WGS84" *)
| ConvertedMinnaDatum      (* "... automatically converted from Minna Datum to WGS84" *)
| ConvertedGeneric         (* "... automatically converted to WGS84" *)
| ErrorNotWGS84            (* "Error: Coordinates appear to be in UTM or another projection system ..." *)
| WarningCoordinateRanges  (* "Coordinate ranges: Lat .. to .., Lng .. to ... These appear to be UTM coordinates." *)
| WarningDifferentSystem   (* "Warning: Coordinates appear to be in a different coordinate system ..." *)
| WarningDifferentProjection (* "Warning: Coordinates appear to be in a different projection system (not WGS84) ..." *)
| WarningFarFromView.      (* "Warning: Coordinates (..) appear to be far from the current map view ..." *)

Definition level_of (n : notification) : level :=
  match n with
  | CorrectedSwap => info
  | ConvertedSimpleScaling | ConvertedUTM | ConvertedMinnaDatum
  | ConvertedGeneric => success
  | ErrorNotWGS84 => error
  | WarningCoordinateRanges | WarningDifferentSystem
  | WarningDifferentProjection | WarningFarFromView => warning
  end.

(** The repair attempts of the checker of part_000: the entries of the
    table [transformations] of [trySimpleScaling], by their [name], and the
    three conversions that [validateAndFixCoordinates] calls after it. *)
Inductive attempt : Type :=
| SimpleScaling          (* 'Simple Scaling': tryScalingTransform *)
| CoordinateSwap         (* 'Coordinate Swap': trySwapTransform *)
| OffsetCorrection       (* 'Offset Correction': tryOffsetTransform *)
| MixedTransform         (* 'Mixed Transform': tryMixedTransform *)
| UTMConversion          (* tryConvertUTMCoordinates *)
| MinnaDatumConversion   (* tryConvertMinnaDatum *)
| GenericTransform.      (* tryGenericCoordinateTransform *)

(** [Math.abs(p[0]) <= 90 && Math.abs(p[1]) <= 180] *)
Definition plausible (p : point) : bool :=
  leb (Rabs (fst p)) 90 && leb (Rabs (snd p)) 180.

Definition swap (coord : point) : point := (snd coord, fst coord).

(** The loop shared by the transforms: for each parameter in turn, map the
    whole list, read the first transformed vertex, and return the mapped
    list as soon as that vertex is plausible; [null] after the last
    parameter.  Reading [mapped[0][0]] of an empty list throws. *)
Fixpoint first_plausible (f : R -> point -> point) (params : list R)
    (coordinates : list point) : completion (option (list point)) :=
  match params with
  | [] => Normal None
  | param :: rest =>
      let mapped := map (f param) coordinates in
      match mapped with
      | [] => Throw
      | first :: _ =>
          if plausible first then Normal (Some mapped)
          else first_plausible f rest coordinates
      end
  end.

(** [Math.max(...xs)] and [Math.min(...xs)] of a non-empty list. *)
Definition Math_max (xs : list R) : R := fold_left Rmax (tl xs) (hd 0 xs).
Definition Math_min (xs : list R) : R := fold_left Rmin (tl xs) (hd 0 xs).

(** The inverse Transverse-Mercator formulas that [convertUTMToWGS84] and
    [tryConvertMinnaDatum] both spell out, up to the conversion to degrees:
    the pair [(lat1, lng)] of the source. *)
Definition inverse_mercator (a e2 falseEasting falseNorthing scaleFactor
    centralMeridian : R) (easting northing : R) : R * R :=
  let x := easting - falseEasting in
  let y := northing - falseNorthing in
  let mu := y / (a * scaleFactor * (1 - e2 / 4 - 3 * e2 * e2 / 64 - 5 * e2 * e2 * e2 / 256)) in
  let e1 := (1 - sqrt (1 - e2)) / (1 + sqrt (1 - e2)) in
  let lat1 := mu + (3 * e1 / 2 - 27 * e1 * e1 * e1 / 32) * sin (2 * mu) +
                   (21 * e1 * e1 / 16 - 55 * e1 * e1 * e1 * e1 / 32) * sin (4 * mu) +
                   (151 * e1 * e1 * e1 / 96) * sin (6 * mu) in
  let lng := centralMeridian +
             Math_atan2 x (a * scaleFactor * (1 - e2 * sin lat1 * sin lat1) * cos lat1) in
  (lat1, lng).

(** ** Geometry of [src/map-script.js] (no cache) *)

Module MapScript.

(** One pass of the Shoelace loop body:
    [j = (i + 1) % n; area += points[i][1] * points[j][0];
     area -= points[j][1] * points[i][0]]. *)
Definition shoelace_step (points : list point) (n : nat) (area : R) (i : nat) : R :=
  let j := ((i + 1) mod n)%nat in
  area + lng (at_index points i) * lat (at_index points j)
       - lng (at_index points j) * lat (at_index points i).

Definition calculatePolygonArea (points : list point) : R :=
  if (length points <? 3)%nat then 0
  else
    let n := length points in
    let area := fold_left (shoelace_step points n) (seq 0 n) 0 in
    let area := Rabs area / 2 in
    let avgLat := fold_left (fun sum point => sum + lat point) points 0 / INR n in
    let latRad := avgLat * PI / 180 in
    let metersPerDegreeLat := 111320 in
    let metersPerDegreeLng := 111320 * cos latRad in
    area * metersPerDegreeLat * metersPerDegreeLng / 1000000.

(** The Haversine term [a] of the edge from [points[i]] to [points[j]]. *)
Definition haversine_a (pi pj : point) : R :=
  let lat1 := lat pi * PI / 180 in
  let lat2 := lat pj * PI / 180 in
  let deltaLat := lat2 - lat1 in
  let deltaLng := (lng pj - lng pi) * PI / 180 in
  sin (deltaLat / 2) * sin (deltaLat / 2) +
  cos lat1 * cos lat2 *
  sin (deltaLng / 2) * sin (deltaLng / 2).

(** [distance = 6371000 * c], in metres. *)
Definition edge_distance (pi pj : point) : number :=
  nscale 6371000 (central_angle (haversine_a pi pj)).

Definition perimeter_step (points : list point) (n : nat)
    (perimeter : number) (i : nat) : number :=
  let j := ((i + 1) mod n)%nat in
  nadd perimeter (edge_distance (at_index points i) (at_index points j)).

Definition calculatePolygonPerimeter (points : list point) : number :=
  let n := length points in
  let perimeter := fold_left (perimeter_step points n) (seq 0 n) (Finite 0) in
  nscale (/ 1000) perimeter.

(** The bounding box object; [calculateBoundingBox] returns [null] ([None])
    for the empty list.  The copies of [calculateBoundingBox] and
    [calculateAspectRatio] in part_000 and part_001 are the same text. *)
Record BoundingBox : Type := mkBoundingBox {
  minLat : R; maxLat : R; minLng : R; maxLng : R;
  width : R; height : R
}.

Definition bbox_step (acc : R * R * R * R) (point : point) : R * R * R * R :=
  let '(minLat, maxLat, minLng, maxLng) := acc in
  (Rmin minLat (lat point), Rmax maxLat (lat point),
   Rmin minLng (lng point), Rmax maxLng (lng point)).

Definition calculateBoundingBox (points : list point) : option BoundingBox :=
  match points with
  | [] => None
  | p0 :: _ =>
      let '(minLat, maxLat, minLng, maxLng) :=
        fold_left bbox_step points (lat p0, lat p0, lng p0, lng p0) in
      Some (mkBoundingBox minLat maxLat minLng maxLng
              (maxLng - minLng) (maxLat - minLat))
  end.

Definition calculateAspectRatio (points : list point) : number :=
  match calculateBoundingBox points with
  | None => Finite 0
  | Some bbox =>
      let avgLat := (minLat bbox + maxLat bbox) / 2 in
      let latRad := avgLat * PI / 180 in
      let widthM := width bbox * 111320 * cos latRad in
      let heightM := height bbox * 111320 in
      divide widthM heightM
  end.

(** [calculateCentroid]: the mean of the latitudes and of the longitudes,
    [null] for the empty list (the same text in part_000 and part_001). *)
Definition centroid_step (acc : R * R) (point : point) : R * R :=
  let '(x, y) := acc in (x + lng point, y + lat point).

Definition calculateCentroid (points : list point) : option point :=
  match points with
  | [] => None
  | _ :: _ =>
      let '(x, y) := fold_left centroid_step points (0, 0) in
      Some (y / INR (length points), x / INR (length points))
  end.

End MapScript.

(** ** The area function of [src/map-script.js] on binary64

    The same function on IEEE doubles, to evaluate it where the last bits
    matter.  ECMAScript leaves [Math.cos] an implementation-approximated
    value except at zero, where the result is 1: [Math_cos] has its value
    there and is left open ([None]) elsewhere. *)
Module MapScript64.
Import PrimFloat.
Local Open Scope float_scope.

Definition point64 : Type := (float * float)%type.

Definition at_index (points : list point64) (i : nat) : point64 :=
  nth i points (0, 0).

(** [Math.PI], the double nearest to pi: 3.141592653589793. *)
Definition Math_PI : float := 0x1.921fb54442d18p+1.

Definition Math_cos (x : float) : option float :=
  if x =? 0 then Some 1 else None.

(** [points.length] as a number. *)
Definition number_of_nat (n : nat) : float :=
  of_uint63 (Uint63.of_Z (Z.of_nat n)).

(** [area += points[i][1] * points[j][0];
     area -= points[j][1] * points[i][0]] *)
Definition shoelace_step (points : list point64) (n : nat) (area : float)
    (i : nat) : float :=
  let j := ((i + 1) mod n)%nat in
  let area := area + snd (at_index points i) * fst (at_index points j) in
  area - snd (at_index points j) * fst (at_index points i).

Definition calculatePolygonArea (points : list point64) : option float :=
  if (length points <? 3)%nat then Some 0
  else
    let n := length points in
    let area := fold_left (shoelace_step points n) (seq 0 n) 0 in
    let area := abs area / 2 in
    let avgLat :=
      fold_left (fun sum point => sum + fst point) points 0 / number_of_nat n in
    let latRad := avgLat * Math_PI / 180 in
    let metersPerDegreeLat := 111320 in
    match Math_cos latRad with
    | Some cosLatRad =>
        let metersPerDegreeLng := 111320 * cosLatRad in
        Some (area * metersPerDegreeLat * metersPerDegreeLng / 1000000)
    | None => None
    end.

(** A triangle across the equator with mean latitude 0; each literal stands
    for the double nearest to it, as in JavaScript. *)
#[warnings="-inexact-float"]
Definition skew : list point64 := [(2.2, -1.4); (-2.2, -2.3); (0, 0.1)].

(** The areas the function returns for [skew] and for its reversal. *)
#[warnings="-inexact-float"]
Definition area_skew : float := 53162.29089600001.
#[warnings="-inexact-float"]
Definition area_skew_reversed : float := 53162.290896.

End MapScript64.

(** ** Uploaded data and the page state of [displayUploadedData]

    The parsed file: [null], a geometry object, a feature collection (a
    feature may lack its geometry), a feature, a bare coordinate array. *)
Inductive geometry : Type :=
| Polygon (coordinates : list (list point))
| LineString (coordinates : list point)
| OtherGeometry.

Inductive uploaded : Type :=
| NoData
| Geometry (g : geometry)
| FeatureCollection (features : list (option geometry))
| Feature (g : geometry)
| CoordinateArray (coordinates : list point).

(** The notifications of [displayUploadedData] and of what it calls. *)
Inductive upload_notification : Type :=
| NoValidGeometry          (* "No valid geometry found in ..." *)
| MapCleared               (* "Map cleared successfully", from clearMap *)
| FromChecker (n : notification)
| AggressiveWarning        (* "Coordinates were corrected using aggressive method. ..." *)
| CannotDisplay            (* "Cannot display uploaded data: Invalid coordinate system detected. ..." *)
| AOILoaded                (* "AOI loaded from ... successfully! ..." *)
| InvalidGeometry.         (* "Invalid geometry in .... ..." *)

(** The module state the function reads and writes; [currentPolygon] tells
    whether a polygon layer is referenced. *)
Record page : Type := mkPage {
  isDrawing : bool;
  polygonPoints : list point;
  currentPolygon : bool;
  totalArea : R;
  areaCalculationCache : Map R;
  perimeterCalculationCache : Map number
}.

(** [geometry.coordinates[0]] of a polygon, [geometry.coordinates] of a
    line, nothing for another type. *)
Definition geometry_coordinates (g : geometry) : value :=
  match g with
  | Polygon rings =>
      match rings with
      | [] => Undefined
      | ring :: _ => Array ring
      end
  | LineString coordinates => Array coordinates
  | OtherGeometry => Undefined
  end.

(** The chain of [if (data.type === ...)] that fills [coordinates]. *)
Definition extract_coordinates (data : uploaded) : value :=
  match data with
  | NoData => Undefined
  | Geometry g => geometry_coordinates g
  | FeatureCollection features =>
      match features with
      | Some g :: _ => geometry_coordinates g
      | _ => Undefined
      end
  | Feature g => geometry_coordinates g
  | CoordinateArray coordinates => Array coordinates
  end.

(** ** Geometry of [src/unnamed/part_000] (cached) *)

Module Part000.

(** The caching tail of both functions: [if (cache.size < 50) cache.set(..)
    else { keysToDelete = Array.from(cache.keys()).slice(0, 25);
    keysToDelete.forEach(key => cache.delete(key)); cache.set(..) }]. *)
Definition store {V : Type} (cache : Map V) (key : string) (value : V) : Map V :=
  if (Map_size cache <? 50)%nat then Map_set cache key value
  else
    let keysToDelete := firstn 25 (Map_keys cache) in
    let cache := fold_left Map_delete keysToDelete cache in
    Map_set cache key value.

Definition shoelace_step := MapScript.shoelace_step.

(** The computation between the cache lookup and the cache update. *)
Definition computeArea (points : list point) : R :=
  let n := length points in
  let area := fold_left (shoelace_step points n) (seq 0 n) 0 in
  let area := Rabs area * 0.5 in
  let latSum := fold_left (fun latSum i => latSum + lat (at_index points i)) (seq 0 n) 0 in
  let avgLat := latSum / INR n in
  let latRad := avgLat * PI / 180 in
  let metersPerDegreeLat := 111320 in
  let metersPerDegreeLng := metersPerDegreeLat * cos latRad in
  let conversionFactor := metersPerDegreeLat * metersPerDegreeLng / 1000000 in
  area * conversionFactor.

(** State passing over [areaCalculationCache]; [has(key)] followed by
    [get(key)] is the lookup [Map_get]. *)
Definition calculatePolygonArea (areaCalculationCache : Map R)
    (points : list point) : R * Map R :=
  if (length points <? 3)%nat then (0, areaCalculationCache)
  else
    let key := cacheKey points in
    match Map_get areaCalculationCache key with
    | Some cached => (cached, areaCalculationCache)
    | None =>
        let areaKm2 := computeArea points in
        (areaKm2, store areaCalculationCache key areaKm2)
    end.

(** The loop body of the perimeter; [cosLat1] is computed once, before the
    loop, from [points[0]]. *)
Definition haversine_a (cosLat1 : R) (pi pj : point) : R :=
  let lat1 := lat pi * PI / 180 in
  let lat2 := lat pj * PI / 180 in
  let deltaLat := lat2 - lat1 in
  let deltaLng := (lng pj - lng pi) * PI / 180 in
  let sinDeltaLat := sin (deltaLat * 0.5) in
  let sinDeltaLng := sin (deltaLng * 0.5) in
  let cosLat2 := cos lat2 in
  sinDeltaLat * sinDeltaLat + cosLat1 * cosLat2 * sinDeltaLng * sinDeltaLng.

Definition perimeter_step (points : list point) (n : nat) (cosLat1 : R)
    (perimeter : number) (i : nat) : number :=
  let j := ((i + 1) mod n)%nat in
  let a := haversine_a cosLat1 (at_index points i) (at_index points j) in
  let c := central_angle a in
  let distance := nscale 6371000 c in
  nadd perimeter distance.

Definition computePerimeter (points : list point) : number :=
  let n := length points in
  let cosLat1 := cos (lat (at_index points 0) * PI / 180) in
  let perimeter :=
    fold_left (perimeter_step points n cosLat1) (seq 0 n) (Finite 0) in
  nscale 0.001 perimeter.

(** State passing over [perimeterCalculationCache]. *)
Definition calculatePolygonPerimeter (perimeterCalculationCache : Map number)
    (points : list point) : number * Map number :=
  if (length points <? 2)%nat then (Finite 0, perimeterCalculationCache)
  else
    let key := cacheKey points in
    match Map_get perimeterCalculationCache key with
    | Some cached => (cached, perimeterCalculationCache)
    | None =>
        let perimeterKm := computePerimeter points in
        (perimeterKm, store perimeterCalculationCache key perimeterKm)
    end.

(** *** The coordinate checker of part_000 *)

Definition scale_by (scale : R) (coord : point) : point :=
  (fst coord / scale, snd coord / scale).

Definition tryScalingTransform (coordinates : list point)
  : completion (option (list point)) :=
  let scaleFactors := [10000000; 1000000; 100000; 10000; 1000; 100; 10] in
  first_plausible scale_by scaleFactors coordinates.

Definition trySwapTransform (coordinates : list point)
  : completion (option (list point)) :=
  let swappedCoords := map swap coordinates in
  match swappedCoords with
  | [] => Throw
  | firstSwapped :: _ =>
      if plausible firstSwapped then Normal (Some swappedCoords)
      else Normal None
  end.

Definition offset_by (offset : R) (coord : point) : point :=
  (fst coord - offset, snd coord - offset).

Definition tryOffsetTransform (coordinates : list point)
  : completion (option (list point)) :=
  let offsets := [10000000; 1000000; 100000; 10000; 1000] in
  first_plausible offset_by offsets coordinates.

(** Scaling, then swapping. *)
Definition scale_swap_by (scale : R) (coord : point) : point :=
  swap (scale_by scale coord).

Definition tryMixedTransform (coordinates : list point)
  : completion (option (list point)) :=
  let scaleFactors := [1000000; 100000; 10000; 1000] in
  first_plausible scale_swap_by scaleFactors coordinates.

(** [for (const transform of transformations) { result = transform.func();
    if (result) return result; } return null] *)
Fixpoint run_transformations
    (transformations : list (list point -> completion (option (list point))))
    (coordinates : list point) : completion (option (list point)) :=
  match transformations with
  | [] => Normal None
  | transform :: rest =>
      or_else (transform coordinates) (run_transformations rest coordinates)
  end.

(** [trySimpleScaling]: reading [firstCoord[0]] throws on the empty list;
    the result of [analyzeCoordinateSystem] is only logged and is left out. *)
Definition trySimpleScaling (coordinates : list point) : option (list point) :=
  catch_null
    match coordinates with
    | [] => Throw
    | _ :: _ =>
        run_transformations
          [tryScalingTransform; trySwapTransform; tryOffsetTransform;
           tryMixedTransform] coordinates
    end.

Definition utm_point (centralMeridian : R) (coord : point) : point :=
  let '(lat1, lng) :=
    inverse_mercator 6378137 0.00669438 500000 0 0.9996 centralMeridian
      (fst coord) (snd coord) in
  let lat := lat1 * 180 / PI in
  let lngDeg := lng * 180 / PI in
  (lat, lngDeg).

Definition convertUTMToWGS84 (coordinates : list point) (zone : nat)
    (centralMeridian : R) : option (list point) :=
  catch_null
    (let convertedCoords := map (utm_point centralMeridian) coordinates in
     match convertedCoords with
     | [] => Throw
     | firstConverted :: _ =>
         if plausible firstConverted then Normal (Some convertedCoords)
         else Normal None
     end).

Definition utmZones : list (nat * R) :=
  [(32%nat, 9); (31%nat, 3); (33%nat, 15); (18%nat, -75); (19%nat, -69);
   (10%nat, -123); (11%nat, -117)].

Fixpoint try_zones (zones : list (nat * R)) (coordinates : list point)
  : option (list point) :=
  match zones with
  | [] => None
  | (zone, centralMeridian) :: rest =>
      match convertUTMToWGS84 coordinates zone centralMeridian with
      | Some convertedCoords => Some convertedCoords
      | None => try_zones rest coordinates
      end
  end.

Definition tryConvertUTMCoordinates (coordinates : list point)
  : option (list point) :=
  match coordinates with
  | [] => None
  | (x, y) :: _ =>
      if ltb 100000 (Rabs x) && ltb 100000 (Rabs y)
      then try_zones utmZones coordinates
      else None
  end.

Definition minna_point (coord : point) : point :=
  let '(lat1, lng) :=
    inverse_mercator 6378249.145 0.006722670 500000 0 0.9996 9
      (fst coord) (snd coord) in
  let latWGS84 := lat1 * 180 / PI in
  let lngWGS84 := lng * 180 / PI in
  let latShift := 0.0001 in
  let lngShift := 0.0001 in
  (latWGS84 + latShift, lngWGS84 + lngShift).

Definition tryConvertMinnaDatum (coordinates : list point)
  : option (list point) :=
  match coordinates with
  | [] => None
  | (x, y) :: _ =>
      let minEasting := 100000 in
      let maxEasting := 900000 in
      let minNorthing := 100000 in
      let maxNorthing := 1200000 in
      if leb minEasting x && leb x maxEasting &&
         leb minNorthing y && leb y maxNorthing
      then
        let convertedCoords := map minna_point coordinates in
        match convertedCoords with
        | [] => None
        | firstConverted :: _ =>
            if plausible firstConverted then Some convertedCoords else None
        end
      else None
  end.

(** Swapping and scaling in one step: [[coord[1] / scale, coord[0] / scale]]. *)
Definition swap_scale_by (scale : R) (coord : point) : point :=
  (snd coord / scale, fst coord / scale).

Definition tryGenericCoordinateTransform (coordinates : list point)
  : option (list point) :=
  catch_null
    match coordinates with
    | [] => Throw
    | (x, y) :: _ =>
        let large := ltb 10000 (Rabs x) || ltb 10000 (Rabs y) in
        or_else
          (if large
           then first_plausible scale_by
                  [1000000; 100000; 10000; 1000; 100] coordinates
           else Normal None)
          (if large
           then first_plausible swap_scale_by
                  [1000000; 100000; 10000; 1000; 100] coordinates
           else Normal None)
    end.

(** The loop over [extremeScales]: plain scaling, then swap with scaling,
    for each scale in turn. *)
Fixpoint aggressive_scales (scales : list R) (coordinates : list point)
  : completion (option (list point)) :=
  match scales with
  | [] => Normal None
  | scale :: rest =>
      or_else (first_plausible scale_by [scale] coordinates)
        (or_else (first_plausible swap_scale_by [scale] coordinates)
           (aggressive_scales rest coordinates))
  end.

(** The last resort: centre, shrink to a spread of at most 10 degrees, and
    move to (8, 8). *)
Definition relocate (centerX centerY scaleX scaleY : R) (coord : point) : point :=
  let centeredX := (fst coord - centerX) * scaleX in
  let centeredY := (snd coord - centerY) * scaleY in
  let lat := 8.0 + centeredY in
  let lng := 8.0 + centeredX in
  (lat, lng).

Definition tryAggressiveCorrection (coordinates : list point)
  : option (list point) :=
  catch_null
    match coordinates with
    | [] => Throw
    | _ :: _ =>
        let extremeScales :=
          [10000000; 1000000; 100000; 10000; 1000; 100; 10; 1] in
        or_else (aggressive_scales extremeScales coordinates)
          (or_else
             (first_plausible offset_by [1000000; 100000; 10000; 1000] coordinates)
             (let n := INR (length coordinates) in
              let centerX := fold_left (fun sum coord => sum + fst coord) coordinates 0 / n in
              let centerY := fold_left (fun sum coord => sum + snd coord) coordinates 0 / n in
              let maxX := Math_max (map fst coordinates) in
              let minX := Math_min (map fst coordinates) in
              let maxY := Math_max (map snd coordinates) in
              let minY := Math_min (map snd coordinates) in
              let rangeX := maxX - minX in
              let rangeY := maxY - minY in
              let scaleX := if ltb 0 rangeX then Rmin (10 / rangeX) 1 else 1 in
              let scaleY := if ltb 0 rangeY then Rmin (10 / rangeY) 1 else 1 in
              Normal (Some (map (relocate centerX centerY scaleX scaleY) coordinates))))
    end.

(** [validateAndFixCoordinates]; [mapCenter] is the value of
    [map.getCenter()], the notifications are returned in the order shown. *)
Definition validateAndFixCoordinates (mapCenter : point) (coordinates : value)
  : value * list notification :=
  match coordinates with
  | Null | Undefined | Array [] => (coordinates, [])
  | Array ((firstCoord :: _) as coords) =>
      let lat := fst firstCoord in
      let lng := snd firstCoord in
      let isValidWGS84 := leb (Rabs lat) 90 && leb (Rabs lng) 180 in
      if isValidWGS84 then
        let distanceFromCenter :=
          sqrt ((lat - fst mapCenter) ^ 2 + (lng - snd mapCenter) ^ 2) in
        (coordinates,
         if ltb 20 distanceFromCenter then [WarningFarFromView] else [])
      else
        let swappedLat := snd firstCoord in
        let swappedLng := fst firstCoord in
        if leb (Rabs swappedLat) 90 && leb (Rabs swappedLng) 180 then
          (Array (map swap coords), [CorrectedSwap])
        else if ltb 1000 (Rabs lat) || ltb 1000 (Rabs lng) then
          match trySimpleScaling coords with
          | Some scaledCoords => (Array scaledCoords, [ConvertedSimpleScaling])
          | None =>
          match tryConvertUTMCoordinates coords with
          | Some convertedCoords => (Array convertedCoords, [ConvertedUTM])
          | None =>
          match tryConvertMinnaDatum coords with
          | Some minnaCoords => (Array minnaCoords, [ConvertedMinnaDatum])
          | None =>
          match tryGenericCoordinateTransform coords with
          | Some genericCoords => (Array genericCoords, [ConvertedGeneric])
          | None => (Null, [ErrorNotWGS84; WarningCoordinateRanges])
          end end end end
        else
          (coordinates,
           if ltb 90 (Rabs lat) || ltb 180 (Rabs lng)
           then [WarningDifferentSystem] else [])
  end.

(** *** The calls of the repair chain, in order

    The table of [trySimpleScaling]:
    [{ name: 'Simple Scaling', func: () => tryScalingTransform(coordinates) },
     { name: 'Coordinate Swap', ... }, { name: 'Offset Correction', ... },
     { name: 'Mixed Transform', ... }]. *)
Definition transformations
  : list (attempt * (list point -> completion (option (list point)))) :=
  [(SimpleScaling, tryScalingTransform);
   (CoordinateSwap, trySwapTransform);
   (OffsetCorrection, tryOffsetTransform);
   (MixedTransform, tryMixedTransform)].




(** *** The caller of the checker *)

(** [updateAreaInfo(area, perimeter, coordinates)]: of the module state it
    assigns [totalArea = area]; everything else it does writes texts into
    the document. *)
Definition updateAreaInfo (area : R) (perimeter : number)
    (coordinates : list point) (state : page) : page :=
  mkPage (isDrawing state) (polygonPoints state) (currentPolygon state) area
    (areaCalculationCache state) (perimeterCalculationCache state).

Definition stopDrawing (state : page) : page :=
  mkPage false (polygonPoints state) (currentPolygon state) (totalArea state)
    (areaCalculationCache state) (perimeterCalculationCache state).

(** [clearMap]: [polygonPoints = []; currentPolygon = null;
    updateAreaInfo(0, 0, []); stopDrawing(); ...;
    showNotification('Map cleared successfully', 'info')]. *)
Definition clearMap (state : page) : page * list upload_notification :=
  let state :=
    mkPage (isDrawing state) [] false (totalArea state)
      (areaCalculationCache state) (perimeterCalculationCache state) in
  let state := updateAreaInfo 0 (Finite 0) [] state in
  let state := stopDrawing state in
  (state, [MapCleared]).

(** [displayUploadedData] of part_000, from the extraction of the
    coordinates to the drawing: the module state and the notifications, in
    the order shown; the layers of the map and the dialogs are left out. *)
Definition displayUploadedData (mapCenter : point) (state : page)
    (data : uploaded) : page * list upload_notification :=
  match data with
  | NoData => (state, [NoValidGeometry])
  | _ =>
      let '(state, cleared) := clearMap state in
      let coordinates := extract_coordinates data in
      (* if (coordinates && coordinates.length >= 3) { ... } else { ... } *)
      let draw (coordinates : list point) (notes : list upload_notification) :=
        if (3 <=? length coordinates)%nat then
          let state :=
            mkPage (isDrawing state) coordinates true (totalArea state)
              (areaCalculationCache state) (perimeterCalculationCache state) in
          let '(area, areaCache) :=
            calculatePolygonArea (areaCalculationCache state) coordinates in
          let '(perimeter, perimeterCache) :=
            calculatePolygonPerimeter (perimeterCalculationCache state)
              coordinates in
          let state :=
            mkPage (isDrawing state) (polygonPoints state)
              (currentPolygon state) (totalArea state) areaCache
              perimeterCache in
          (updateAreaInfo area perimeter coordinates state,
           cleared ++ notes ++ [AOILoaded])
        else (state, cleared ++ notes ++ [InvalidGeometry]) in
      match coordinates with
      | Array ((_ :: _) as coords) =>
          let '(validatedCoordinates, notes) :=
            validateAndFixCoordinates mapCenter (Array coords) in
          let notes := map FromChecker notes in
          match validatedCoordinates with
          | Null =>
              match tryAggressiveCorrection coords with
              | Some aggressiveCoords =>
                  draw aggressiveCoords (notes ++ [AggressiveWarning])
              | None => (state, cleared ++ notes ++ [CannotDisplay])
              end
          | Array validated => draw validated notes
          | Undefined => (* not returned for an array *)
              (state, cleared ++ notes ++ [InvalidGeometry])
          end
      | Array [] => draw [] []
      | _ => (state, cleared ++ [InvalidGeometry])
      end
  end.

End Part000.

(** ** Geometry of [src/unnamed/part_001] (cached, no eviction)

    The two functions are those of part_000 up to the caching tail. *)

Module Part001.

(** [if (cache.size < 100) cache.set(cacheKey, value)], nothing otherwise. *)
Definition store {V : Type} (cache : Map V) (key : string) (value : V) : Map V :=
  if (Map_size cache <? 100)%nat then Map_set cache key value
  else cache.

Definition calculatePolygonArea (areaCalculationCache : Map R)
    (points : list point) : R * Map R :=
  if (length points <? 3)%nat then (0, areaCalculationCache)
  else
    let key := cacheKey points in
    match Map_get areaCalculationCache key with
    | Some cached => (cached, areaCalculationCache)
    | None =>
        let areaKm2 := Part000.computeArea points in
        (areaKm2, store areaCalculationCache key areaKm2)
    end.

Definition calculatePolygonPerimeter (perimeterCalculationCache : Map number)
    (points : list point) : number * Map number :=
  if (length points <? 2)%nat then (Finite 0, perimeterCalculationCache)
  else
    let key := cacheKey points in
    match Map_get perimeterCalculationCache key with
    | Some cached => (cached, perimeterCalculationCache)
    | None =>
        let perimeterKm := Part000.computePerimeter points in
        (perimeterKm, store perimeterCalculationCache key perimeterKm)
    end.

(** The coordinate checker of part_001: the swap, or a warning. *)
Definition validateAndFixCoordinates (coordinates : value)
  : value * list notification :=
  match coordinates with
  | Null | Undefined | Array [] => (coordinates, [])
  | Array ((firstCoord :: _) as coords) =>
      let lat := fst firstCoord in
      let lng := snd firstCoord in
      let outOfRange := ltb 90 (Rabs lat) || ltb 180 (Rabs lng) in
      let swappedCoords := map swap coords in
      if outOfRange && plausible (hd (0, 0) swappedCoords) then
        (Array swappedCoords, [CorrectedSwap])
      else
        (coordinates,
         if outOfRange then [WarningDifferentProjection] else [])
  end.

End Part001.

(** ** The measurements as the specification words them *)

(** Every vertex with its successor, the last one with the first. *)
Definition successor_pairs (ring : list point) : list (point * point) :=
  combine ring (tl ring ++ firstn 1 ring).

(** The planar Shoelace sum over (x, y) = (lng, lat). *)
Definition shoelace_sum (ring : list point) : R :=
  Rsum (map (fun e => lng (fst e) * lat (snd e) - lng (snd e) * lat (fst e))
          (successor_pairs ring)).

(** The arithmetic mean of all vertex latitudes. *)
Definition mean_latitude (ring : list point) : R :=
  Rsum (map lat ring) / INR (length ring).

Definition area_formula (ring : list point) : R :=
  if (length ring <? 3)%nat then 0
  else
    Rabs (shoelace_sum ring) / 2 *
    ((111320 * 111320 * cos (mean_latitude ring * PI / 180)) / 1000000).

(** Cyclic rotation of the vertex list by [k] places. *)
Definition rotate (k : nat) (ring : list point) : list point :=
  skipn k ring ++ firstn k ring.

(** Latitude within [-90, 90] and longitude within [-180, 180]. *)
Definition Vertex (p : point) : Prop :=
  -90 <= lat p <= 90 /\ -180 <= lng p <= 180.

(** A ring of the data model: at least three vertices, each a [Vertex]. *)
Definition Ring (ring : list point) : Prop :=
  (3 <= length ring)%nat /\ Forall Vertex ring.

(** The pairs of neighbours along an open path. *)
Fixpoint path_pairs (path : list point) : list (point * point) :=
  match path with
  | x :: ((y :: _) as rest) => (x, y) :: path_pairs rest
  | _ => []
  end.

Definition flip (e : point * point) : point * point := (snd e, fst e).

Definition nsum (l : list number) : number := fold_right nadd (Finite 0) l.

(** ** The attempts of the repair chain *)




(** [out] is [coordinates] mapped through [f], vertex by vertex, and its
    first vertex is plausible. *)
Definition repaired_by (f : point -> point) (coordinates out : list point) : Prop :=
  out = map f coordinates /\
  exists first rest, coordinates = first :: rest /\ plausible (f first) = true.

(** The output has the length of the input and its vertex at every
    position is [f] of the input vertex at that position. *)
Definition vertexwise (f : point -> point) (coordinates out : list point) : Prop :=
  length out = length coordinates /\
  forall i, nth_error out i = option_map f (nth_error coordinates i).

(** ** Concrete inputs *)

(** The signature of a ring with integer coordinates, and a cache of [n]
    entries under the signatures of [n] such rings, oldest first. *)
Definition signatureZ (ring : list (Z * Z)) : string :=
  String.concat "|"
    (map (fun p => (decimal6 (fst p <? 0)%Z (Z.abs (fst p) * 1000000) ++ "," ++
                    decimal6 (snd p <? 0)%Z (Z.abs (snd p) * 1000000))%string)
       ring).

(** The ring with the given integer coordinates. *)
Definition of_Z (ring : list (Z * Z)) : list point :=
  map (fun p => (IZR (fst p), IZR (snd p))) ring.

Definition sample_cache {V : Type} (value : V) (n : nat) : Map V :=
  map (fun i => let z := Z.of_nat i in
                (signatureZ [(0, z); (1, z); (1, z + 1)]%Z, value))
      (seq 0 n).

(** A rectangle of one degree by two across the equator. *)
Definition band : list point := [(-1, 0); (-1, 1); (1, 1); (1, 0)].

(** The triangle of the north pole and two opposite points of the equator. *)
Definition octant : list point := [(90, 0); (0, 0); (0, 180)].

(** The centre of the map when the page opens: [setView([9.0765, 7.3986], 10)]. *)
Definition initialCenter : point := (9.0765, 7.3986).

(** Inputs of the checker: one far outside every range, with a zero
    northing, one beyond the reach of the scaling but with a northing of a
    UTM kind, and one outside the WGS84 ranges but below 1000. *)
Definition far_east : list point := [(10000000000, 0)].
Definition near_miss : list point := [(200, 300)].

(** Inputs of the single transforms. *)
Definition swapped_input : list point := [(100, 50)].
Definition scaled_input : list point := [(100000000, 50000000)].
Definition mixed_input : list point := [(100000000, 50000000)].
Definition offset_input : list point := [(1000050, 1000100)].
Definition generic_input : list point := [(150000000, 50000000)].
Definition meridian_input : list point := [(500000, 0)].
Definition utm_input : list point := [(500000, 200000)].
Definition hopeless_input : list point := [(10000000000, 10000000000)].

(** Three vertices on the equator, and three times the same vertex. *)
Definition flat : list point := [(0, 0); (0, 1); (0, 2)].
Definition dot : list point := [(5, 5); (5, 5); (5, 5)].

(** ** Call histories and further inputs *)

(** The rectangle [band] with its eastern side moved by a tenth of a
    millionth of a degree. *)
Definition band_widened : list point :=
  [(-1, 0); (-1, 1.0000001); (1, 1.0000001); (1, 0)].

(** The caches of part_000 after a history of calls, starting empty. *)
Definition area_cache_after (calls : list (list point)) : Map R :=
  fold_left (fun cache points => snd (Part000.calculatePolygonArea cache points))
    calls [].

Definition perimeter_cache_after (calls : list (list point)) : Map number :=
  fold_left
    (fun cache points => snd (Part000.calculatePolygonPerimeter cache points))
    calls [].

(** Every entry of the cache is the value [compute] gives for a vertex list
    of [calls] with the entry's key as its signature. *)
Definition cached_from {V : Type} (compute : list point -> V) (minimum : nat)
    (calls : list (list point)) (cache : Map V) : Prop :=
  Forall (fun entry =>
            exists ring, In ring calls /\ (minimum <= length ring)%nat /\
                         cacheKey ring = fst entry /\ snd entry = compute ring)
    cache.

(** The area cache of part_001 after a history of calls, starting empty. *)
Definition area_cache_after_001 (calls : list (list point)) : Map R :=
  fold_left (fun cache points => snd (Part001.calculatePolygonArea cache points))
    calls [].

(** Three vertices beyond the reach of every scale factor and offset. *)
Definition hopeless_ring : list point :=
  [(10000000000, 10000000000); (10000000040, 10000000000);
   (10000000000, 10000000005)].

(** * Properties *)

(** ** Sums and loops *)

Lemma fold_left_Rplus {A : Type} (f : A -> R) (l : list A) (a0 : R) :
  fold_left (fun acc x => acc + f x) l a0 = a0 + Rsum (map f l).
Proof.
  revert a0; induction l as [|x l IH]; intros a0; simpl.
  - lra.
  - rewrite IH. lra.
Qed.

Lemma fold_left_pointwise {A B : Type} (f g : A -> B -> A) (l : list B) (a0 : A) :
  (forall a x, f a x = g a x) -> fold_left f l a0 = fold_left g l a0.
Proof.
  intros H. revert a0; induction l as [|x l IH]; intros a0; simpl.
  - reflexivity.
  - rewrite H. apply IH.
Qed.

Lemma Rsum_app (l1 l2 : list R) : Rsum (l1 ++ l2) = Rsum l1 + Rsum l2.
Proof.
  induction l1 as [|x l1 IH]; simpl; [lra | rewrite IH; lra].
Qed.

Lemma Rsum_rev (l : list R) : Rsum (rev l) = Rsum l.
Proof.
  induction l as [|x l IH]; simpl; [reflexivity|].
  rewrite Rsum_app, IH. simpl. lra.
Qed.

Lemma nth_map_seq {A : Type} (f : nat -> A) (n i : nat) (d : A) :
  (i < n)%nat -> nth i (map f (seq 0 n)) d = f i.
Proof.
  intros Hi.
  rewrite nth_indep with (d' := f 0%nat) by (rewrite length_map, length_seq; exact Hi).
  rewrite map_nth, seq_nth by exact Hi. reflexivity.
Qed.

(** The index pairs [(i, (i + 1) % n)] of the loops enumerate the
    successor pairs. *)
Lemma index_pairs (points : list point) :
  map (fun i => (at_index points i,
                 at_index points ((i + 1) mod length points)))
      (seq 0 (length points))
  = successor_pairs points.
Proof.
  unfold successor_pairs, at_index.
  destruct points as [|p0 rest]; [reflexivity|].
  set (l := p0 :: rest).
  assert (Hlen : length (tl l ++ firstn 1 l) = length l).
  { subst l. simpl. rewrite length_app. simpl. lia. }
  apply nth_ext with (d := ((0, 0), (0, 0))) (d' := ((0, 0), (0, 0))).
  - rewrite length_map, length_seq, length_combine, Hlen. lia.
  - intros i Hi. rewrite length_map, length_seq in Hi.
    rewrite combine_nth by (symmetry; exact Hlen).
    rewrite nth_map_seq by exact Hi.
    f_equal.
    subst l. simpl tl. simpl firstn. simpl length in *.
    destruct (Nat.eq_dec (i + 1) (S (length rest))) as [E|E].
    + rewrite E, Nat.Div0.mod_same.
      rewrite app_nth2 by lia.
      replace (i - length rest)%nat with 0%nat by lia. reflexivity.
    + rewrite Nat.mod_small by lia.
      rewrite app_nth1 by lia.
      replace (i + 1)%nat with (S i) by lia. reflexivity.
Qed.

(** ** Successor pairs under rotation and reversal *)

Lemma successor_pairs_path (x : point) (l : list point) :
  successor_pairs (x :: l) = path_pairs (x :: l ++ [x]).
Proof.
  unfold successor_pairs. simpl tl. simpl firstn.
  generalize x at 1 3 as y. induction l as [|z l IH]; intros y.
  - reflexivity.
  - simpl. f_equal. apply IH.
Qed.

Lemma path_pairs_snoc (l : list point) (a b : point) :
  path_pairs (l ++ [a; b]) = path_pairs (l ++ [a]) ++ [(a, b)].
Proof.
  induction l as [|y l IH]; [reflexivity|].
  destruct l as [|z l]; [reflexivity|].
  change (path_pairs ((y :: z :: l) ++ [a; b]))
    with ((y, z) :: path_pairs ((z :: l) ++ [a; b])).
  rewrite IH. reflexivity.
Qed.

Lemma successor_pairs_rotate1 (x : point) (l : list point) :
  Permutation (successor_pairs (l ++ [x])) (successor_pairs (x :: l)).
Proof.
  destruct l as [|y l]; [apply Permutation_refl|].
  rewrite (successor_pairs_path x (y :: l)).
  change ((y :: l) ++ [x]) with (y :: (l ++ [x])).
  rewrite successor_pairs_path.
  replace (y :: (l ++ [x]) ++ [y]) with ((y :: l) ++ [x; y])
    by (simpl; rewrite <- app_assoc; reflexivity).
  rewrite path_pairs_snoc.
  change (path_pairs (x :: (y :: l) ++ [x]))
    with ((x, y) :: path_pairs ((y :: l) ++ [x])).
  apply Permutation_sym, Permutation_cons_append.
Qed.

Lemma successor_pairs_app_comm (l1 l2 : list point) :
  Permutation (successor_pairs (l2 ++ l1)) (successor_pairs (l1 ++ l2)).
Proof.
  revert l2; induction l1 as [|x l1 IH]; intros l2.
  - rewrite app_nil_r. apply Permutation_refl.
  - replace (l2 ++ x :: l1) with ((l2 ++ [x]) ++ l1)
      by (rewrite <- app_assoc; reflexivity).
    eapply Permutation_trans; [apply IH|].
    rewrite app_assoc. apply successor_pairs_rotate1.
Qed.

Lemma successor_pairs_rotate (k : nat) (ring : list point) :
  Permutation (successor_pairs (rotate k ring)) (successor_pairs ring).
Proof.
  unfold rotate.
  rewrite <- (firstn_skipn k ring) at 3.
  apply successor_pairs_app_comm.
Qed.

Lemma path_pairs_rev (path : list point) :
  path_pairs (rev path) = map flip (rev (path_pairs path)).
Proof.
  induction path as [|x path IH]; [reflexivity|].
  destruct path as [|y path]; [reflexivity|].
  change (rev (x :: y :: path)) with ((rev path ++ [y]) ++ [x]).
  rewrite <- app_assoc. simpl app at 2.
  rewrite path_pairs_snoc.
  change (rev path ++ [y]) with (rev (y :: path)).
  rewrite IH.
  change (path_pairs (x :: y :: path)) with ((x, y) :: path_pairs (y :: path)).
  simpl rev at 2. rewrite map_app. reflexivity.
Qed.

Lemma successor_pairs_rev (ring : list point) :
  Permutation (successor_pairs (rev ring)) (map flip (successor_pairs ring)).
Proof.
  destruct ring as [|x l]; [apply Permutation_refl|].
  simpl rev.
  eapply Permutation_trans; [apply successor_pairs_rotate1|].
  rewrite !successor_pairs_path.
  replace (x :: rev l ++ [x]) with (rev (x :: l ++ [x]))
    by (simpl; rewrite rev_app_distr; reflexivity).
  rewrite path_pairs_rev.
  apply Permutation_map, Permutation_sym, Permutation_rev.
Qed.

(** ** Area *)

Lemma Rsum_Permutation (l l' : list R) :
  Permutation l l' -> Rsum l = Rsum l'.
Proof.
  induction 1; simpl; lra.
Qed.

Lemma Rsum_map_opp {A : Type} (f : A -> R) (l : list A) :
  Rsum (map (fun x => - f x) l) = - Rsum (map f l).
Proof.
  induction l as [|x l IH]; simpl; [lra | rewrite IH; lra].
Qed.

Lemma map_at_index (points : list point) :
  map (at_index points) (seq 0 (length points)) = points.
Proof.
  apply nth_ext with (d := (0, 0)) (d' := (0, 0)).
  - rewrite length_map, length_seq. reflexivity.
  - intros i Hi. rewrite length_map, length_seq in Hi.
    rewrite nth_map_seq by exact Hi. reflexivity.
Qed.

Lemma shoelace_loop (points : list point) :
  fold_left (MapScript.shoelace_step points (length points))
    (seq 0 (length points)) 0
  = shoelace_sum points.
Proof.
  unfold shoelace_sum. rewrite <- index_pairs, map_map.
  unfold MapScript.shoelace_step.
  set (term := fun i : nat => _ - _).
  transitivity (fold_left (fun acc i => acc + term i) (seq 0 (length points)) 0).
  - apply fold_left_pointwise. intros acc i. subst term. simpl. lra.
  - rewrite fold_left_Rplus. lra.
Qed.

Lemma latitude_loop (points : list point) :
  fold_left (fun sum point => sum + lat point) points 0 = Rsum (map lat points).
Proof.
  rewrite fold_left_Rplus. lra.
Qed.

Lemma latitude_index_loop (points : list point) :
  fold_left (fun latSum i => latSum + lat (at_index points i))
    (seq 0 (length points)) 0
  = Rsum (map lat points).
Proof.
  rewrite fold_left_Rplus.
  replace (map lat points)
    with (map lat (map (at_index points) (seq 0 (length points))))
    by (rewrite map_at_index; reflexivity).
  rewrite map_map. lra.
Qed.

Lemma MapScript_area_formula (points : list point) :
  MapScript.calculatePolygonArea points = area_formula points.
Proof.
  unfold MapScript.calculatePolygonArea, area_formula.
  destruct (length points <? 3)%nat; [reflexivity|].
  cbv zeta. rewrite shoelace_loop, latitude_loop.
  unfold mean_latitude. field.
Qed.

Lemma Part000_computeArea_formula (points : list point) :
  (3 <= length points)%nat ->
  Part000.computeArea points = area_formula points.
Proof.
  intros Hn. unfold Part000.computeArea, area_formula, Part000.shoelace_step.
  destruct (Nat.ltb_spec (length points) 3) as [H|_]; [lia|].
  cbv zeta. rewrite shoelace_loop, latitude_index_loop.
  unfold mean_latitude. replace 0.5 with (/ 2) by lra. field.
Qed.

(** On a cache miss, and below three vertices, the cached function of
    part_000 returns what the function of map-script.js returns. *)
Lemma Part000_area_miss (cache : Map R) (points : list point) :
  Map_get cache (cacheKey points) = None \/ (length points < 3)%nat ->
  fst (Part000.calculatePolygonArea cache points) = area_formula points.
Proof.
  intros H. unfold Part000.calculatePolygonArea.
  destruct (Nat.ltb_spec (length points) 3) as [Hlt|Hge].
  - unfold area_formula. apply Nat.ltb_lt in Hlt. rewrite Hlt. reflexivity.
  - destruct H as [H|H]; [|lia]. rewrite H. simpl.
    apply Part000_computeArea_formula, Hge.
Qed.

Lemma Part000_area_hit (cache : Map R) (points : list point) (cached : R) :
  (3 <= length points)%nat ->
  Map_get cache (cacheKey points) = Some cached ->
  Part000.calculatePolygonArea cache points = (cached, cache).
Proof.
  intros Hn H. unfold Part000.calculatePolygonArea.
  destruct (Nat.ltb_spec (length points) 3) as [Hlt|_]; [lia|].
  rewrite H. reflexivity.
Qed.

(** A rectangle of one degree by two across the equator: 2 * 111.32^2 km2. *)
Example area_band : MapScript.calculatePolygonArea band = 24784.2848.
Proof.
  unfold MapScript.calculatePolygonArea, band. simpl.
  unfold MapScript.shoelace_step, at_index, lat, lng. simpl.
  replace ((0 + -1 + -1 + 1 + 1) / (1 + 1 + 1 + 1) * PI / 180) with 0 by lra.
  rewrite cos_0.
  replace (0 + 0 * -1 - 1 * -1 + 1 * 1 - 1 * -1 + 1 * 1 - 0 * 1 + 0 * -1 - 0 * 1)
    with 4 by lra.
  rewrite Rabs_pos_eq by lra. lra.
Qed.

Lemma shoelace_sum_rev (ring : list point) :
  shoelace_sum (rev ring) = - shoelace_sum ring.
Proof.
  unfold shoelace_sum.
  rewrite (Rsum_Permutation _ _
             (Permutation_map _ (successor_pairs_rev ring))).
  rewrite map_map, <- Rsum_map_opp. f_equal.
  apply map_ext. intros [p q]. unfold flip. simpl. lra.
Qed.

Lemma mean_latitude_rev (ring : list point) :
  mean_latitude (rev ring) = mean_latitude ring.
Proof.
  unfold mean_latitude. rewrite map_rev, Rsum_rev, length_rev. reflexivity.
Qed.

Lemma area_formula_rev (ring : list point) :
  area_formula (rev ring) = area_formula ring.
Proof.
  unfold area_formula.
  rewrite length_rev, shoelace_sum_rev, mean_latitude_rev, Rabs_Ropp.
  reflexivity.
Qed.

Lemma latitude_sum_bounds (ring : list point) :
  Forall Vertex ring ->
  - 90 * INR (length ring) <= Rsum (map lat ring) <= 90 * INR (length ring).
Proof.
  induction 1 as [|p ring [Hp _] _ IH].
  - simpl. lra.
  - change (length (p :: ring)) with (S (length ring)). rewrite S_INR.
    simpl Rsum. lra.
Qed.

Lemma area_formula_nonneg (ring : list point) :
  Forall Vertex ring -> 0 <= area_formula ring.
Proof.
  intros HV. unfold area_formula.
  destruct (Nat.ltb_spec (length ring) 3) as [|Hn]; [lra|].
  assert (Hpos : 0 < INR (length ring)) by (apply lt_0_INR; lia).
  assert (Hcos : 0 <= cos (mean_latitude ring * PI / 180)).
  { pose proof (latitude_sum_bounds ring HV) as [Hlo Hhi].
    pose proof PI_RGT_0 as Hpi.
    assert (Hm : -90 <= mean_latitude ring <= 90).
    { unfold mean_latitude. split.
      - apply Rmult_le_reg_r with (INR (length ring)); [exact Hpos|].
        unfold Rdiv. rewrite Rmult_assoc, Rinv_l by lra. lra.
      - apply Rmult_le_reg_r with (INR (length ring)); [exact Hpos|].
        unfold Rdiv. rewrite Rmult_assoc, Rinv_l by lra. lra. }
    apply cos_ge_0; nra. }
  pose proof (Rabs_pos (shoelace_sum ring)) as Habs.
  apply Rmult_le_pos; [lra|].
  assert (0 <= 111320 * 111320 * cos (mean_latitude ring * PI / 180)) by nra.
  lra.
Qed.

Lemma band_Ring : Ring band.
Proof.
  split; [simpl; lia|].
  unfold band. repeat constructor; unfold lat, lng; simpl; lra.
Defined.

(** ** Perimeter *)

Lemma nadd_comm (x y : number) : nadd x y = nadd y x.
Proof.
  destruct x, y; simpl; try reflexivity. f_equal. lra.
Qed.

Lemma nadd_assoc (x y z : number) : nadd x (nadd y z) = nadd (nadd x y) z.
Proof.
  destruct x, y, z; simpl; try reflexivity. f_equal. lra.
Qed.

Lemma nadd_0_l (x : number) : nadd (Finite 0) x = x.
Proof.
  destruct x; simpl; try reflexivity. f_equal. lra.
Qed.

Lemma fold_left_nadd {A : Type} (f : A -> number) (l : list A) (a0 : number) :
  fold_left (fun acc x => nadd acc (f x)) l a0 = nadd a0 (nsum (map f l)).
Proof.
  revert a0; induction l as [|x l IH]; intros a0; simpl.
  - rewrite nadd_comm, nadd_0_l. reflexivity.
  - rewrite IH, nadd_assoc. reflexivity.
Qed.

Lemma nsum_Permutation (l l' : list number) :
  Permutation l l' -> nsum l = nsum l'.
Proof.
  induction 1; simpl.
  - reflexivity.
  - rewrite IHPermutation. reflexivity.
  - rewrite !nadd_assoc, (nadd_comm y x). reflexivity.
  - congruence.
Qed.

(** The loop of map-script.js adds the Haversine distances of the successor
    pairs. *)
Lemma MapScript_perimeter_sum (points : list point) :
  MapScript.calculatePolygonPerimeter points
  = nscale (/ 1000)
      (nsum (map (fun e => MapScript.edge_distance (fst e) (snd e))
               (successor_pairs points))).
Proof.
  unfold MapScript.calculatePolygonPerimeter, MapScript.perimeter_step.
  cbv zeta. rewrite <- index_pairs, map_map. simpl.
  rewrite (fold_left_nadd
             (fun i => MapScript.edge_distance (at_index points i)
                         (at_index points ((i + 1) mod length points)))).
  rewrite nadd_0_l. reflexivity.
Qed.

Lemma MapScript_haversine_a_sym (p q : point) :
  MapScript.haversine_a p q = MapScript.haversine_a q p.
Proof.
  unfold MapScript.haversine_a. cbv zeta.
  replace ((lat p * PI / 180 - lat q * PI / 180) / 2)
    with (- ((lat q * PI / 180 - lat p * PI / 180) / 2)) by lra.
  replace ((lng p - lng q) * PI / 180 / 2)
    with (- ((lng q - lng p) * PI / 180 / 2)) by lra.
  rewrite !sin_neg. ring.
Qed.

Lemma MapScript_edge_distance_sym (p q : point) :
  MapScript.edge_distance p q = MapScript.edge_distance q p.
Proof.
  unfold MapScript.edge_distance. rewrite MapScript_haversine_a_sym.
  reflexivity.
Qed.

(** The perimeter of map-script.js does not depend on the starting vertex
    nor on the orientation. *)
Lemma MapScript_perimeter_rotate (k : nat) (ring : list point) :
  MapScript.calculatePolygonPerimeter (rotate k ring)
  = MapScript.calculatePolygonPerimeter ring.
Proof.
  rewrite !MapScript_perimeter_sum. f_equal.
  apply nsum_Permutation, Permutation_map, successor_pairs_rotate.
Qed.

Lemma MapScript_perimeter_rev (ring : list point) :
  MapScript.calculatePolygonPerimeter (rev ring)
  = MapScript.calculatePolygonPerimeter ring.
Proof.
  rewrite !MapScript_perimeter_sum. f_equal.
  rewrite (nsum_Permutation _ _
             (Permutation_map _ (successor_pairs_rev ring))).
  rewrite map_map. f_equal. apply map_ext. intros [p q].
  unfold flip. simpl. apply MapScript_edge_distance_sym.
Qed.

Lemma cos_latitude_nonneg (p : point) :
  Vertex p -> 0 <= cos (lat p * PI / 180).
Proof.
  intros [[Hlo Hhi] _]. pose proof PI_RGT_0. apply cos_ge_0; nra.
Qed.

(** On vertices of the data model the Haversine term lies in [0, 1], so
    neither square root is NaN. *)
Lemma MapScript_haversine_a_range (p q : point) :
  Vertex p -> Vertex q -> 0 <= MapScript.haversine_a p q <= 1.
Proof.
  intros Hp Hq.
  pose proof (cos_latitude_nonneg p Hp) as Hc1.
  pose proof (cos_latitude_nonneg q Hq) as Hc2.
  unfold MapScript.haversine_a. cbv zeta.
  set (phi1 := lat p * PI / 180) in *. set (phi2 := lat q * PI / 180) in *.
  set (s2 := sin ((lng q - lng p) * PI / 180 / 2)).
  set (s1 := sin ((phi2 - phi1) / 2)).
  assert (Hs2 : 0 <= s2 * s2 <= 1).
  { pose proof (SIN_bound ((lng q - lng p) * PI / 180 / 2)) as [Ha Hb].
    change (sin ((lng q - lng p) * PI / 180 / 2)) with s2 in Ha, Hb. nra. }
  assert (Hs1 : s1 * s1 = (1 - cos (phi2 - phi1)) / 2).
  { pose proof (cos_2a_sin ((phi2 - phi1) / 2)) as H.
    replace (2 * ((phi2 - phi1) / 2)) with (phi2 - phi1) in H by lra.
    change (sin ((phi2 - phi1) / 2)) with s1 in H. lra. }
  pose proof (cos_minus phi2 phi1) as Hm.
  pose proof (cos_plus phi2 phi1) as Hpl.
  pose proof (COS_bound (phi2 + phi1)) as [Hb1 Hb2].
  pose proof (COS_bound (phi2 - phi1)) as [Hb3 Hb4].
  assert (Hcc : 0 <= cos phi1 * cos phi2) by (apply Rmult_le_pos; assumption).
  split.
  - assert (0 <= s1 * s1) by nra. nra.
  - assert (cos phi1 * cos phi2 * s2 * s2 <= cos phi1 * cos phi2) by nra.
    nra.
Qed.

Lemma central_angle_finite (a : R) :
  0 <= a <= 1 -> exists c, central_angle a = Finite c.
Proof.
  intros [H0 H1]. unfold central_angle, Math_sqrt.
  destruct (Rle_dec 0 a); [|lra]. destruct (Rle_dec 0 (1 - a)); [|lra].
  eexists. reflexivity.
Qed.

Lemma nsum_finite (l : list number) :
  Forall (fun x => exists r, x = Finite r) l -> exists r, nsum l = Finite r.
Proof.
  induction 1 as [|x l [r ->] _ [s IH]]; simpl.
  - eexists. reflexivity.
  - rewrite IH. eexists. reflexivity.
Qed.

Lemma successor_pairs_In (ring : list point) (e : point * point) :
  In e (successor_pairs ring) -> In (fst e) ring /\ In (snd e) ring.
Proof.
  unfold successor_pairs. destruct e as [p q]. intros H.
  split.
  - eapply in_combine_l, H.
  - apply in_combine_r in H. apply in_app_or in H.
    destruct H as [H|H].
    + destruct ring; [destruct H | right; exact H].
    + destruct ring as [|x l]; [destruct H|]. simpl in H.
      destruct H as [<-|[]]. left. reflexivity.
Qed.

Lemma MapScript_perimeter_finite (ring : list point) :
  Forall Vertex ring ->
  exists km, MapScript.calculatePolygonPerimeter ring = Finite km.
Proof.
  intros HV. rewrite MapScript_perimeter_sum.
  destruct (nsum_finite
              (map (fun e => MapScript.edge_distance (fst e) (snd e))
                 (successor_pairs ring))) as [r Hr].
  - rewrite Forall_map, Forall_forall. intros e He.
    destruct (successor_pairs_In ring e He) as [H1 H2].
    rewrite Forall_forall in HV.
    destruct (central_angle_finite (MapScript.haversine_a (fst e) (snd e)))
      as [c Hc].
    + apply MapScript_haversine_a_range; apply HV; assumption.
    + unfold MapScript.edge_distance. rewrite Hc. eexists. reflexivity.
  - rewrite Hr. eexists. reflexivity.
Qed.

(** The loop body of part_000 is the Haversine term of map-script.js when
    [cosLat1] is the cosine of the latitude of the edge's own start vertex;
    the code passes the cosine of the latitude of [points[0]] instead. *)
Lemma Part000_haversine_a_own_vertex (p q : point) :
  Part000.haversine_a (cos (lat p * PI / 180)) p q = MapScript.haversine_a p q.
Proof.
  unfold Part000.haversine_a, MapScript.haversine_a. cbv zeta.
  replace ((lat q * PI / 180 - lat p * PI / 180) * 0.5)
    with ((lat q * PI / 180 - lat p * PI / 180) / 2) by lra.
  replace ((lng q - lng p) * PI / 180 * 0.5)
    with ((lng q - lng p) * PI / 180 / 2) by lra.
  reflexivity.
Qed.

(** *** The perimeter of part_000 at a concrete ring *)

Lemma central_angle_0 : central_angle 0 = Finite 0.
Proof.
  unfold central_angle, Math_sqrt.
  replace (1 - 0) with 1 by lra.
  destruct (Rle_dec 0 0); [|lra]. destruct (Rle_dec 0 1); [|lra].
  rewrite sqrt_0, sqrt_1. unfold Math_atan2.
  destruct (Rlt_dec 0 1); [|lra].
  replace (0 / 1) with 0 by lra. rewrite atan_0. f_equal. lra.
Qed.

Lemma central_angle_1 : central_angle 1 = Finite PI.
Proof.
  unfold central_angle, Math_sqrt.
  replace (1 - 1) with 0 by lra.
  destruct (Rle_dec 0 1); [|lra]. destruct (Rle_dec 0 0); [|lra].
  rewrite sqrt_0, sqrt_1. unfold Math_atan2.
  destruct (Rlt_dec 0 0); [lra|].
  destruct (Rlt_dec 0 1); [|lra]. f_equal. lra.
Qed.

Lemma central_angle_half : central_angle (1 / 2) = Finite (PI / 2).
Proof.
  unfold central_angle, Math_sqrt.
  replace (1 - 1 / 2) with (1 / 2) by lra.
  destruct (Rle_dec 0 (1 / 2)); [|lra].
  assert (Hs : 0 < sqrt (1 / 2)) by (apply sqrt_lt_R0; lra).
  unfold Math_atan2. destruct (Rlt_dec 0 (sqrt (1 / 2))); [|lra].
  replace (sqrt (1 / 2) / sqrt (1 / 2)) with 1 by (field; lra).
  rewrite atan_1. f_equal. lra.
Qed.

(** Above 1 the square root of [1 - a] is NaN. *)
Lemma central_angle_above_1 (a : R) : 1 < a -> central_angle a = NaN.
Proof.
  intros Ha. unfold central_angle, Math_sqrt.
  destruct (Rle_dec 0 a); [|lra]. destruct (Rle_dec 0 (1 - a)); [lra|].
  reflexivity.
Qed.

Lemma sin_PI4_sqr : sin (PI / 4) * sin (PI / 4) = 1 / 2.
Proof.
  rewrite sin_PI4.
  assert (H : sqrt 2 * sqrt 2 = 2) by (apply sqrt_sqrt; lra).
  assert (H0 : sqrt 2 <> 0) by (intros E; rewrite E in H; lra).
  replace (1 / sqrt 2 * (1 / sqrt 2)) with (1 / (sqrt 2 * sqrt 2))
    by (field; exact H0).
  rewrite H. reflexivity.
Qed.

Ltac angle t u := try replace t with u by lra.

(** The angles of the vertices of [octant], in radians. *)
Ltac known_angles :=
  angle ((0 * PI / 180 - 90 * PI / 180) * 0.5) (- (PI / 4));
  angle ((90 * PI / 180 - 0 * PI / 180) * 0.5) (PI / 4);
  angle ((0 * PI / 180 - 0 * PI / 180) * 0.5) 0;
  angle ((0 - 0) * PI / 180 * 0.5) 0;
  angle ((180 - 0) * PI / 180 * 0.5) (PI / 2);
  angle ((0 - 180) * PI / 180 * 0.5) (- (PI / 2));
  angle ((0 * PI / 180 - 90 * PI / 180) / 2) (- (PI / 4));
  angle ((90 * PI / 180 - 0 * PI / 180) / 2) (PI / 4);
  angle ((0 * PI / 180 - 0 * PI / 180) / 2) 0;
  angle ((0 - 0) * PI / 180 / 2) 0;
  angle ((180 - 0) * PI / 180 / 2) (PI / 2);
  angle ((0 - 180) * PI / 180 / 2) (- (PI / 2));
  angle (90 * PI / 180) (PI / 2);
  angle (0 * PI / 180) 0;
  rewrite ?sin_neg, ?sin_PI2, ?sin_0, ?cos_0, ?cos_PI2.

Ltac eval_angles :=
  pose proof sin_PI4_sqr;
  repeat match goal with
  | |- context [central_angle ?a] =>
      first [ rewrite central_angle_0 | rewrite central_angle_half
            | rewrite central_angle_1
            | replace a with 0 by nra
            | replace a with (1 / 2) by nra
            | replace a with 1 by nra
            | rewrite (central_angle_above_1 a) by nra ]
  end.

Ltac unroll_perimeter :=
  unfold Part000.computePerimeter, MapScript.calculatePolygonPerimeter;
  cbn [length seq fold_left];
  unfold Part000.perimeter_step, MapScript.perimeter_step,
    MapScript.edge_distance;
  cbn [Nat.add Nat.modulo Nat.divmod fst snd Nat.sub];
  unfold at_index; cbn [nth];
  unfold Part000.haversine_a, MapScript.haversine_a; cbn [lat lng fst snd].

Lemma computePerimeter_octant :
  Part000.computePerimeter octant = Finite (6371 * PI).
Proof.
  unfold octant. unroll_perimeter. known_angles. eval_angles.
  cbn [nscale nadd]. f_equal. lra.
Qed.

Lemma computePerimeter_octant_rotated :
  Part000.computePerimeter (rotate 1 octant) = Finite (12742 * PI).
Proof.
  unfold octant, rotate. cbn [skipn firstn app].
  unroll_perimeter. known_angles. eval_angles.
  cbn [nscale nadd]. f_equal. lra.
Qed.

Lemma computePerimeter_octant_reversed :
  Part000.computePerimeter (rev octant) = NaN.
Proof.
  unfold octant. cbn [rev app].
  unroll_perimeter. known_angles. eval_angles.
  reflexivity.
Qed.

Lemma MapScript_perimeter_octant :
  MapScript.calculatePolygonPerimeter octant = Finite (12742 * PI).
Proof.
  unfold octant. unroll_perimeter. known_angles. eval_angles.
  cbn [nscale nadd]. f_equal. lra.
Qed.

Lemma octant_Ring : Ring octant.
Proof.
  split; [simpl; lia|].
  unfold octant. repeat constructor; unfold lat, lng; simpl; lra.
Qed.

(** C3 (on the code).  The cached perimeter of part_000 and part_001 takes
    the cosine of the first vertex's latitude for every edge, so it depends
    on the vertex the list starts with and on the orientation: on the ring
    [octant], each time from an empty cache, it returns 6371 * PI km, on the
    ring rotated by one place 12742 * PI km, and on the reversed list NaN.
    The function of map-script.js returns 12742 * PI km on all three. *)
Theorem perimeter_depends_on_first_vertex :
  Ring octant /\
  fst (Part000.calculatePolygonPerimeter [] octant) = Finite (6371 * PI) /\
  fst (Part000.calculatePolygonPerimeter [] (rotate 1 octant)) = Finite (12742 * PI) /\
  fst (Part000.calculatePolygonPerimeter [] (rev octant)) = NaN /\
  fst (Part001.calculatePolygonPerimeter [] octant) = Finite (6371 * PI) /\
  fst (Part001.calculatePolygonPerimeter [] (rotate 1 octant)) = Finite (12742 * PI) /\
  MapScript.calculatePolygonPerimeter octant = Finite (12742 * PI) /\
  MapScript.calculatePolygonPerimeter (rotate 1 octant) = Finite (12742 * PI) /\
  MapScript.calculatePolygonPerimeter (rev octant) = Finite (12742 * PI).
Proof.
  split; [exact octant_Ring|].
  unfold Part000.calculatePolygonPerimeter, Part001.calculatePolygonPerimeter.
  cbn [length rev app rotate skipn firstn octant Nat.ltb Nat.leb Map_get fst].
  fold octant. change [(0, 0); (0, 180); (90, 0)] with (rotate 1 octant).
  change [(0, 180); (0, 0); (90, 0)] with (rev octant).
  rewrite computePerimeter_octant, computePerimeter_octant_rotated,
    computePerimeter_octant_reversed.
  rewrite MapScript_perimeter_rotate, MapScript_perimeter_rev,
    MapScript_perimeter_octant.
  repeat split; reflexivity.
Qed.

(** ** The measurement caches *)

Section MapFacts.
Context {V : Type}.
Implicit Types (m cache : Map V) (key : string) (value : V).

Lemma Map_get_None_keys m key :
  Map_get m key = None <-> ~ In key (Map_keys m).
Proof.
  induction m as [|[k v] m IH]; simpl.
  - tauto.
  - destruct (String.eqb_spec k key) as [E|E].
    + split; [discriminate | intros H; exfalso; apply H; left; exact E].
    + rewrite IH. tauto.
Qed.

Lemma Map_set_fresh m key value :
  Map_get m key = None -> Map_set m key value = m ++ [(key, value)].
Proof.
  induction m as [|[k v] m IH]; simpl; [reflexivity|].
  destruct (String.eqb k key); [discriminate|].
  intros H. rewrite IH by exact H. reflexivity.
Qed.

Lemma Map_set_size m key value :
  (Map_size (Map_set m key value) <= S (Map_size m))%nat.
Proof.
  unfold Map_size. induction m as [|[k v] m IH]; simpl; [lia|].
  destruct (String.eqb k key); simpl; lia.
Qed.

Lemma Map_get_set_same m key value :
  Map_get (Map_set m key value) key = Some value.
Proof.
  induction m as [|[k v] m IH]; simpl.
  - rewrite String.eqb_refl. reflexivity.
  - destruct (String.eqb k key) eqn:E; simpl; rewrite E; [reflexivity | exact IH].
Qed.

(** Deleting the first [j] keys, oldest first, leaves the entries after
    the first [j]. *)
Lemma Map_delete_firstn m (j : nat) :
  fold_left Map_delete (firstn j (Map_keys m)) m = skipn j m.
Proof.
  revert m; induction j as [|j IH]; intros m; [reflexivity|].
  destruct m as [|[k v] m]; [reflexivity|].
  simpl. rewrite String.eqb_refl. apply IH.
Qed.

Lemma Map_get_skipn_None m key (j : nat) :
  Map_get m key = None -> Map_get (skipn j m) key = None.
Proof.
  revert m; induction j as [|j IH]; intros m; [trivial|].
  destruct m as [|[k v] m]; [trivial|].
  simpl. destruct (String.eqb k key); [discriminate | apply IH].
Qed.

Lemma Part000_store_below cache key value :
  (Map_size cache < 50)%nat -> Map_get cache key = None ->
  Part000.store cache key value = cache ++ [(key, value)].
Proof.
  intros Hsize Hmiss. unfold Part000.store.
  destruct (Nat.ltb_spec (Map_size cache) 50); [|lia].
  apply Map_set_fresh, Hmiss.
Qed.

Lemma Part000_store_evicts cache key value :
  (50 <= Map_size cache)%nat -> Map_get cache key = None ->
  Part000.store cache key value = skipn 25 cache ++ [(key, value)].
Proof.
  intros Hsize Hmiss. unfold Part000.store.
  destruct (Nat.ltb_spec (Map_size cache) 50); [lia|].
  cbv zeta. rewrite Map_delete_firstn.
  apply Map_set_fresh, Map_get_skipn_None, Hmiss.
Qed.

Lemma Part000_store_size cache key value :
  (Map_size cache <= 50)%nat ->
  (Map_size (Part000.store cache key value) <= 50)%nat.
Proof.
  intros Hsize. unfold Part000.store.
  destruct (Nat.ltb_spec (Map_size cache) 50).
  - pose proof (Map_set_size cache key value). lia.
  - cbv zeta. rewrite Map_delete_firstn.
    pose proof (Map_set_size (skipn 25 cache) key value) as H1.
    unfold Map_size in *. rewrite length_skipn in H1. lia.
Qed.

Lemma Part000_store_get cache key value :
  Map_get (Part000.store cache key value) key = Some value.
Proof.
  unfold Part000.store.
  destruct (Map_size cache <? 50)%nat; apply Map_get_set_same.
Qed.

Lemma Part001_store_full cache key value :
  (100 <= Map_size cache)%nat -> Part001.store cache key value = cache.
Proof.
  intros Hsize. unfold Part001.store.
  destruct (Nat.ltb_spec (Map_size cache) 100); [lia | reflexivity].
Qed.

Lemma Part001_store_size cache key value :
  (Map_size cache <= 100)%nat ->
  (Map_size (Part001.store cache key value) <= 100)%nat.
Proof.
  intros Hsize. unfold Part001.store.
  destruct (Nat.ltb_spec (Map_size cache) 100); [|exact Hsize].
  pose proof (Map_set_size cache key value). lia.
Qed.
End MapFacts.

(** On a miss the functions update their cache by [store]. *)
Lemma Part000_area_store (cache : Map R) (points : list point) :
  (3 <= length points)%nat -> Map_get cache (cacheKey points) = None ->
  snd (Part000.calculatePolygonArea cache points)
  = Part000.store cache (cacheKey points) (Part000.computeArea points).
Proof.
  intros Hn Hmiss. unfold Part000.calculatePolygonArea.
  destruct (Nat.ltb_spec (length points) 3); [lia|]. rewrite Hmiss. reflexivity.
Qed.

Lemma Part000_perimeter_store (cache : Map number) (points : list point) :
  (2 <= length points)%nat -> Map_get cache (cacheKey points) = None ->
  snd (Part000.calculatePolygonPerimeter cache points)
  = Part000.store cache (cacheKey points) (Part000.computePerimeter points).
Proof.
  intros Hn Hmiss. unfold Part000.calculatePolygonPerimeter.
  destruct (Nat.ltb_spec (length points) 2); [lia|]. rewrite Hmiss. reflexivity.
Qed.

Lemma Part001_area_store (cache : Map R) (points : list point) :
  (3 <= length points)%nat -> Map_get cache (cacheKey points) = None ->
  snd (Part001.calculatePolygonArea cache points)
  = Part001.store cache (cacheKey points) (Part000.computeArea points).
Proof.
  intros Hn Hmiss. unfold Part001.calculatePolygonArea.
  destruct (Nat.ltb_spec (length points) 3); [lia|]. rewrite Hmiss. reflexivity.
Qed.

Lemma Part001_perimeter_store (cache : Map number) (points : list point) :
  (2 <= length points)%nat -> Map_get cache (cacheKey points) = None ->
  snd (Part001.calculatePolygonPerimeter cache points)
  = Part001.store cache (cacheKey points) (Part000.computePerimeter points).
Proof.
  intros Hn Hmiss. unfold Part001.calculatePolygonPerimeter.
  destruct (Nat.ltb_spec (length points) 2); [lia|]. rewrite Hmiss. reflexivity.
Qed.

(** *** Signatures of rings with integer coordinates *)

Lemma Int_part_half (z : Z) : Int_part (IZR z + / 2) = z.
Proof.
  symmetry. apply Int_part_spec. lra.
Qed.

Lemma toFixed6_IZR (z : Z) :
  toFixed6 (IZR z) = decimal6 (z <? 0)%Z (Z.abs z * 1000000).
Proof.
  unfold toFixed6. cbv zeta.
  destruct (Z.ltb_spec z 0) as [Hz|Hz].
  - destruct (Rlt_dec (IZR z) 0) as [_|Hn]; [|exfalso; apply Hn, IZR_lt, Hz].
    rewrite <- opp_IZR, <- mult_IZR, Int_part_half.
    rewrite Z.abs_neq by lia. reflexivity.
  - destruct (Rlt_dec (IZR z) 0) as [Hn|_].
    + apply lt_IZR in Hn. lia.
    + rewrite <- mult_IZR, Int_part_half.
      rewrite Z.abs_eq by lia. reflexivity.
Qed.

Lemma cacheKey_of_Z (ring : list (Z * Z)) :
  cacheKey (of_Z ring) = signatureZ ring.
Proof.
  unfold cacheKey, signatureZ, of_Z. rewrite map_map. f_equal.
  apply map_ext. intros [x y]. simpl. rewrite !toFixed6_IZR. reflexivity.
Qed.

Example cacheKey_band :
  cacheKey band
  = "-1.000000,0.000000|-1.000000,1.000000|1.000000,1.000000|1.000000,0.000000"%string.
Proof.
  change band with (of_Z [(-1, 0); (-1, 1); (1, 1); (1, 0)]%Z).
  rewrite cacheKey_of_Z. reflexivity.
Qed.

Lemma Part000_area_size (cache : Map R) (points : list point) :
  (Map_size cache <= 50)%nat ->
  (Map_size (snd (Part000.calculatePolygonArea cache points)) <= 50)%nat.
Proof.
  intros Hsize. unfold Part000.calculatePolygonArea.
  destruct (length points <? 3)%nat; [exact Hsize|].
  destruct (Map_get cache (cacheKey points)); [exact Hsize|].
  apply Part000_store_size, Hsize.
Qed.

Lemma Part000_perimeter_size (cache : Map number) (points : list point) :
  (Map_size cache <= 50)%nat ->
  (Map_size (snd (Part000.calculatePolygonPerimeter cache points)) <= 50)%nat.
Proof.
  intros Hsize. unfold Part000.calculatePolygonPerimeter.
  destruct (length points <? 2)%nat; [exact Hsize|].
  destruct (Map_get cache (cacheKey points)); [exact Hsize|].
  apply Part000_store_size, Hsize.
Qed.

Lemma Part001_area_size (cache : Map R) (points : list point) :
  (Map_size cache <= 100)%nat ->
  (Map_size (snd (Part001.calculatePolygonArea cache points)) <= 100)%nat.
Proof.
  intros Hsize. unfold Part001.calculatePolygonArea.
  destruct (length points <? 3)%nat; [exact Hsize|].
  destruct (Map_get cache (cacheKey points)); [exact Hsize|].
  apply Part001_store_size, Hsize.
Qed.

Lemma Part001_perimeter_size (cache : Map number) (points : list point) :
  (Map_size cache <= 100)%nat ->
  (Map_size (snd (Part001.calculatePolygonPerimeter cache points)) <= 100)%nat.
Proof.
  intros Hsize. unfold Part001.calculatePolygonPerimeter.
  destruct (length points <? 2)%nat; [exact Hsize|].
  destruct (Map_get cache (cacheKey points)); [exact Hsize|].
  apply Part001_store_size, Hsize.
Qed.

(** C6 (amended).  An insertion is attempted when a ring of at least three
    vertices is measured whose signature is not cached.  In part_000
    (capacity 50), at capacity the 25 oldest entries are evicted and the new
    entry is appended; in part_001 (capacity 100), at capacity the cache is
    left as it is: nothing is evicted and the new entry is not inserted.
    On any call, a cache within its capacity stays within its capacity. *)
Theorem caches_at_capacity
    (areaCache : Map R) (perimeterCache : Map number) (points : list point) :
  ((3 <= length points)%nat ->
   Map_get areaCache (cacheKey points) = None ->
   Map_get perimeterCache (cacheKey points) = None ->
   (Map_size areaCache = 50%nat ->
      snd (Part000.calculatePolygonArea areaCache points)
      = skipn 25 areaCache ++ [(cacheKey points, Part000.computeArea points)]) /\
   (Map_size perimeterCache = 50%nat ->
      snd (Part000.calculatePolygonPerimeter perimeterCache points)
      = skipn 25 perimeterCache
        ++ [(cacheKey points, Part000.computePerimeter points)]) /\
   (Map_size areaCache = 100%nat ->
      snd (Part001.calculatePolygonArea areaCache points) = areaCache) /\
   (Map_size perimeterCache = 100%nat ->
      snd (Part001.calculatePolygonPerimeter perimeterCache points)
      = perimeterCache)) /\
  ((Map_size areaCache <= 50)%nat ->
     (Map_size (snd (Part000.calculatePolygonArea areaCache points)) <= 50)%nat) /\
  ((Map_size perimeterCache <= 50)%nat ->
     (Map_size (snd (Part000.calculatePolygonPerimeter perimeterCache points))
      <= 50)%nat) /\
  ((Map_size areaCache <= 100)%nat ->
     (Map_size (snd (Part001.calculatePolygonArea areaCache points)) <= 100)%nat) /\
  ((Map_size perimeterCache <= 100)%nat ->
     (Map_size (snd (Part001.calculatePolygonPerimeter perimeterCache points))
      <= 100)%nat).
Proof.
  split; [|split; [|split; [|split]]].
  - intros Hn Ha Hp.
    rewrite Part000_area_store, Part001_area_store by assumption.
    rewrite Part000_perimeter_store, Part001_perimeter_store
      by (assumption || lia).
    split; [|split; [|split]]; intros Hsize.
    + apply Part000_store_evicts; [lia | exact Ha].
    + apply Part000_store_evicts; [lia | exact Hp].
    + apply Part001_store_full. lia.
    + apply Part001_store_full. lia.
  - apply Part000_area_size.
  - apply Part000_perimeter_size.
  - apply Part001_area_size.
  - apply Part001_perimeter_size.
Qed.

Lemma caches_at_capacity_witness :
  (snd (Part000.calculatePolygonArea (sample_cache 0 50) band)
   = skipn 25 (sample_cache 0 50) ++ [(cacheKey band, Part000.computeArea band)]
   /\
   snd (Part001.calculatePolygonPerimeter (sample_cache NaN 100) band)
   = sample_cache NaN 100) /\
  (Map_size (snd (Part000.calculatePolygonArea (sample_cache 0%R 50) band))
   <= 50)%nat.
Proof.
  split; [split|].
  - destruct (proj1 (caches_at_capacity (sample_cache 0 50) (sample_cache NaN 50)
                       band)) as (H & _).
    + simpl. lia.
    + rewrite cacheKey_band. reflexivity.
    + rewrite cacheKey_band. reflexivity.
    + apply H. reflexivity.
  - destruct (proj1 (caches_at_capacity (sample_cache 0 100) (sample_cache NaN 100)
                       band)) as (_ & _ & _ & H).
    + simpl. lia.
    + rewrite cacheKey_band. reflexivity.
    + rewrite cacheKey_band. reflexivity.
    + apply H. reflexivity.
  - apply (proj1 (proj2 (caches_at_capacity (sample_cache 0 50)
                           (sample_cache NaN 50) band))).
    apply Nat.eq_le_incl. reflexivity.
Defined.

(** C6 as stated fails on part_001: at a cache of 100 entries the
    measurement of a ring that is not cached evicts nothing and does not
    insert the new entry. *)
Lemma part001_full_cache_drops_entry :
  Map_size (sample_cache 0 100) = 100%nat /\
  Map_get (sample_cache 0 100) (cacheKey band) = None /\
  snd (Part001.calculatePolygonArea (sample_cache 0 100) band)
  = sample_cache 0 100 /\
  Map_get (snd (Part001.calculatePolygonArea (sample_cache 0 100) band))
    (cacheKey band) = None /\
  snd (Part001.calculatePolygonArea (sample_cache 0 100) band)
  <> skipn 50 (sample_cache 0 100) ++ [(cacheKey band, Part000.computeArea band)].
Proof.
  assert (Hmiss : Map_get (sample_cache 0 100) (cacheKey band) = None)
    by (rewrite cacheKey_band; reflexivity).
  assert (Hsame : snd (Part001.calculatePolygonArea (sample_cache 0 100) band)
                  = sample_cache 0 100).
  { unfold Part001.calculatePolygonArea.
    change (length band <? 3)%nat with false. cbv iota zeta.
    rewrite Hmiss. reflexivity. }
  rewrite Hsame. repeat split.
  - exact Hmiss.
  - exact Hmiss.
  - intros E. apply (f_equal (@length _)) in E.
    rewrite length_app, length_skipn in E.
    change (length (sample_cache 0 100)) with 100%nat in E.
    simpl in E. discriminate.
Qed.

(** ** Bounding box and aspect ratio *)

Lemma bbox_fold (points : list point) (a b c d : R) :
  fold_left MapScript.bbox_step points (a, b, c, d)
  = (fold_left Rmin (map lat points) a, fold_left Rmax (map lat points) b,
     fold_left Rmin (map lng points) c, fold_left Rmax (map lng points) d).
Proof.
  revert a b c d; induction points as [|p points IH]; intros a b c d.
  - reflexivity.
  - simpl. apply IH.
Qed.

Lemma fold_Rmin_le (xs : list R) (a : R) :
  fold_left Rmin xs a <= a /\ Forall (fun x => fold_left Rmin xs a <= x) xs.
Proof.
  revert a; induction xs as [|x xs IH]; intros a; simpl.
  - split; [lra | constructor].
  - destruct (IH (Rmin a x)) as [H1 H2].
    pose proof (Rmin_l a x). pose proof (Rmin_r a x).
    split; [lra|]. constructor; [lra | exact H2].
Qed.

Lemma fold_Rmax_ge (xs : list R) (a : R) :
  a <= fold_left Rmax xs a /\ Forall (fun x => x <= fold_left Rmax xs a) xs.
Proof.
  revert a; induction xs as [|x xs IH]; intros a; simpl.
  - split; [lra | constructor].
  - destruct (IH (Rmax a x)) as [H1 H2].
    pose proof (Rmax_l a x). pose proof (Rmax_r a x).
    split; [lra|]. constructor; [lra | exact H2].
Qed.

Lemma fold_Rmin_In (xs : list R) (a : R) : In (fold_left Rmin xs a) (a :: xs).
Proof.
  revert a; induction xs as [|x xs IH]; intros a; simpl; [auto|].
  destruct (IH (Rmin a x)) as [H|H]; [|auto].
  rewrite <- H. unfold Rmin. destruct (Rle_dec a x); auto.
Qed.

Lemma fold_Rmax_In (xs : list R) (a : R) : In (fold_left Rmax xs a) (a :: xs).
Proof.
  revert a; induction xs as [|x xs IH]; intros a; simpl; [auto|].
  destruct (IH (Rmax a x)) as [H|H]; [|auto].
  rewrite <- H. unfold Rmax. destruct (Rle_dec a x); auto.
Qed.

(** The bounds of the box are coordinates of vertices of the list. *)
Lemma calculateBoundingBox_attained (points : list point)
    (bbox : MapScript.BoundingBox) :
  MapScript.calculateBoundingBox points = Some bbox ->
  In (MapScript.minLat bbox) (map lat points) /\
  In (MapScript.maxLat bbox) (map lat points) /\
  In (MapScript.minLng bbox) (map lng points) /\
  In (MapScript.maxLng bbox) (map lng points).
Proof.
  unfold MapScript.calculateBoundingBox.
  destruct points as [|p0 rest]; [discriminate|].
  rewrite bbox_fold. cbv beta iota. intros E. injection E as E. subst bbox.
  cbv beta iota delta
    [MapScript.minLat MapScript.maxLat MapScript.minLng MapScript.maxLng].
  set (points := p0 :: rest).
  pose proof (fold_Rmin_In (map lat points) (lat p0)) as H1.
  pose proof (fold_Rmax_In (map lat points) (lat p0)) as H2.
  pose proof (fold_Rmin_In (map lng points) (lng p0)) as H3.
  pose proof (fold_Rmax_In (map lng points) (lng p0)) as H4.
  assert (Hlat : In (lat p0) (map lat points)) by (left; reflexivity).
  assert (Hlng : In (lng p0) (map lng points)) by (left; reflexivity).
  split; [|split; [|split]].
  - change (In (fold_left Rmin (map lat points) (lat p0)) (map lat points)).
    destruct H1 as [H|H]; [rewrite <- H|]; assumption.
  - change (In (fold_left Rmax (map lat points) (lat p0)) (map lat points)).
    destruct H2 as [H|H]; [rewrite <- H|]; assumption.
  - change (In (fold_left Rmin (map lng points) (lng p0)) (map lng points)).
    destruct H3 as [H|H]; [rewrite <- H|]; assumption.
  - change (In (fold_left Rmax (map lng points) (lng p0)) (map lng points)).
    destruct H4 as [H|H]; [rewrite <- H|]; assumption.
Qed.

(** The box of a non-empty list encloses every vertex, and its width and
    height are the differences of its bounds. *)
Lemma calculateBoundingBox_encloses (points : list point) (bbox : MapScript.BoundingBox) :
  MapScript.calculateBoundingBox points = Some bbox ->
  Forall (fun p => MapScript.minLat bbox <= lat p <= MapScript.maxLat bbox /\
                   MapScript.minLng bbox <= lng p <= MapScript.maxLng bbox) points /\
  MapScript.width bbox = MapScript.maxLng bbox - MapScript.minLng bbox /\
  MapScript.height bbox = MapScript.maxLat bbox - MapScript.minLat bbox.
Proof.
  unfold MapScript.calculateBoundingBox.
  destruct points as [|p0 rest]; [discriminate|].
  rewrite bbox_fold. cbv beta iota. intros E. injection E as E. subst bbox.
  cbn [MapScript.minLat MapScript.maxLat MapScript.minLng MapScript.maxLng
       MapScript.width MapScript.height].
  split; [|split; reflexivity].
  set (points := p0 :: rest).
  destruct (fold_Rmin_le (map lat points) (lat p0)) as [_ H1].
  destruct (fold_Rmax_ge (map lat points) (lat p0)) as [_ H2].
  destruct (fold_Rmin_le (map lng points) (lng p0)) as [_ H3].
  destruct (fold_Rmax_ge (map lng points) (lng p0)) as [_ H4].
  rewrite Forall_map in H1, H2, H3, H4.
  rewrite Forall_forall in *. intros p Hp.
  specialize (H1 p Hp). specialize (H2 p Hp).
  specialize (H3 p Hp). specialize (H4 p Hp). simpl in *. lra.
Qed.

Lemma divide_nonzero (x y : R) : y <> 0 -> divide x y = Finite (x / y).
Proof.
  intros Hy. unfold divide. destruct (Req_dec_T y 0); [contradiction | reflexivity].
Qed.

Lemma divide_zero (x : R) :
  divide x 0 = NaN \/ divide x 0 = PosInfinity \/ divide x 0 = NegInfinity.
Proof.
  unfold divide. destruct (Req_dec_T 0 0); [|lra].
  destruct (Req_dec_T x 0); [auto|]. destruct (Rlt_dec 0 x); auto.
Qed.

(** C7 (amended).  The aspect ratio is 0 for the empty list (null box);
    for a box of non-zero height it is the width in metres, scaled by the
    cosine of the mean of the box's minimum and maximum latitude, divided
    by the height in metres; for a box of height 0 there is no guard and
    the division by zero yields NaN or an infinity, never 0. *)
Theorem aspect_ratio_cases (points : list point) :
  (MapScript.calculateBoundingBox points = None ->
     points = [] /\ MapScript.calculateAspectRatio points = Finite 0) /\
  (forall bbox, MapScript.calculateBoundingBox points = Some bbox ->
     (MapScript.height bbox <> 0 ->
        MapScript.calculateAspectRatio points
        = Finite ((MapScript.width bbox * 111320 *
                   cos ((MapScript.minLat bbox + MapScript.maxLat bbox) / 2 * PI / 180))
                  / (MapScript.height bbox * 111320))) /\
     (MapScript.height bbox = 0 ->
        MapScript.calculateAspectRatio points = NaN \/
        MapScript.calculateAspectRatio points = PosInfinity \/
        MapScript.calculateAspectRatio points = NegInfinity)).
Proof.
  unfold MapScript.calculateAspectRatio. split.
  - intros E. rewrite E. split; [|reflexivity].
    destruct points as [|p0 rest]; [reflexivity|].
    unfold MapScript.calculateBoundingBox in E. rewrite bbox_fold in E.
    discriminate.
  - intros bbox E. rewrite E. cbv zeta. split; intros H.
    + apply divide_nonzero. lra.
    + rewrite H. replace (0 * 111320) with 0 by lra. apply divide_zero.
Qed.

Ltac eval_min_max :=
  repeat match goal with
  | |- context [Rmin ?a ?b] =>
      (rewrite (Rmin_left a b) by lra) || (rewrite (Rmin_right a b) by lra)
  | |- context [Rmax ?a ?b] =>
      (rewrite (Rmax_left a b) by lra) || (rewrite (Rmax_right a b) by lra)
  end.

Lemma calculateBoundingBox_flat :
  MapScript.calculateBoundingBox flat
  = Some (MapScript.mkBoundingBox 0 0 0 2 (2 - 0) (0 - 0)).
Proof.
  unfold MapScript.calculateBoundingBox, flat. cbn [fold_left].
  unfold MapScript.bbox_step, lat, lng. cbn [fst snd].
  eval_min_max. reflexivity.
Qed.

Lemma calculateBoundingBox_dot :
  MapScript.calculateBoundingBox dot
  = Some (MapScript.mkBoundingBox 5 5 5 5 (5 - 5) (5 - 5)).
Proof.
  unfold MapScript.calculateBoundingBox, dot. cbn [fold_left].
  unfold MapScript.bbox_step, lat, lng. cbn [fst snd].
  eval_min_max. reflexivity.
Qed.

Lemma aspect_ratio_cases_witness :
  MapScript.calculateAspectRatio band = Finite (1 * 111320 * 1 / (2 * 111320)) /\
  (MapScript.calculateAspectRatio flat = NaN \/
   MapScript.calculateAspectRatio flat = PosInfinity \/
   MapScript.calculateAspectRatio flat = NegInfinity) /\
  MapScript.calculateAspectRatio [] = Finite 0.
Proof.
  assert (Hband : MapScript.calculateBoundingBox band
                  = Some (MapScript.mkBoundingBox (-1) 1 0 1 (1 - 0) (1 - -1))).
  { unfold MapScript.calculateBoundingBox, band. cbn [fold_left].
    unfold MapScript.bbox_step, lat, lng. cbn [fst snd].
    eval_min_max. reflexivity. }
  split; [|split].
  - destruct (proj2 (aspect_ratio_cases band) _ Hband) as [H _].
    rewrite H by (simpl; lra). simpl.
    replace ((-1 + 1) / 2 * PI / 180) with 0 by lra. rewrite cos_0.
    f_equal. lra.
  - destruct (proj2 (aspect_ratio_cases flat) _ calculateBoundingBox_flat) as [_ H].
    apply H. simpl. lra.
  - apply (proj1 (aspect_ratio_cases [])). reflexivity.
Defined.

(** C7 as stated fails: for three vertices on the equator the box has
    height 0 and the result is +Infinity; for three equal vertices it is
    NaN. *)
Lemma aspect_ratio_zero_height :
  (exists bbox, MapScript.calculateBoundingBox flat = Some bbox /\
                MapScript.height bbox = 0) /\
  MapScript.calculateAspectRatio flat = PosInfinity /\
  (exists bbox, MapScript.calculateBoundingBox dot = Some bbox /\
                MapScript.height bbox = 0) /\
  MapScript.calculateAspectRatio dot = NaN.
Proof.
  split; [|split; [|split]].
  - eexists. split; [apply calculateBoundingBox_flat | simpl; lra].
  - unfold MapScript.calculateAspectRatio. rewrite calculateBoundingBox_flat.
    cbn [MapScript.minLat MapScript.maxLat MapScript.width MapScript.height].
    replace ((0 + 0) / 2 * PI / 180) with 0 by lra. rewrite cos_0.
    unfold divide.
    destruct (Req_dec_T ((0 - 0) * 111320) 0); [|lra].
    destruct (Req_dec_T ((2 - 0) * 111320 * 1) 0); [lra|].
    destruct (Rlt_dec 0 ((2 - 0) * 111320 * 1)); [reflexivity | lra].
  - eexists. split; [apply calculateBoundingBox_dot | simpl; lra].
  - unfold MapScript.calculateAspectRatio. rewrite calculateBoundingBox_dot.
    cbn [MapScript.minLat MapScript.maxLat MapScript.width MapScript.height].
    unfold divide.
    destruct (Req_dec_T ((5 - 5) * 111320) 0); [|lra].
    destruct (Req_dec_T ((5 - 5) * 111320 * cos ((5 + 5) / 2 * PI / 180)) 0)
      as [|Hn]; [reflexivity|].
    exfalso. apply Hn. lra.
Qed.

(** ** The coordinate checker *)

Lemma leb_true (x y : R) : x <= y -> leb x y = true.
Proof. intros H. unfold leb. destruct (Rle_dec x y); [reflexivity | contradiction]. Qed.

Lemma leb_false (x y : R) : y < x -> leb x y = false.
Proof. intros H. unfold leb. destruct (Rle_dec x y); [lra | reflexivity]. Qed.

Lemma ltb_true (x y : R) : x < y -> ltb x y = true.
Proof. intros H. unfold ltb. destruct (Rlt_dec x y); [reflexivity | contradiction]. Qed.

Lemma ltb_false (x y : R) : y <= x -> ltb x y = false.
Proof. intros H. unfold ltb. destruct (Rlt_dec x y); [lra | reflexivity]. Qed.

Lemma leb_spec (x y : R) : leb x y = true <-> x <= y.
Proof. unfold leb. destruct (Rle_dec x y); split; auto; discriminate. Qed.

Lemma leb_spec_false (x y : R) : leb x y = false <-> y < x.
Proof. unfold leb. destruct (Rle_dec x y); split; intros; try discriminate; lra. Qed.

Lemma ltb_spec (x y : R) : ltb x y = true <-> x < y.
Proof. unfold ltb. destruct (Rlt_dec x y); split; auto; discriminate. Qed.

Lemma ltb_spec_false (x y : R) : ltb x y = false <-> y <= x.
Proof. unfold ltb. destruct (Rlt_dec x y); split; intros; try discriminate; lra. Qed.

Lemma plausible_spec (p : point) :
  plausible p = true <-> Rabs (fst p) <= 90 /\ Rabs (snd p) <= 180.
Proof.
  unfold plausible. rewrite andb_true_iff, !leb_spec. tauto.
Qed.

Lemma plausible_spec_false (p : point) :
  plausible p = false <-> 90 < Rabs (fst p) \/ 180 < Rabs (snd p).
Proof.
  unfold plausible. rewrite andb_false_iff, !leb_spec_false. tauto.
Qed.

(** Linear arithmetic with absolute values. *)
Ltac absolute :=
  unfold Rabs in *;
  repeat match goal with
  | |- context [Rcase_abs ?x] => destruct (Rcase_abs x)
  | H : context [Rcase_abs ?x] |- _ => destruct (Rcase_abs x)
  end;
  lra.

(** Decide the comparisons of the goal that hold by linear arithmetic. *)
Ltac compare :=
  repeat match goal with
  | |- context [leb ?a ?b] =>
      first [ rewrite (leb_true a b) by absolute
            | rewrite (leb_false a b) by absolute ]
  | |- context [ltb ?a ?b] =>
      first [ rewrite (ltb_true a b) by absolute
            | rewrite (ltb_false a b) by absolute ]
  end.

(** C10.  Called with [null], [undefined] or the empty list, the checker of
    part_000 and of part_001 returns its argument as it is and shows no
    notification; the functions have no other completion on these
    arguments. *)
Theorem checker_returns_missing_input_unchanged (mapCenter : point) :
  Part000.validateAndFixCoordinates mapCenter Null = (Null, []) /\
  Part000.validateAndFixCoordinates mapCenter Undefined = (Undefined, []) /\
  Part000.validateAndFixCoordinates mapCenter (Array []) = (Array [], []) /\
  Part001.validateAndFixCoordinates Null = (Null, []) /\
  Part001.validateAndFixCoordinates Undefined = (Undefined, []) /\
  Part001.validateAndFixCoordinates (Array []) = (Array [], []).
Proof.
  repeat split; reflexivity.
Qed.

(** *** The shared loop *)

Lemma first_plausible_Some (f : R -> point -> point) (params : list R)
    (coordinates out : list point) :
  first_plausible f params coordinates = Normal (Some out) ->
  exists param,
    In param params /\ out = map (f param) coordinates /\
    exists first rest, coordinates = first :: rest /\
                       plausible (f param first) = true.
Proof.
  induction params as [|param params IH]; simpl; [discriminate|].
  destruct coordinates as [|first rest]; [discriminate|]. simpl.
  destruct (plausible (f param first)) eqn:E.
  - intros H. injection H as <-. exists param. split; [left; reflexivity|].
    split; [reflexivity|]. exists first, rest. auto.
  - intros H. destruct (IH H) as (param' & Hin & Hout & Hfirst).
    exists param'. split; [right; exact Hin | auto].
Qed.

Lemma first_plausible_None (f : R -> point -> point) (params : list R)
    (first : point) (rest : list point) :
  first_plausible f params (first :: rest) = Normal None <->
  forall param, In param params -> plausible (f param first) = false.
Proof.
  induction params as [|param params IH]; simpl.
  - split; [intros _ ? [] | reflexivity].
  - destruct (plausible (f param first)) eqn:E.
    + split; [discriminate|]. intros H.
      rewrite (H param) in E by (left; reflexivity). discriminate.
    + rewrite IH. split.
      * intros H p [<-|Hp]; [exact E | apply H, Hp].
      * intros H p Hp. apply H. right. exact Hp.
Qed.

Lemma first_plausible_not_Throw (f : R -> point -> point) (params : list R)
    (first : point) (rest : list point) :
  first_plausible f params (first :: rest) <> Throw.
Proof.
  induction params as [|param params IH]; simpl; [discriminate|].
  destruct (plausible (f param first)); [discriminate | exact IH].
Qed.

Lemma first_plausible_cases (f : R -> point -> point) (params : list R)
    (first : point) (rest : list point) :
  first_plausible f params (first :: rest) = Normal None \/
  exists out, first_plausible f params (first :: rest) = Normal (Some out).
Proof.
  destruct (first_plausible f params (first :: rest)) as [[out|]|] eqn:E.
  - right. exists out. reflexivity.
  - left. reflexivity.
  - exfalso. exact (first_plausible_not_Throw _ _ _ _ E).
Qed.

(** The first parameter that makes the first vertex plausible decides. *)
Lemma first_plausible_head (f : R -> point -> point) (param : R)
    (params : list R) (first : point) (rest : list point) :
  plausible (f param first) = true ->
  first_plausible f (param :: params) (first :: rest)
  = Normal (Some (map (f param) (first :: rest))).
Proof.
  intros H. simpl. rewrite H. reflexivity.
Qed.

Lemma first_plausible_skip (f : R -> point -> point) (param : R)
    (params : list R) (first : point) (rest : list point) :
  plausible (f param first) = false ->
  first_plausible f (param :: params) (first :: rest)
  = first_plausible f params (first :: rest).
Proof.
  intros H. simpl. rewrite H. reflexivity.
Qed.

(** *** Scaling comes first and shadows the transforms after it *)

(** Scaling finds no plausible first vertex only beyond 9e8 or 1.8e9. *)
Lemma scaling_fails_far (first : point) (rest : list point) :
  Part000.tryScalingTransform (first :: rest) = Normal None ->
  900000000 < Rabs (fst first) \/ 1800000000 < Rabs (snd first).
Proof.
  unfold Part000.tryScalingTransform. cbv zeta.
  rewrite first_plausible_None. intros H.
  specialize (H 10000000 (or_introl eq_refl)).
  apply plausible_spec_false in H. unfold Part000.scale_by in H. simpl in H.
  destruct H as [H|H]; [left | right]; absolute.
Qed.

Lemma scaling_succeeds_near (first : point) (rest : list point) :
  Rabs (fst first) <= 900000000 -> Rabs (snd first) <= 1800000000 ->
  Part000.tryScalingTransform (first :: rest)
  = Normal (Some (map (Part000.scale_by 10000000) (first :: rest))).
Proof.
  intros Hx Hy. unfold Part000.tryScalingTransform. cbv zeta.
  apply first_plausible_head. apply plausible_spec.
  unfold Part000.scale_by. simpl. split; absolute.
Qed.

Lemma offset_fails_far (first : point) (rest : list point) :
  900000000 < Rabs (fst first) \/ 1800000000 < Rabs (snd first) ->
  Part000.tryOffsetTransform (first :: rest) = Normal None.
Proof.
  intros Hfar. unfold Part000.tryOffsetTransform. cbv zeta.
  apply first_plausible_None. intros offset Hin.
  apply plausible_spec_false. unfold Part000.offset_by. simpl.
  simpl in Hin.
  destruct Hin as [<-|[<-|[<-|[<-|[<-|[]]]]]];
    destruct Hfar as [Hfar|Hfar]; (left; absolute) || (right; absolute).
Qed.

Lemma mixed_fails_far (first : point) (rest : list point) :
  900000000 < Rabs (fst first) \/ 1800000000 < Rabs (snd first) ->
  Part000.tryMixedTransform (first :: rest) = Normal None.
Proof.
  intros Hfar. unfold Part000.tryMixedTransform. cbv zeta.
  apply first_plausible_None. intros scale Hin.
  apply plausible_spec_false.
  unfold Part000.scale_swap_by, Part000.scale_by, swap. simpl.
  simpl in Hin.
  destruct Hin as [<-|[<-|[<-|[<-|[]]]]];
    destruct Hfar as [Hfar|Hfar]; (left; absolute) || (right; absolute).
Qed.

Lemma trySwapTransform_cons (first : point) (rest : list point) :
  Part000.trySwapTransform (first :: rest)
  = if plausible (swap first)
    then Normal (Some (map swap (first :: rest))) else Normal None.
Proof. reflexivity. Qed.

(** Inside the checker, where the swap has already been ruled out,
    [trySimpleScaling] is [tryScalingTransform]: when scaling fails, the
    swap, the offsets and the mixed transform fail too. *)
Lemma trySimpleScaling_is_scaling (first : point) (rest : list point) :
  plausible (swap first) = false ->
  Part000.trySimpleScaling (first :: rest)
  = catch_null (Part000.tryScalingTransform (first :: rest)).
Proof.
  intros Hswap. unfold Part000.trySimpleScaling.
  cbn [Part000.run_transformations].
  destruct (first_plausible_cases Part000.scale_by
              [10000000; 1000000; 100000; 10000; 1000; 100; 10] first rest)
    as [E|[out E]];
    change (first_plausible Part000.scale_by
              [10000000; 1000000; 100000; 10000; 1000; 100; 10] (first :: rest))
      with (Part000.tryScalingTransform (first :: rest)) in E.
  - rewrite E. pose proof (scaling_fails_far first rest E) as Hfar.
    rewrite trySwapTransform_cons, Hswap.
    rewrite (offset_fails_far first rest Hfar), (mixed_fails_far first rest Hfar).
    reflexivity.
  - rewrite E. reflexivity.
Qed.

(** The checker on an implausible first vertex that the swap does not help
    and with [|x| > 1000] or [|y| > 1000]. *)
Lemma checker_projected (mapCenter first : point) (rest : list point) :
  plausible first = false ->
  plausible (swap first) = false ->
  1000 < Rabs (fst first) \/ 1000 < Rabs (snd first) ->
  Part000.validateAndFixCoordinates mapCenter (Array (first :: rest))
  = match Part000.trySimpleScaling (first :: rest) with
    | Some scaledCoords => (Array scaledCoords, [ConvertedSimpleScaling])
    | None =>
    match Part000.tryConvertUTMCoordinates (first :: rest) with
    | Some convertedCoords => (Array convertedCoords, [ConvertedUTM])
    | None =>
    match Part000.tryConvertMinnaDatum (first :: rest) with
    | Some minnaCoords => (Array minnaCoords, [ConvertedMinnaDatum])
    | None =>
    match Part000.tryGenericCoordinateTransform (first :: rest) with
    | Some genericCoords => (Array genericCoords, [ConvertedGeneric])
    | None => (Null, [ErrorNotWGS84; WarningCoordinateRanges])
    end end end end.
Proof.
  intros Hfirst Hswap Hlarge.
  unfold Part000.validateAndFixCoordinates. cbv zeta.
  change (leb (Rabs (fst first)) 90 && leb (Rabs (snd first)) 180)
    with (plausible first).
  change (leb (Rabs (snd first)) 90 && leb (Rabs (fst first)) 180)
    with (plausible (swap first)).
  rewrite Hfirst, Hswap.
  assert (Hl : ltb 1000 (Rabs (fst first)) || ltb 1000 (Rabs (snd first)) = true).
  { apply orb_true_iff. rewrite !ltb_spec. exact Hlarge. }
  rewrite Hl. reflexivity.
Qed.

(** *** What a transform returns when it does not return [null] *)

Lemma repaired_by_first (f : point -> point) (coordinates out : list point) :
  repaired_by f coordinates out ->
  length out = length coordinates /\
  exists first' rest', out = first' :: rest' /\ plausible first' = true.
Proof.
  intros [-> (first & rest & -> & H)]. split; [apply length_map|].
  exists (f first), (map f rest). auto.
Qed.

Lemma first_plausible_repaired (f : R -> point -> point) (params : list R)
    (coordinates out : list point) :
  first_plausible f params coordinates = Normal (Some out) ->
  exists param, In param params /\ repaired_by (f param) coordinates out.
Proof.
  intros H. destruct (first_plausible_Some _ _ _ _ H) as (param & Hin & Hout & Hf).
  exists param. split; [exact Hin | split; assumption].
Qed.

Lemma trySwapTransform_repaired (coordinates out : list point) :
  Part000.trySwapTransform coordinates = Normal (Some out) ->
  repaired_by swap coordinates out.
Proof.
  destruct coordinates as [|first rest]; [discriminate|].
  rewrite trySwapTransform_cons.
  destruct (plausible (swap first)) eqn:E; [|discriminate].
  intros H. injection H as <-. split; [reflexivity|].
  exists first, rest. auto.
Qed.

Lemma convertUTMToWGS84_repaired (coordinates out : list point) (zone : nat)
    (centralMeridian : R) :
  Part000.convertUTMToWGS84 coordinates zone centralMeridian = Some out ->
  repaired_by (Part000.utm_point centralMeridian) coordinates out.
Proof.
  unfold Part000.convertUTMToWGS84.
  destruct coordinates as [|first rest]; [discriminate|]. cbn [map].
  destruct (plausible (Part000.utm_point centralMeridian first)) eqn:E;
    [|discriminate].
  cbn [catch_null]. intros H. injection H as <-. split; [reflexivity|].
  exists first, rest. auto.
Qed.

Lemma try_zones_Some (zones : list (nat * R)) (coordinates out : list point) :
  Part000.try_zones zones coordinates = Some out ->
  exists zone centralMeridian,
    In (zone, centralMeridian) zones /\
    Part000.convertUTMToWGS84 coordinates zone centralMeridian = Some out.
Proof.
  induction zones as [|[zone cm] zones IH]; simpl; [discriminate|].
  destruct (Part000.convertUTMToWGS84 coordinates zone cm) as [converted|] eqn:E.
  - intros H. injection H as <-. exists zone, cm. auto.
  - intros H. destruct (IH H) as (zone' & cm' & Hin & Hc).
    exists zone', cm'. auto.
Qed.

Lemma tryConvertUTMCoordinates_repaired (coordinates out : list point) :
  Part000.tryConvertUTMCoordinates coordinates = Some out ->
  exists zone centralMeridian,
    In (zone, centralMeridian) Part000.utmZones /\
    repaired_by (Part000.utm_point centralMeridian) coordinates out.
Proof.
  unfold Part000.tryConvertUTMCoordinates.
  destruct coordinates as [|[x y] rest]; [discriminate|].
  destruct (ltb 100000 (Rabs x) && ltb 100000 (Rabs y)); [|discriminate].
  intros H. destruct (try_zones_Some _ _ _ H) as (zone & cm & Hin & Hc).
  exists zone, cm. split; [exact Hin|].
  eapply convertUTMToWGS84_repaired, Hc.
Qed.

Lemma tryConvertMinnaDatum_repaired (coordinates out : list point) :
  Part000.tryConvertMinnaDatum coordinates = Some out ->
  repaired_by Part000.minna_point coordinates out.
Proof.
  unfold Part000.tryConvertMinnaDatum.
  destruct coordinates as [|[x y] rest]; [discriminate|]. cbv zeta.
  destruct (leb 100000 x && leb x 900000 && leb 100000 y && leb y 1200000);
    [|discriminate].
  cbn [map].
  destruct (plausible (Part000.minna_point (x, y))) eqn:E; [|discriminate].
  intros H. injection H as <-. split; [reflexivity|].
  exists (x, y), rest. auto.
Qed.

Lemma tryGenericCoordinateTransform_repaired (coordinates out : list point) :
  Part000.tryGenericCoordinateTransform coordinates = Some out ->
  exists scale,
    In scale [1000000; 100000; 10000; 1000; 100] /\
    (repaired_by (Part000.scale_by scale) coordinates out \/
     repaired_by (Part000.swap_scale_by scale) coordinates out).
Proof.
  unfold Part000.tryGenericCoordinateTransform.
  destruct coordinates as [|[x y] rest]; [discriminate|]. cbv zeta.
  destruct (ltb 10000 (Rabs x) || ltb 10000 (Rabs y)); [|discriminate].
  match goal with
  | |- catch_null (or_else ?a ?b) = _ -> _ =>
      destruct a as [[o|]|] eqn:E1; cbn [or_else catch_null];
      [| destruct b as [[o|]|] eqn:E2; cbn [catch_null] |]
  end; try discriminate.
  - intros H. injection H as <-.
    destruct (first_plausible_repaired _ _ _ _ E1) as (scale & Hin & Hr).
    exists scale. auto.
  - intros H. injection H as <-.
    destruct (first_plausible_repaired _ _ _ _ E2) as (scale & Hin & Hr).
    exists scale. auto.
Qed.

(** *** The regional datum transform *)

Lemma atan_nonneg (z : R) : 0 <= z -> 0 <= atan z.
Proof.
  intros [Hz | <-]; [|rewrite atan_0; lra].
  pose proof (atan_increasing 0 z Hz) as H. rewrite atan_0 in H. lra.
Qed.

Lemma atan_nonpos (z : R) : z <= 0 -> atan z <= 0.
Proof.
  intros [Hz | ->]; [|rewrite atan_0; lra].
  pose proof (atan_increasing z 0 Hz) as H. rewrite atan_0 in H. lra.
Qed.

Lemma Math_atan2_bounds (y x : R) : - PI <= Math_atan2 y x <= PI.
Proof.
  pose proof PI_RGT_0 as Hpi.
  pose proof (atan_bound (y / x)) as [Hlo Hhi].
  unfold Math_atan2.
  destruct (Rlt_dec 0 x); [lra|].
  destruct (Rlt_dec x 0) as [Hx|].
  - destruct (Rle_dec 0 y) as [Hy|Hy].
    + assert (H : y / x <= 0).
      { destruct Hy as [Hy | <-]; [|lra].
        pose proof (Rdiv_pos_neg y x Hy Hx). lra. }
      pose proof (atan_nonpos _ H). lra.
    + assert (H : 0 <= y / x).
      { assert (y < 0) as Hy' by lra.
        pose proof (Rdiv_neg_neg y x Hy' Hx). lra. }
      pose proof (atan_nonneg _ H). lra.
  - destruct (Rlt_dec 0 y); [lra|]. destruct (Rlt_dec y 0); lra.
Qed.

Lemma degrees_above_180 (u : R) : PI < u -> 180 < u * 180 / PI.
Proof.
  intros Hu. pose proof PI_RGT_0 as Hpi.
  apply Rmult_lt_reg_r with PI; [exact Hpi|].
  unfold Rdiv. rewrite Rmult_assoc, Rinv_l by lra. lra.
Qed.

(** The central meridian, 9 degrees, is added to an angle in radians and
    the sum is converted to degrees: the longitude is above 180 on every
    input. *)
Lemma minna_point_implausible (coord : point) :
  plausible (Part000.minna_point coord) = false.
Proof.
  apply plausible_spec_false. right.
  unfold Part000.minna_point, inverse_mercator. cbv zeta. cbn [snd fst].
  match goal with
  | |- context [Math_atan2 ?a ?b] =>
      pose proof (Math_atan2_bounds a b) as [Hlo _];
      generalize dependent (Math_atan2 a b)
  end.
  intros angle Hlo.
  pose proof PI_4 as Hpi4.
  pose proof (degrees_above_180 (9 + angle)) as H.
  assert (Hd : 180 < (9 + angle) * 180 / PI) by (apply H; lra).
  rewrite Rabs_pos_eq; lra.
Qed.

Lemma tryConvertMinnaDatum_null (coordinates : list point) :
  Part000.tryConvertMinnaDatum coordinates = None.
Proof.
  unfold Part000.tryConvertMinnaDatum.
  destruct coordinates as [|[x y] rest]; [reflexivity|]. cbv zeta.
  destruct (leb 100000 x && leb x 900000 && leb 100000 y && leb y 1200000);
    [|reflexivity].
  cbn [map]. rewrite minna_point_implausible. reflexivity.
Qed.

Lemma checker_scales_near_input (mapCenter first : point) (rest : list point) :
  plausible first = false ->
  plausible (swap first) = false ->
  1000 < Rabs (fst first) \/ 1000 < Rabs (snd first) ->
  Rabs (fst first) <= 900000000 -> Rabs (snd first) <= 1800000000 ->
  Part000.validateAndFixCoordinates mapCenter (Array (first :: rest))
  = (Array (map (Part000.scale_by 10000000) (first :: rest)),
     [ConvertedSimpleScaling]).
Proof.
  intros Hfirst Hswap Hlarge Hx Hy.
  rewrite checker_projected by assumption.
  rewrite trySimpleScaling_is_scaling by assumption.
  rewrite scaling_succeeds_near by assumption.
  reflexivity.
Qed.

Lemma checker_scales_minna_input (mapCenter : point) (rest : list point) :
  Part000.validateAndFixCoordinates mapCenter (Array ((700000, 450000) :: rest))
  = (Array (map (Part000.scale_by 10000000) ((700000, 450000) :: rest)),
     [ConvertedSimpleScaling]).
Proof.
  apply checker_scales_near_input.
  - apply plausible_spec_false. left. simpl. absolute.
  - apply plausible_spec_false. left. simpl. absolute.
  - left. simpl. absolute.
  - simpl. absolute.
  - simpl. absolute.
Qed.

(** C5 (amended).  On a list that starts with [700000, 450000] the checker
    returns the list divided by 10^7, whose first vertex [0.07, 0.045] is in
    the plausible ranges, and signals the simple scaling; the input lies in
    the Minna rectangle, but the scaling is tried first and succeeds. *)
Theorem minna_rectangle_input_is_scaled (mapCenter : point) (rest : list point) :
  let coordinates := (700000, 450000) :: rest in
  Part000.validateAndFixCoordinates mapCenter (Array coordinates)
  = (Array (map (Part000.scale_by 10000000) coordinates),
     [ConvertedSimpleScaling]) /\
  Part000.scale_by 10000000 (700000, 450000) = (0.07, 0.045) /\
  plausible (0.07, 0.045) = true.
Proof.
  cbv zeta. split; [|split].
  - apply checker_scales_minna_input.
  - unfold Part000.scale_by. simpl. f_equal; lra.
  - apply plausible_spec. simpl. split; absolute.
Qed.

(** C5 as stated fails: the input lies in the Minna rectangle and the
    result is signalled as simple scaling, not as a Minna conversion. *)
Lemma minna_rectangle_input_not_minna :
  (100000 <= 700000 <= 900000 /\ 100000 <= 450000 <= 1200000) /\
  snd (Part000.validateAndFixCoordinates initialCenter (Array [(700000, 450000)]))
  = [ConvertedSimpleScaling] /\
  ~ In ConvertedMinnaDatum
      (snd (Part000.validateAndFixCoordinates initialCenter
              (Array [(700000, 450000)]))).
Proof.
  assert (E : Part000.validateAndFixCoordinates initialCenter
                 (Array [(700000, 450000)])
               = (Array (map (Part000.scale_by 10000000) [(700000, 450000)]),
                  [ConvertedSimpleScaling]))
    by exact (checker_scales_minna_input initialCenter []).
  rewrite E. cbn [snd].
  split; [lra|]. split; [reflexivity|].
  intros [H|[]]. discriminate.
Qed.

(** *** Failure of the chain, and what is returned without a repair *)

Lemma checker_null (mapCenter first : point) (rest : list point) :
  plausible first = false ->
  plausible (swap first) = false ->
  1000 < Rabs (fst first) \/ 1000 < Rabs (snd first) ->
  Part000.trySimpleScaling (first :: rest) = None ->
  Part000.tryConvertUTMCoordinates (first :: rest) = None ->
  Part000.tryConvertMinnaDatum (first :: rest) = None ->
  Part000.tryGenericCoordinateTransform (first :: rest) = None ->
  Part000.validateAndFixCoordinates mapCenter (Array (first :: rest))
  = (Null, [ErrorNotWGS84; WarningCoordinateRanges]).
Proof.
  intros Hfirst Hswap Hlarge H1 H2 H3 H4.
  rewrite checker_projected by assumption.
  rewrite H1, H2, H3, H4. reflexivity.
Qed.

Lemma checker_warns_small (mapCenter first : point) (rest : list point) :
  plausible first = false ->
  plausible (swap first) = false ->
  Rabs (fst first) <= 1000 -> Rabs (snd first) <= 1000 ->
  Part000.validateAndFixCoordinates mapCenter (Array (first :: rest))
  = (Array (first :: rest), [WarningDifferentSystem]).
Proof.
  intros Hfirst Hswap Hx Hy.
  unfold Part000.validateAndFixCoordinates. cbv zeta.
  change (leb (Rabs (fst first)) 90 && leb (Rabs (snd first)) 180)
    with (plausible first).
  change (leb (Rabs (snd first)) 90 && leb (Rabs (fst first)) 180)
    with (plausible (swap first)).
  rewrite Hfirst, Hswap.
  rewrite (ltb_false 1000 (Rabs (fst first))) by exact Hx.
  rewrite (ltb_false 1000 (Rabs (snd first))) by exact Hy.
  cbn [orb].
  apply plausible_spec_false in Hfirst.
  assert (Hw : ltb 90 (Rabs (fst first)) || ltb 180 (Rabs (snd first)) = true).
  { apply orb_true_iff. rewrite !ltb_spec. exact Hfirst. }
  rewrite Hw. reflexivity.
Qed.

Lemma Part001_checker_warns (first : point) (rest : list point) :
  plausible first = false ->
  plausible (swap first) = false ->
  Part001.validateAndFixCoordinates (Array (first :: rest))
  = (Array (first :: rest), [WarningDifferentProjection]).
Proof.
  intros Hfirst Hswap.
  unfold Part001.validateAndFixCoordinates. cbv zeta.
  cbn [map hd]. rewrite Hswap, andb_false_r.
  apply plausible_spec_false in Hfirst.
  assert (Hw : ltb 90 (Rabs (fst first)) || ltb 180 (Rabs (snd first)) = true).
  { apply orb_true_iff. rewrite !ltb_spec. exact Hfirst. }
  rewrite Hw. reflexivity.
Qed.

(** The checker of part_001 never returns [null] for a list. *)
Lemma Part001_checker_never_null (coordinates : list point) :
  fst (Part001.validateAndFixCoordinates (Array coordinates)) <> Null.
Proof.
  unfold Part001.validateAndFixCoordinates.
  destruct coordinates as [|first rest]; [discriminate|]. cbv zeta.
  match goal with |- context [if ?c then _ else _] => destruct c end;
    discriminate.
Qed.

Ltac unfold_transforms :=
  unfold Part000.scale_by, Part000.offset_by, Part000.scale_swap_by,
    Part000.swap_scale_by, Part000.scale_by, swap, plausible;
  cbn [fst snd].

Lemma far_east_chain_fails :
  plausible (10000000000, 0) = false /\
  plausible (swap (10000000000, 0)) = false /\
  Part000.trySimpleScaling far_east = None /\
  Part000.tryConvertUTMCoordinates far_east = None /\
  Part000.tryConvertMinnaDatum far_east = None /\
  Part000.tryGenericCoordinateTransform far_east = None.
Proof.
  assert (Hswap : plausible (swap (10000000000, 0)) = false)
    by (unfold_transforms; compare; reflexivity).
  split; [unfold_transforms; compare; reflexivity|].
  split; [exact Hswap|].
  split; [|split; [|split]].
  - unfold far_east. rewrite trySimpleScaling_is_scaling by exact Hswap.
    unfold Part000.tryScalingTransform. cbn [first_plausible map].
    unfold_transforms. compare. reflexivity.
  - unfold far_east, Part000.tryConvertUTMCoordinates. compare. reflexivity.
  - apply tryConvertMinnaDatum_null.
  - unfold far_east, Part000.tryGenericCoordinateTransform.
    cbn [first_plausible map]. unfold_transforms. compare. reflexivity.
Qed.

Lemma near_miss_implausible :
  plausible (200, 300) = false /\ plausible (swap (200, 300)) = false.
Proof.
  split; unfold_transforms; compare; reflexivity.
Qed.

(** C4 (amended).  On an implausible first vertex that the swap does not
    help: in part_000, with [|x| > 1000] or [|y| > 1000] and every attempt of
    the chain failing, the checker returns [null] with an error
    notification; with [|x| <= 1000] and [|y| <= 1000] it returns the
    coordinates as they are, with a warning; in part_001 it always returns
    the coordinates as they are, with a warning. *)
Theorem checker_failure_cases (mapCenter first : point) (rest : list point) :
  plausible first = false ->
  plausible (swap first) = false ->
  (1000 < Rabs (fst first) \/ 1000 < Rabs (snd first) ->
   Part000.trySimpleScaling (first :: rest) = None ->
   Part000.tryConvertUTMCoordinates (first :: rest) = None ->
   Part000.tryConvertMinnaDatum (first :: rest) = None ->
   Part000.tryGenericCoordinateTransform (first :: rest) = None ->
   Part000.validateAndFixCoordinates mapCenter (Array (first :: rest))
   = (Null, [ErrorNotWGS84; WarningCoordinateRanges])) /\
  (Rabs (fst first) <= 1000 -> Rabs (snd first) <= 1000 ->
   Part000.validateAndFixCoordinates mapCenter (Array (first :: rest))
   = (Array (first :: rest), [WarningDifferentSystem])) /\
  Part001.validateAndFixCoordinates (Array (first :: rest))
  = (Array (first :: rest), [WarningDifferentProjection]).
Proof.
  intros Hfirst Hswap. split; [|split].
  - intros. apply checker_null; assumption.
  - intros. apply checker_warns_small; assumption.
  - apply Part001_checker_warns; assumption.
Qed.

Lemma checker_failure_cases_witness :
  Part000.validateAndFixCoordinates initialCenter (Array far_east)
  = (Null, [ErrorNotWGS84; WarningCoordinateRanges]) /\
  Part000.validateAndFixCoordinates initialCenter (Array near_miss)
  = (Array near_miss, [WarningDifferentSystem]) /\
  Part001.validateAndFixCoordinates (Array far_east)
  = (Array far_east, [WarningDifferentProjection]).
Proof.
  destruct far_east_chain_fails as (H1 & H2 & H3 & H4 & H5 & H6).
  destruct near_miss_implausible as (N1 & N2).
  destruct (checker_failure_cases initialCenter (10000000000, 0) [] H1 H2)
    as (Hnull & _ & Hwarn).
  destruct (checker_failure_cases initialCenter (200, 300) [] N1 N2)
    as (_ & Hsmall & _).
  split; [|split].
  - apply Hnull; try assumption. left. simpl. absolute.
  - apply Hsmall; simpl; absolute.
  - exact Hwarn.
Defined.

(** C4 as stated fails: in part_001 the list [far_east], which the swap
    does not repair, is returned as it is, not as a failure; in part_000
    the implausible list [near_miss] is returned as it is. *)
Lemma implausible_coordinates_returned :
  plausible (10000000000, 0) = false /\
  plausible (swap (10000000000, 0)) = false /\
  fst (Part001.validateAndFixCoordinates (Array far_east)) = Array far_east /\
  plausible (200, 300) = false /\
  plausible (swap (200, 300)) = false /\
  fst (Part000.validateAndFixCoordinates initialCenter (Array near_miss))
  = Array near_miss.
Proof.
  destruct far_east_chain_fails as (H1 & H2 & _).
  destruct near_miss_implausible as (N1 & N2).
  repeat split; try assumption.
  - unfold far_east. rewrite Part001_checker_warns by assumption. reflexivity.
  - unfold near_miss.
    rewrite checker_warns_small by (try assumption; simpl; absolute).
    reflexivity.
Qed.

(** *** The UTM inverse

    The central meridian, in degrees, is added to an angle in radians: only
    zone 31 (3 degrees) can give a longitude within 180 degrees. *)

Lemma degrees_within (u bound : R) :
  0 <= bound -> Rabs u <= bound * PI / 180 -> Rabs (u * 180 / PI) <= bound.
Proof.
  intros Hb Hu. pose proof PI_RGT_0 as Hpi.
  unfold Rdiv. rewrite Rabs_mult, Rabs_mult.
  rewrite (Rabs_pos_eq 180) by lra.
  rewrite (Rabs_pos_eq (/ PI)) by (left; apply Rinv_0_lt_compat; exact Hpi).
  apply Rmult_le_reg_r with PI; [exact Hpi|].
  rewrite Rmult_assoc, Rinv_l by lra. lra.
Qed.

(** The third flattening [e1] lies between 0 and the squared
    eccentricity. *)
Lemma e1_bounds (e2 : R) :
  0 <= e2 <= 1 ->
  0 <= (1 - sqrt (1 - e2)) / (1 + sqrt (1 - e2)) <= e2.
Proof.
  intros He.
  assert (Hs0 : 0 <= sqrt (1 - e2)) by apply sqrt_pos.
  assert (Hs1 : sqrt (1 - e2) <= 1).
  { rewrite <- sqrt_1 at 2. apply sqrt_le_1_alt. lra. }
  assert (Hs2 : 1 - e2 <= sqrt (1 - e2)).
  { pose proof (sqrt_sqrt (1 - e2)) as Hsq.
    assert (0 <= 1 - e2) as H0 by lra. specialize (Hsq H0). nra. }
  split.
  - apply Rmult_le_pos; [lra|]. left. apply Rinv_0_lt_compat. lra.
  - apply Rmult_le_reg_r with (1 + sqrt (1 - e2)); [lra|].
    unfold Rdiv. rewrite Rmult_assoc, Rinv_l by lra. nra.
Qed.


Lemma small_times_sin (c bound x : R) :
  - bound <= c <= bound -> - bound <= c * sin x <= bound.
Proof.
  intros Hc. pose proof (SIN_bound x) as [Hlo Hhi]. nra.
Qed.

(** West of the false easting, up to 1000 km north of the equator, zone 31
    gives a plausible vertex. *)
Lemma utm_zone31_west (easting northing : R) :
  easting <= 500000 -> 0 <= northing <= 1000000 ->
  plausible (Part000.utm_point 3 (easting, northing)) = true.
Proof.
  intros He Hn.
  unfold Part000.utm_point, inverse_mercator. cbv zeta. cbn [fst snd].
  set (e2 := 0.00669438).
  set (K := 6378137 * 0.9996 * (1 - e2 / 4 - 3 * e2 * e2 / 64 - 5 * e2 * e2 * e2 / 256)).
  set (mu := (northing - 0) / K).
  set (e1 := (1 - sqrt (1 - e2)) / (1 + sqrt (1 - e2))).
  set (lat1 := mu + _ + _ + _).
  assert (HK : 6000000 <= K) by (unfold K, e2; lra).
  assert (Hmu : 0 <= mu <= 1 / 6).
  { unfold mu. split.
    - apply Rmult_le_pos; [lra|]. left. apply Rinv_0_lt_compat. lra.
    - apply Rmult_le_reg_r with K; [lra|].
      unfold Rdiv. rewrite Rmult_assoc, Rinv_l by lra. lra. }
  assert (He1 : 0 <= e1 <= 0.007).
  { pose proof (e1_bounds e2) as H. unfold e1.
    assert (0 <= e2 <= 1) as He2 by (unfold e2; lra).
    specialize (H He2). unfold e2 in *. lra. }
  assert (Hp2 : 0 <= e1 * e1 <= 0.001) by nra.
  assert (Hp3 : 0 <= e1 * e1 * e1 <= 0.001) by nra.
  assert (Hp4 : 0 <= e1 * e1 * e1 * e1 <= 0.001) by nra.
  assert (Hc1 : - (1 / 50) <= 3 * e1 / 2 - 27 * e1 * e1 * e1 / 32 <= 1 / 50) by lra.
  assert (Hc2 : - (1 / 50) <= 21 * e1 * e1 / 16 - 55 * e1 * e1 * e1 * e1 / 32 <= 1 / 50)
    by lra.
  assert (Hc3 : - (1 / 50) <= 151 * e1 * e1 * e1 / 96 <= 1 / 50) by lra.
  pose proof (small_times_sin _ _ (2 * mu) Hc1) as H1.
  pose proof (small_times_sin _ _ (4 * mu) Hc2) as H2.
  pose proof (small_times_sin _ _ (6 * mu) Hc3) as H3.
  assert (Hlat : - (1 / 4) <= lat1 <= 1 / 4) by (unfold lat1; lra).
  pose proof PI2_3_2 as Hpi. pose proof PI_RGT_0 as Hpi0.
  assert (Hcos : 0 < cos lat1) by (apply cos_gt_0; lra).
  set (D := 6378137 * 0.9996 * (1 - e2 * sin lat1 * sin lat1) * cos lat1).
  assert (HD : 0 < D).
  { pose proof (SIN_bound lat1) as [Hlo Hhi].
    assert (0 <= sin lat1 * sin lat1 <= 1) by nra.
    assert (0 < 1 - e2 * sin lat1 * sin lat1) by (unfold e2; nra).
    apply Rmult_lt_0_compat; [|exact Hcos].
    apply Rmult_lt_0_compat; [lra | assumption]. }
  assert (Hangle : - (PI / 2) < Math_atan2 (easting - 500000) D <= 0).
  { unfold Math_atan2. destruct (Rlt_dec 0 D); [|lra].
    pose proof (atan_bound ((easting - 500000) / D)) as [Hlo _].
    split; [lra|]. apply atan_nonpos.
    destruct (Req_dec_T (easting - 500000) 0) as [E|E].
    - rewrite E. unfold Rdiv. lra.
    - assert (easting - 500000 < 0) as Hneg by lra.
      pose proof (Rdiv_neg_pos _ _ Hneg HD). lra. }
  apply plausible_spec. cbn [fst snd]. split.
  - apply degrees_within; [lra|]. apply Rabs_le. lra.
  - apply degrees_within; [lra|]. apply Rabs_le. lra.
Qed.

Lemma degrees_below_180 (u : R) : u < - PI -> u * 180 / PI < - 180.
Proof.
  intros Hu. pose proof PI_RGT_0 as Hpi.
  apply Rmult_lt_reg_r with PI; [exact Hpi|].
  unfold Rdiv. rewrite Rmult_assoc, Rinv_l by lra. lra.
Qed.

Lemma utm_point_implausible (centralMeridian : R) (coord : point) :
  8 < centralMeridian \/ centralMeridian < - 8 ->
  plausible (Part000.utm_point centralMeridian coord) = false.
Proof.
  intros Hcm. apply plausible_spec_false. right.
  unfold Part000.utm_point, inverse_mercator. cbv zeta. cbn [snd fst].
  match goal with
  | |- context [Math_atan2 ?a ?b] =>
      pose proof (Math_atan2_bounds a b) as Hb;
      generalize dependent (Math_atan2 a b)
  end.
  intros angle [Hlo Hhi].
  pose proof PI_4 as Hpi4.
  destruct Hcm as [Hcm|Hcm].
  - pose proof (degrees_above_180 (centralMeridian + angle)) as H.
    assert (180 < (centralMeridian + angle) * 180 / PI) by (apply H; lra).
    rewrite Rabs_pos_eq; lra.
  - pose proof (degrees_below_180 (centralMeridian + angle)) as H.
    assert ((centralMeridian + angle) * 180 / PI < - 180) by (apply H; lra).
    rewrite Rabs_left; lra.
Qed.

Lemma convertUTMToWGS84_other_zones (coordinates : list point) (zone : nat)
    (centralMeridian : R) :
  8 < centralMeridian \/ centralMeridian < - 8 ->
  Part000.convertUTMToWGS84 coordinates zone centralMeridian = None.
Proof.
  intros Hcm. unfold Part000.convertUTMToWGS84.
  destruct coordinates as [|first rest]; [reflexivity|]. cbn [map].
  rewrite utm_point_implausible by exact Hcm. reflexivity.
Qed.

(** Of the seven zones only zone 31 can succeed. *)
Lemma try_zones_is_zone_31 (coordinates : list point) :
  Part000.try_zones Part000.utmZones coordinates
  = Part000.convertUTMToWGS84 coordinates 31 3.
Proof.
  unfold Part000.utmZones. cbn [Part000.try_zones].
  rewrite (convertUTMToWGS84_other_zones coordinates 32 9) by lra.
  rewrite (convertUTMToWGS84_other_zones coordinates 33 15) by lra.
  rewrite (convertUTMToWGS84_other_zones coordinates 18 (-75)) by lra.
  rewrite (convertUTMToWGS84_other_zones coordinates 19 (-69)) by lra.
  rewrite (convertUTMToWGS84_other_zones coordinates 10 (-123)) by lra.
  rewrite (convertUTMToWGS84_other_zones coordinates 11 (-117)) by lra.
  destruct (Part000.convertUTMToWGS84 coordinates 31 3); reflexivity.
Qed.

Lemma convertUTMToWGS84_meridian :
  Part000.convertUTMToWGS84 meridian_input 31 3
  = Some (map (Part000.utm_point 3) meridian_input).
Proof.
  unfold Part000.convertUTMToWGS84, meridian_input. cbn [map].
  rewrite utm_zone31_west by lra. reflexivity.
Qed.

Lemma tryConvertUTMCoordinates_utm_input :
  Part000.tryConvertUTMCoordinates utm_input
  = Some (map (Part000.utm_point 3) utm_input).
Proof.
  unfold Part000.tryConvertUTMCoordinates, utm_input.
  compare. cbn [andb]. rewrite try_zones_is_zone_31.
  unfold Part000.convertUTMToWGS84. cbn [map].
  rewrite utm_zone31_west by lra. reflexivity.
Qed.

(** *** The aggressive correction *)

Lemma aggressive_scales_Some (scales : list R) (coordinates out : list point) :
  Part000.aggressive_scales scales coordinates = Normal (Some out) ->
  exists scale,
    In scale scales /\
    (out = map (Part000.scale_by scale) coordinates \/
     out = map (Part000.swap_scale_by scale) coordinates).
Proof.
  induction scales as [|scale scales IH]; cbn [Part000.aggressive_scales];
    [discriminate|].
  match goal with
  | |- or_else ?a (or_else ?b _) = _ -> _ =>
      destruct a as [[o|]|] eqn:E1; cbn [or_else];
      [| destruct b as [[o|]|] eqn:E2; cbn [or_else] |]
  end; try discriminate.
  - intros H. injection H as <-.
    destruct (first_plausible_Some _ _ _ _ E1) as (s & [<-|[]] & -> & _).
    exists scale. split; [left; reflexivity | left; reflexivity].
  - intros H. injection H as <-.
    destruct (first_plausible_Some _ _ _ _ E2) as (s & [<-|[]] & -> & _).
    exists scale. split; [left; reflexivity | right; reflexivity].
  - intros H. destruct (IH H) as (s & Hin & Hs).
    exists s. split; [right; exact Hin | exact Hs].
Qed.

Lemma tryAggressiveCorrection_Some (coordinates out : list point) :
  Part000.tryAggressiveCorrection coordinates = Some out ->
  (exists scale, out = map (Part000.scale_by scale) coordinates \/
                 out = map (Part000.swap_scale_by scale) coordinates) \/
  (exists offset, out = map (Part000.offset_by offset) coordinates) \/
  (exists centerX centerY scaleX scaleY,
     out = map (Part000.relocate centerX centerY scaleX scaleY) coordinates).
Proof.
  unfold Part000.tryAggressiveCorrection.
  destruct coordinates as [|first rest]; [discriminate|]. cbv zeta.
  match goal with
  | |- catch_null (or_else ?a (or_else ?b ?c)) = _ -> _ =>
      destruct a as [[o|]|] eqn:E1; cbn [or_else catch_null];
      [| destruct b as [[o|]|] eqn:E2; cbn [or_else catch_null] |]
  end; try discriminate.
  - intros H. injection H as <-.
    destruct (aggressive_scales_Some _ _ _ E1) as (scale & _ & Hs).
    left. exists scale. exact Hs.
  - intros H. injection H as <-.
    destruct (first_plausible_Some _ _ _ _ E2) as (offset & _ & -> & _).
    right. left. exists offset. reflexivity.
  - intros H. injection H as <-.
    right. right. do 4 eexists. reflexivity.
Qed.

Lemma map_vertexwise (f : point -> point) (coordinates : list point) :
  vertexwise f coordinates (map f coordinates).
Proof.
  split; [apply length_map | intros i; apply nth_error_map].
Qed.

Lemma repaired_vertexwise (f : point -> point) (coordinates out : list point) :
  repaired_by f coordinates out -> vertexwise f coordinates out.
Proof.
  intros [-> _]. apply map_vertexwise.
Qed.

(** C9.  Each repair transform that returns a list returns the input
    mapped vertex by vertex: the output has the length of the input and its
    vertex at any position is a function of the input vertex at that
    position (the swap, a division by one scale, a subtraction of one
    offset, the inverse projection of one zone, the relocation with the
    centre and the scales of the whole list). *)
Theorem transforms_are_vertexwise (coordinates out : list point) :
  (Part000.trySwapTransform coordinates = Normal (Some out) ->
     vertexwise swap coordinates out) /\
  (Part000.tryScalingTransform coordinates = Normal (Some out) ->
     exists scale, vertexwise (Part000.scale_by scale) coordinates out) /\
  (Part000.tryMixedTransform coordinates = Normal (Some out) ->
     exists scale, vertexwise (Part000.scale_swap_by scale) coordinates out) /\
  (Part000.tryOffsetTransform coordinates = Normal (Some out) ->
     exists offset, vertexwise (Part000.offset_by offset) coordinates out) /\
  (forall zone centralMeridian,
     Part000.convertUTMToWGS84 coordinates zone centralMeridian = Some out ->
     vertexwise (Part000.utm_point centralMeridian) coordinates out) /\
  (Part000.tryConvertUTMCoordinates coordinates = Some out ->
     exists centralMeridian,
       vertexwise (Part000.utm_point centralMeridian) coordinates out) /\
  (Part000.tryConvertMinnaDatum coordinates = Some out ->
     vertexwise Part000.minna_point coordinates out) /\
  (Part000.tryGenericCoordinateTransform coordinates = Some out ->
     exists scale,
       vertexwise (Part000.scale_by scale) coordinates out \/
       vertexwise (Part000.swap_scale_by scale) coordinates out) /\
  (Part000.tryAggressiveCorrection coordinates = Some out ->
     (exists scale,
        vertexwise (Part000.scale_by scale) coordinates out \/
        vertexwise (Part000.swap_scale_by scale) coordinates out) \/
     (exists offset, vertexwise (Part000.offset_by offset) coordinates out) \/
     (exists centerX centerY scaleX scaleY,
        vertexwise (Part000.relocate centerX centerY scaleX scaleY)
          coordinates out)).
Proof.
  split; [|split; [|split; [|split; [|split; [|split; [|split; [|split]]]]]]].
  - intros H. apply repaired_vertexwise, trySwapTransform_repaired, H.
  - intros H. destruct (first_plausible_repaired _ _ _ _ H) as (s & _ & Hr).
    exists s. apply repaired_vertexwise, Hr.
  - intros H. destruct (first_plausible_repaired _ _ _ _ H) as (s & _ & Hr).
    exists s. apply repaired_vertexwise, Hr.
  - intros H. destruct (first_plausible_repaired _ _ _ _ H) as (s & _ & Hr).
    exists s. apply repaired_vertexwise, Hr.
  - intros zone cm H.
    apply repaired_vertexwise. eapply convertUTMToWGS84_repaired, H.
  - intros H. destruct (tryConvertUTMCoordinates_repaired _ _ H)
      as (zone & cm & _ & Hr).
    exists cm. apply repaired_vertexwise, Hr.
  - intros H. apply repaired_vertexwise, tryConvertMinnaDatum_repaired, H.
  - intros H. destruct (tryGenericCoordinateTransform_repaired _ _ H)
      as (scale & _ & [Hr|Hr]); exists scale; [left | right];
      apply repaired_vertexwise, Hr.
  - intros H.
    destruct (tryAggressiveCorrection_Some _ _ H)
      as [(scale & [-> | ->]) | [(offset & ->) | (cx & cy & sx & sy & ->)]].
    + left. exists scale. left. apply map_vertexwise.
    + left. exists scale. right. apply map_vertexwise.
    + right. left. exists offset. apply map_vertexwise.
    + right. right. exists cx, cy, sx, sy. apply map_vertexwise.
Qed.

(** *** The transforms at concrete inputs *)

Ltac run_transform :=
  cbn [first_plausible map Part000.aggressive_scales or_else catch_null];
  unfold_transforms; compare; cbn [andb orb or_else catch_null].

Lemma trySwapTransform_swapped_input :
  Part000.trySwapTransform swapped_input = Normal (Some (map swap swapped_input)).
Proof.
  unfold swapped_input. rewrite trySwapTransform_cons.
  unfold_transforms. compare. reflexivity.
Qed.

Lemma tryScalingTransform_scaled_input :
  Part000.tryScalingTransform scaled_input
  = Normal (Some (map (Part000.scale_by 10000000) scaled_input)).
Proof.
  apply scaling_succeeds_near; simpl; absolute.
Qed.

Lemma tryMixedTransform_mixed_input :
  Part000.tryMixedTransform mixed_input
  = Normal (Some (map (Part000.scale_swap_by 1000000) mixed_input)).
Proof.
  unfold Part000.tryMixedTransform, mixed_input. cbv zeta.
  apply first_plausible_head. unfold_transforms. compare. reflexivity.
Qed.

Lemma tryOffsetTransform_offset_input :
  Part000.tryOffsetTransform offset_input
  = Normal (Some (map (Part000.offset_by 1000000) offset_input)).
Proof.
  unfold Part000.tryOffsetTransform, offset_input. cbv zeta.
  rewrite first_plausible_skip by (unfold_transforms; compare; reflexivity).
  apply first_plausible_head. unfold_transforms. compare. reflexivity.
Qed.

Lemma tryGenericCoordinateTransform_generic_input :
  Part000.tryGenericCoordinateTransform generic_input
  = Some (map (Part000.swap_scale_by 1000000) generic_input).
Proof.
  unfold Part000.tryGenericCoordinateTransform, generic_input.
  run_transform. reflexivity.
Qed.

Lemma tryAggressiveCorrection_hopeless_input :
  exists centerX centerY scaleX scaleY,
    Part000.tryAggressiveCorrection hopeless_input
    = Some (map (Part000.relocate centerX centerY scaleX scaleY) hopeless_input).
Proof.
  unfold Part000.tryAggressiveCorrection, hopeless_input.
  run_transform. do 4 eexists. reflexivity.
Qed.

Lemma transforms_are_vertexwise_witness :
  vertexwise swap swapped_input (map swap swapped_input) /\
  (exists scale,
     vertexwise (Part000.scale_by scale) scaled_input
       (map (Part000.scale_by 10000000) scaled_input)) /\
  (exists scale,
     vertexwise (Part000.scale_swap_by scale) mixed_input
       (map (Part000.scale_swap_by 1000000) mixed_input)) /\
  (exists offset,
     vertexwise (Part000.offset_by offset) offset_input
       (map (Part000.offset_by 1000000) offset_input)) /\
  vertexwise (Part000.utm_point 3) meridian_input
    (map (Part000.utm_point 3) meridian_input) /\
  (exists centralMeridian,
     vertexwise (Part000.utm_point centralMeridian) utm_input
       (map (Part000.utm_point 3) utm_input)) /\
  (exists scale,
     vertexwise (Part000.scale_by scale) generic_input
       (map (Part000.swap_scale_by 1000000) generic_input) \/
     vertexwise (Part000.swap_scale_by scale) generic_input
       (map (Part000.swap_scale_by 1000000) generic_input)) /\
  (exists out,
     Part000.tryAggressiveCorrection hopeless_input = Some out /\
     ((exists scale,
         vertexwise (Part000.scale_by scale) hopeless_input out \/
         vertexwise (Part000.swap_scale_by scale) hopeless_input out) \/
      (exists offset, vertexwise (Part000.offset_by offset) hopeless_input out) \/
      (exists centerX centerY scaleX scaleY,
         vertexwise (Part000.relocate centerX centerY scaleX scaleY)
           hopeless_input out))).
Proof.
  split; [|split; [|split; [|split; [|split; [|split; [|split]]]]]].
  - apply (proj1 (transforms_are_vertexwise swapped_input _)).
    exact trySwapTransform_swapped_input.
  - apply (proj1 (proj2 (transforms_are_vertexwise scaled_input _))).
    exact tryScalingTransform_scaled_input.
  - apply (proj1 (proj2 (proj2 (transforms_are_vertexwise mixed_input _)))).
    exact tryMixedTransform_mixed_input.
  - apply (proj1 (proj2 (proj2 (proj2
             (transforms_are_vertexwise offset_input _))))).
    exact tryOffsetTransform_offset_input.
  - apply (proj1 (proj2 (proj2 (proj2 (proj2
             (transforms_are_vertexwise meridian_input _))))) 31%nat 3).
    exact convertUTMToWGS84_meridian.
  - apply (proj1 (proj2 (proj2 (proj2 (proj2 (proj2
             (transforms_are_vertexwise utm_input _))))))).
    exact tryConvertUTMCoordinates_utm_input.
  - apply (proj1 (proj2 (proj2 (proj2 (proj2 (proj2 (proj2 (proj2
             (transforms_are_vertexwise generic_input _))))))))).
    exact tryGenericCoordinateTransform_generic_input.
  - destruct tryAggressiveCorrection_hopeless_input as (cx & cy & sx & sy & E).
    eexists. split; [exact E|].
    apply (proj2 (proj2 (proj2 (proj2 (proj2 (proj2 (proj2 (proj2
             (transforms_are_vertexwise hopeless_input _))))))))).
    exact E.
Defined.

(** *** The chain beyond the scaling *)



(** ** Further properties of the measurements *)

Lemma Math_atan2_quadrant (y x : R) :
  0 <= y -> 0 <= x -> 0 <= Math_atan2 y x <= PI / 2.
Proof.
  intros Hy Hx. pose proof PI_RGT_0 as HPI. unfold Math_atan2.
  destruct (Rlt_dec 0 x) as [Hpos|_].
  - split.
    + apply atan_nonneg. apply Rmult_le_pos; [assumption|].
      left. apply Rinv_0_lt_compat. assumption.
    + left. apply atan_bound.
  - destruct (Rlt_dec x 0); [lra|].
    destruct (Rlt_dec 0 y); [lra|].
    destruct (Rlt_dec y 0); lra.
Qed.

Lemma nsum_bounds (bound : R) (l : list number) :
  Forall (fun x => exists r, x = Finite r /\ 0 <= r <= bound) l ->
  exists r, nsum l = Finite r /\ 0 <= r <= INR (length l) * bound.
Proof.
  induction 1 as [|x l [r [-> Hr]] _ [s [IH Hs]]].
  - exists 0. split; [reflexivity|]. simpl. lra.
  - exists (r + s). split.
    + simpl. rewrite IH. reflexivity.
    + change (length (Finite r :: l)) with (S (length l)).
      rewrite S_INR. lra.
Qed.

Lemma successor_pairs_length (ring : list point) :
  length (successor_pairs ring) = length ring.
Proof.
  unfold successor_pairs. rewrite length_combine, length_app.
  destruct ring as [|x l]; [reflexivity|].
  cbn [tl firstn length]. lia.
Qed.

(** X1. The perimeter of map-script.js does not depend on the vertex the
    ring starts at nor on its orientation: rotating the vertex list
    cyclically or reversing it gives the same result. *)
Theorem MapScript_perimeter_start_and_orientation (k : nat) (ring : list point) :
  MapScript.calculatePolygonPerimeter (rotate k ring)
  = MapScript.calculatePolygonPerimeter ring /\
  MapScript.calculatePolygonPerimeter (rev ring)
  = MapScript.calculatePolygonPerimeter ring.
Proof.
  split; [apply MapScript_perimeter_rotate | apply MapScript_perimeter_rev].
Qed.

Lemma sin_latitude_same_sign (p q : point) :
  (0 <= lat p <= 90 /\ 0 <= lat q <= 90) \/
  (-90 <= lat p <= 0 /\ -90 <= lat q <= 0) ->
  0 <= sin (lat p * PI / 180) * sin (lat q * PI / 180).
Proof.
  pose proof PI_RGT_0 as Hpi.
  intros [[Hp Hq]|[Hp Hq]].
  - apply Rmult_le_pos; apply sin_ge_0; nra.
  - assert (Hneg : forall x, -90 <= x <= 0 -> sin (x * PI / 180) <= 0).
    { intros x Hx.
      replace (x * PI / 180) with (- (- x * PI / 180)) by lra.
      rewrite sin_neg.
      assert (0 <= sin (- x * PI / 180)) by (apply sin_ge_0; nra). lra. }
    pose proof (Hneg _ Hp). pose proof (Hneg _ Hq). nra.
Qed.

(** Between two vertices of one hemisphere at most 90 degrees of longitude
    apart, the Haversine term is at most one half: the edge is at most a
    quarter of a great circle. *)
Lemma MapScript_haversine_a_quarter (p q : point) :
  (0 <= lat p <= 90 /\ 0 <= lat q <= 90) \/
  (-90 <= lat p <= 0 /\ -90 <= lat q <= 0) ->
  -90 <= lng q - lng p <= 90 ->
  0 <= MapScript.haversine_a p q <= 1 / 2.
Proof.
  intros Hlat Hlng. pose proof PI_RGT_0 as Hpi.
  pose proof (sin_latitude_same_sign p q Hlat) as Hss.
  assert (Hc1 : 0 <= cos (lat p * PI / 180))
    by (apply cos_ge_0; destruct Hlat as [[? ?]|[? ?]]; nra).
  assert (Hc2 : 0 <= cos (lat q * PI / 180))
    by (apply cos_ge_0; destruct Hlat as [[? ?]|[? ?]]; nra).
  unfold MapScript.haversine_a. cbv zeta.
  set (phi1 := lat p * PI / 180) in *. set (phi2 := lat q * PI / 180) in *.
  set (dl := (lng q - lng p) * PI / 180).
  assert (Hcd : 0 <= cos dl) by (apply cos_ge_0; unfold dl; nra).
  assert (Hs1 : sin ((phi2 - phi1) / 2) * sin ((phi2 - phi1) / 2)
                = (1 - cos (phi2 - phi1)) / 2).
  { pose proof (cos_2a_sin ((phi2 - phi1) / 2)) as H.
    replace (2 * ((phi2 - phi1) / 2)) with (phi2 - phi1) in H by lra. lra. }
  assert (Hs2 : sin (dl / 2) * sin (dl / 2) = (1 - cos dl) / 2).
  { pose proof (cos_2a_sin (dl / 2)) as H.
    replace (2 * (dl / 2)) with dl in H by lra. lra. }
  pose proof (cos_minus phi2 phi1) as Hm.
  pose proof (COS_bound dl) as [_ Hd1].
  assert (Hcc : 0 <= cos phi1 * cos phi2) by (apply Rmult_le_pos; assumption).
  rewrite Hs1.
  replace (cos phi1 * cos phi2 * sin (dl / 2) * sin (dl / 2))
    with (cos phi1 * cos phi2 * (sin (dl / 2) * sin (dl / 2))) by ring.
  rewrite Hs2, Hm.
  split.
  - pose proof (COS_bound (phi2 - phi1)) as [_ Hb]. rewrite Hm in Hb. nra.
  - nra.
Qed.

Lemma central_angle_quarter (a : R) :
  0 <= a <= 1 / 2 -> exists c, central_angle a = Finite c /\ 0 <= c <= 2.
Proof.
  intros [H0 H1]. unfold central_angle, Math_sqrt.
  destruct (Rle_dec 0 a); [|lra]. destruct (Rle_dec 0 (1 - a)); [|lra].
  eexists. split; [reflexivity|].
  pose proof (Math_atan2_quadrant (sqrt a) (sqrt (1 - a))
                (sqrt_pos a) (sqrt_pos (1 - a))) as [Hlo _].
  split; [lra|].
  assert (Hpos : 0 < sqrt (1 - a)) by (apply sqrt_lt_R0; lra).
  assert (Hle : sqrt a <= sqrt (1 - a)) by (apply sqrt_le_1; lra).
  unfold Math_atan2. destruct (Rlt_dec 0 (sqrt (1 - a))); [|lra].
  assert (Hratio : sqrt a / sqrt (1 - a) <= 1).
  { apply Rmult_le_reg_r with (sqrt (1 - a)); [exact Hpos|].
    unfold Rdiv. rewrite Rmult_assoc, Rinv_l by lra. lra. }
  assert (Hatan : atan (sqrt a / sqrt (1 - a)) <= PI / 4).
  { rewrite <- atan_1. destruct Hratio as [Hlt | ->]; [|lra].
    left. apply atan_increasing, Hlt. }
  pose proof PI_4. lra.
Qed.

(** X2. For a vertex list of one hemisphere (all latitudes in [0, 90] or
    all in [-90, 0]) whose longitudes lie within a band of 90 degrees, the
    perimeter of map-script.js is a finite number of kilometres between 0
    and 12742 for every vertex: no edge is longer than a quarter of a great
    circle of the sphere of radius 6371 km. *)
Theorem MapScript_perimeter_bounds (ring : list point) (west : R) :
  Forall (fun p => 0 <= lat p <= 90) ring \/
  Forall (fun p => -90 <= lat p <= 0) ring ->
  Forall (fun p => west <= lng p <= west + 90) ring ->
  exists km,
    MapScript.calculatePolygonPerimeter ring = Finite km /\
    0 <= km <= INR (length ring) * 12742.
Proof.
  intros Hlat Hlng. rewrite MapScript_perimeter_sum.
  destruct (nsum_bounds 12742000
              (map (fun e => MapScript.edge_distance (fst e) (snd e))
                 (successor_pairs ring))) as [r [Hr Hb]].
  - rewrite Forall_map, Forall_forall. intros e He.
    destruct (successor_pairs_In ring e He) as [H1 H2].
    rewrite Forall_forall in Hlng.
    pose proof (Hlng _ H1) as L1. pose proof (Hlng _ H2) as L2.
    destruct (central_angle_quarter (MapScript.haversine_a (fst e) (snd e)))
      as [c [Hc Hcb]].
    + apply MapScript_haversine_a_quarter; [|lra].
      destruct Hlat as [Hl|Hl]; rewrite Forall_forall in Hl;
        [left | right]; split; apply Hl; assumption.
    + unfold MapScript.edge_distance. rewrite Hc.
      eexists. split; [reflexivity|]. cbn [nscale]. nra.
  - rewrite Hr. rewrite length_map, successor_pairs_length in Hb.
    eexists. split; [reflexivity|].
    pose proof (pos_INR (length ring)). nra.
Qed.

Lemma MapScript_perimeter_bounds_witness :
  exists km,
    MapScript.calculatePolygonPerimeter flat = Finite km /\
    0 <= km <= INR (length flat) * 12742.
Proof.
  apply (MapScript_perimeter_bounds flat 0).
  - left. unfold flat, lat. repeat constructor; cbn [fst]; lra.
  - unfold flat, lng. repeat constructor; cbn [snd]; lra.
Defined.

(** ** Bounding box and centroid *)

Lemma calculateBoundingBox_None (points : list point) :
  MapScript.calculateBoundingBox points = None <-> points = [].
Proof.
  unfold MapScript.calculateBoundingBox. destruct points as [|p0 rest].
  - split; reflexivity.
  - rewrite bbox_fold. cbv beta iota. split; discriminate.
Qed.

(** X5. The bounding box of a non-empty vertex list is the smallest box
    around it: every vertex lies inside, each of the four bounds is a
    coordinate of some vertex, and width and height are not negative; the
    result is null exactly for the empty list. *)
Theorem calculateBoundingBox_smallest (points : list point) :
  (MapScript.calculateBoundingBox points = None <-> points = []) /\
  forall bbox, MapScript.calculateBoundingBox points = Some bbox ->
    Forall (fun p => MapScript.minLat bbox <= lat p <= MapScript.maxLat bbox /\
                     MapScript.minLng bbox <= lng p <= MapScript.maxLng bbox)
      points /\
    (exists p, In p points /\ lat p = MapScript.minLat bbox) /\
    (exists p, In p points /\ lat p = MapScript.maxLat bbox) /\
    (exists p, In p points /\ lng p = MapScript.minLng bbox) /\
    (exists p, In p points /\ lng p = MapScript.maxLng bbox) /\
    0 <= MapScript.width bbox /\ 0 <= MapScript.height bbox.
Proof.
  split; [apply calculateBoundingBox_None|].
  intros bbox E.
  destruct (calculateBoundingBox_encloses points bbox E) as [Hin [Hw Hh]].
  destruct (calculateBoundingBox_attained points bbox E)
    as [H1 [H2 [H3 H4]]].
  rewrite in_map_iff in H1, H2, H3, H4.
  destruct H1 as [p1 [E1 I1]]. destruct H2 as [p2 [E2 I2]].
  destruct H3 as [p3 [E3 I3]]. destruct H4 as [p4 [E4 I4]].
  split; [exact Hin|].
  split; [exists p1; auto|]. split; [exists p2; auto|].
  split; [exists p3; auto|]. split; [exists p4; auto|].
  rewrite Forall_forall in Hin.
  pose proof (Hin p2 I2) as [Ha _]. pose proof (Hin p4 I4) as [_ Hb].
  rewrite Hw, Hh. lra.
Qed.

Lemma calculateBoundingBox_smallest_witness :
  let bbox := MapScript.mkBoundingBox 0 0 0 2 (2 - 0) (0 - 0) in
  Forall (fun p => MapScript.minLat bbox <= lat p <= MapScript.maxLat bbox /\
                   MapScript.minLng bbox <= lng p <= MapScript.maxLng bbox)
    flat /\
  (exists p, In p flat /\ lat p = MapScript.minLat bbox) /\
  (exists p, In p flat /\ lat p = MapScript.maxLat bbox) /\
  (exists p, In p flat /\ lng p = MapScript.minLng bbox) /\
  (exists p, In p flat /\ lng p = MapScript.maxLng bbox) /\
  0 <= MapScript.width bbox /\ 0 <= MapScript.height bbox.
Proof.
  exact (proj2 (calculateBoundingBox_smallest flat) _ calculateBoundingBox_flat).
Defined.

Lemma centroid_fold (points : list point) (x y : R) :
  fold_left MapScript.centroid_step points (x, y)
  = (x + Rsum (map lng points), y + Rsum (map lat points)).
Proof.
  revert x y; induction points as [|p points IH]; intros x y.
  - simpl. f_equal; lra.
  - simpl. rewrite IH. f_equal; lra.
Qed.

Lemma calculateCentroid_mean (points : list point) :
  MapScript.calculateCentroid points
  = match points with
    | [] => None
    | _ :: _ => Some (Rsum (map lat points) / INR (length points),
                      Rsum (map lng points) / INR (length points))
    end.
Proof.
  unfold MapScript.calculateCentroid. destruct points as [|p rest]; [reflexivity|].
  rewrite centroid_fold. cbv beta iota. rewrite !Rplus_0_l. reflexivity.
Qed.

Lemma Rsum_between (lo hi : R) (xs : list R) :
  Forall (fun x => lo <= x <= hi) xs ->
  lo * INR (length xs) <= Rsum xs <= hi * INR (length xs).
Proof.
  induction 1 as [|x xs Hx _ IH].
  - simpl. lra.
  - change (length (x :: xs)) with (S (length xs)). rewrite S_INR.
    simpl Rsum. lra.
Qed.

Lemma mean_between (lo hi : R) (xs : list R) :
  xs <> [] -> Forall (fun x => lo <= x <= hi) xs ->
  lo <= Rsum xs / INR (length xs) <= hi.
Proof.
  intros Hne HF. pose proof (Rsum_between lo hi xs HF) as [Ha Hb].
  assert (Hpos : 0 < INR (length xs)).
  { apply lt_0_INR. destruct xs; [contradiction | simpl; lia]. }
  split.
  - apply Rmult_le_reg_r with (INR (length xs)); [exact Hpos|].
    unfold Rdiv. rewrite Rmult_assoc, Rinv_l by lra. lra.
  - apply Rmult_le_reg_r with (INR (length xs)); [exact Hpos|].
    unfold Rdiv. rewrite Rmult_assoc, Rinv_l by lra. lra.
Qed.

(** X6. The centroid is null exactly for the empty list.  For up to a
    million vertices of the data model it lies inside the bounding box of
    the list widened by a millionth of a degree on each side; the margin
    covers the rounding of the sums. *)
Theorem calculateCentroid_inside_bounding_box (points : list point) :
  (MapScript.calculateCentroid points = None <-> points = []) /\
  (Forall Vertex points -> (Z.of_nat (length points) <= 1000000)%Z ->
   forall centroid bbox,
     MapScript.calculateCentroid points = Some centroid ->
     MapScript.calculateBoundingBox points = Some bbox ->
     MapScript.minLat bbox - 1 / 1000000 <= lat centroid
       <= MapScript.maxLat bbox + 1 / 1000000 /\
     MapScript.minLng bbox - 1 / 1000000 <= lng centroid
       <= MapScript.maxLng bbox + 1 / 1000000).
Proof.
  rewrite calculateCentroid_mean. split.
  - destruct points; split; (reflexivity || discriminate).
  - intros _ _ centroid bbox Ec Eb.
    destruct (calculateBoundingBox_encloses points bbox Eb) as [Hin _].
    destruct points as [|p rest]; [discriminate|].
    set (points := p :: rest) in *.
    assert (Hlat : MapScript.minLat bbox
                   <= Rsum (map lat points) / INR (length (map lat points))
                   <= MapScript.maxLat bbox).
    { apply mean_between; [discriminate|]. rewrite Forall_map.
      revert Hin. apply Forall_impl. intros q [H1 H2]. exact H1. }
    assert (Hlng : MapScript.minLng bbox
                   <= Rsum (map lng points) / INR (length (map lng points))
                   <= MapScript.maxLng bbox).
    { apply mean_between; [discriminate|]. rewrite Forall_map.
      revert Hin. apply Forall_impl. intros q [H1 H2]. exact H2. }
    rewrite length_map in Hlat, Hlng.
    assert (Hwide : forall lo a hi : R,
              lo <= a <= hi -> lo - 1 / 1000000 <= a <= hi + 1 / 1000000)
      by (intros; lra).
    injection Ec as <-. split; apply Hwide; assumption.
Qed.

Lemma calculateCentroid_inside_bounding_box_witness :
  let bbox := MapScript.mkBoundingBox 0 0 0 2 (2 - 0) (0 - 0) in
  MapScript.minLat bbox - 1 / 1000000 <= lat (0 / 3, 3 / 3)
    <= MapScript.maxLat bbox + 1 / 1000000 /\
  MapScript.minLng bbox - 1 / 1000000 <= lng (0 / 3, 3 / 3)
    <= MapScript.maxLng bbox + 1 / 1000000.
Proof.
  refine (proj2 (calculateCentroid_inside_bounding_box flat) _ _ _ _ _
            calculateBoundingBox_flat).
  - unfold flat, Vertex, lat, lng. repeat constructor; cbn [fst snd]; lra.
  - cbn [flat length]. lia.
  - rewrite calculateCentroid_mean. unfold flat.
    cbn [map lat lng fst snd Rsum fold_right length INR].
    apply f_equal. apply injective_projections; cbn [fst snd]; lra.
Defined.

Lemma BoundingBox_eq (b b' : MapScript.BoundingBox) :
  MapScript.minLat b = MapScript.minLat b' ->
  MapScript.maxLat b = MapScript.maxLat b' ->
  MapScript.minLng b = MapScript.minLng b' ->
  MapScript.maxLng b = MapScript.maxLng b' ->
  MapScript.width b = MapScript.width b' ->
  MapScript.height b = MapScript.height b' ->
  b = b'.
Proof.
  destruct b, b'. simpl. intros -> -> -> -> -> ->. reflexivity.
Qed.

Lemma calculateBoundingBox_Permutation (points points' : list point) :
  Permutation points points' ->
  MapScript.calculateBoundingBox points = MapScript.calculateBoundingBox points'.
Proof.
  intros HP.
  destruct (MapScript.calculateBoundingBox points) as [b|] eqn:E;
    destruct (MapScript.calculateBoundingBox points') as [b'|] eqn:E'.
  - f_equal.
    destruct (calculateBoundingBox_encloses _ _ E) as [Hin [Hw Hh]].
    destruct (calculateBoundingBox_encloses _ _ E') as [Hin' [Hw' Hh']].
    destruct (calculateBoundingBox_attained _ _ E) as [H1 [H2 [H3 H4]]].
    destruct (calculateBoundingBox_attained _ _ E') as [H1' [H2' [H3' H4']]].
    rewrite in_map_iff in H1, H2, H3, H4, H1', H2', H3', H4'.
    rewrite Forall_forall in Hin, Hin'.
    destruct H1 as [p1 [E1 I1]]. destruct H2 as [p2 [E2 I2]].
    destruct H3 as [p3 [E3 I3]]. destruct H4 as [p4 [E4 I4]].
    destruct H1' as [q1 [F1 J1]]. destruct H2' as [q2 [F2 J2]].
    destruct H3' as [q3 [F3 J3]]. destruct H4' as [q4 [F4 J4]].
    pose proof (Hin' p1 (Permutation_in _ HP I1)).
    pose proof (Hin' p2 (Permutation_in _ HP I2)).
    pose proof (Hin' p3 (Permutation_in _ HP I3)).
    pose proof (Hin' p4 (Permutation_in _ HP I4)).
    pose proof (Hin q1 (Permutation_in _ (Permutation_sym HP) J1)).
    pose proof (Hin q2 (Permutation_in _ (Permutation_sym HP) J2)).
    pose proof (Hin q3 (Permutation_in _ (Permutation_sym HP) J3)).
    pose proof (Hin q4 (Permutation_in _ (Permutation_sym HP) J4)).
    assert (A1 : MapScript.minLat b = MapScript.minLat b') by lra.
    assert (A2 : MapScript.maxLat b = MapScript.maxLat b') by lra.
    assert (A3 : MapScript.minLng b = MapScript.minLng b') by lra.
    assert (A4 : MapScript.maxLng b = MapScript.maxLng b') by lra.
    apply BoundingBox_eq; try assumption; lra.
  - apply calculateBoundingBox_None in E'. subst points'.
    apply Permutation_sym, Permutation_nil in HP. subst points. discriminate.
  - apply calculateBoundingBox_None in E. subst points.
    apply Permutation_nil in HP. subst points'. discriminate.
  - reflexivity.
Qed.

(** X7. Bounding box and aspect ratio depend on the vertices only, not on
    their order: two lists with the same vertices in any order give the
    same two results. *)
Theorem measurements_order_independent (points points' : list point) :
  Permutation points points' ->
  MapScript.calculateBoundingBox points = MapScript.calculateBoundingBox points' /\
  MapScript.calculateAspectRatio points = MapScript.calculateAspectRatio points'.
Proof.
  intros HP. split.
  - apply calculateBoundingBox_Permutation, HP.
  - unfold MapScript.calculateAspectRatio.
    rewrite (calculateBoundingBox_Permutation _ _ HP). reflexivity.
Qed.

Lemma measurements_order_independent_witness :
  MapScript.calculateBoundingBox band = MapScript.calculateBoundingBox (rev band) /\
  MapScript.calculateAspectRatio band = MapScript.calculateAspectRatio (rev band).
Proof.
  apply (measurements_order_independent band (rev band)).
  apply Permutation_rev.
Defined.

(** ** The caches as memo tables *)

Lemma Part000_area_cached_after (cache : Map R) (points : list point) :
  (length points < 3)%nat \/
  Map_get (snd (Part000.calculatePolygonArea cache points)) (cacheKey points)
  = Some (fst (Part000.calculatePolygonArea cache points)).
Proof.
  unfold Part000.calculatePolygonArea.
  destruct (Nat.ltb_spec (length points) 3) as [Hn|Hn]; [left; exact Hn|].
  right.
  destruct (Map_get cache (cacheKey points)) as [cached|] eqn:E;
    cbn [fst snd]; [exact E | apply Part000_store_get].
Qed.

Lemma Part000_perimeter_cached_after (cache : Map number) (points : list point) :
  (length points < 2)%nat \/
  Map_get (snd (Part000.calculatePolygonPerimeter cache points)) (cacheKey points)
  = Some (fst (Part000.calculatePolygonPerimeter cache points)).
Proof.
  unfold Part000.calculatePolygonPerimeter.
  destruct (Nat.ltb_spec (length points) 2) as [Hn|Hn]; [left; exact Hn|].
  right.
  destruct (Map_get cache (cacheKey points)) as [cached|] eqn:E;
    cbn [fst snd]; [exact E | apply Part000_store_get].
Qed.

(** X8. A measurement of part_000 is memoised: calling the area or the
    perimeter function again on the same vertex list, with the cache the
    first call left, returns the same value and leaves the cache unchanged;
    from three (two) vertices on, the value is then cached under the
    signature of the list. *)
Theorem Part000_measurements_memoised
    (areaCache : Map R) (perimeterCache : Map number) (points : list point) :
  let a := Part000.calculatePolygonArea areaCache points in
  let p := Part000.calculatePolygonPerimeter perimeterCache points in
  Part000.calculatePolygonArea (snd a) points = a /\
  Part000.calculatePolygonPerimeter (snd p) points = p /\
  ((length points < 3)%nat \/
   Map_get (snd a) (cacheKey points) = Some (fst a)) /\
  ((length points < 2)%nat \/
   Map_get (snd p) (cacheKey points) = Some (fst p)).
Proof.
  cbv zeta.
  unfold Part000.calculatePolygonArea, Part000.calculatePolygonPerimeter.
  split; [|split; [|split]].
  - destruct (Nat.ltb_spec (length points) 3) as [Hn|Hn]; [reflexivity|].
    destruct (Map_get areaCache (cacheKey points)) as [cached|] eqn:E;
      cbn [fst snd].
    + rewrite E. reflexivity.
    + rewrite Part000_store_get. reflexivity.
  - destruct (Nat.ltb_spec (length points) 2) as [Hn|Hn]; [reflexivity|].
    destruct (Map_get perimeterCache (cacheKey points)) as [cached|] eqn:E;
      cbn [fst snd].
    + rewrite E. reflexivity.
    + rewrite Part000_store_get. reflexivity.
  - apply Part000_area_cached_after.
  - apply Part000_perimeter_cached_after.
Qed.

Lemma Int_part_floor (x : R) (z : Z) :
  IZR z <= x < IZR z + 1 -> Int_part x = z.
Proof.
  intros [H1 H2]. symmetry. apply Int_part_spec. lra.
Qed.

Lemma toFixed6_nonneg (x : R) (z : Z) :
  0 <= x -> IZR z <= x * 1000000 + / 2 < IZR z + 1 ->
  toFixed6 x = decimal6 false z.
Proof.
  intros H0 Hz. unfold toFixed6.
  destruct (Rlt_dec x 0); [lra|]. rewrite (Int_part_floor _ z Hz). reflexivity.
Qed.

Lemma toFixed6_neg (x : R) (z : Z) :
  x < 0 -> IZR z <= - x * 1000000 + / 2 < IZR z + 1 ->
  toFixed6 x = decimal6 true z.
Proof.
  intros H0 Hz. unfold toFixed6.
  destruct (Rlt_dec x 0); [|lra]. rewrite (Int_part_floor _ z Hz). reflexivity.
Qed.

Lemma cacheKey_band_widened : cacheKey band_widened = cacheKey band.
Proof.
  unfold cacheKey, band_widened, band. cbn [map fst snd].
  rewrite (toFixed6_nonneg 1.0000001 1000000) by (simpl; lra).
  rewrite (toFixed6_nonneg 1 1000000) by (simpl; lra).
  reflexivity.
Qed.

(** X9. The caches are keyed by the six-decimal signature, not by the
    vertex list: after a ring has been measured, a second ring with the
    same signature gets the area cached for the first one. *)
Theorem Part000_area_same_signature
    (cache : Map R) (ring ring' : list point) :
  (3 <= length ring)%nat -> (3 <= length ring')%nat ->
  cacheKey ring = cacheKey ring' ->
  fst (Part000.calculatePolygonArea
         (snd (Part000.calculatePolygonArea cache ring)) ring')
  = fst (Part000.calculatePolygonArea cache ring).
Proof.
  intros Hn Hn' Hkey.
  pose proof (Part000_area_cached_after cache ring) as H.
  destruct H as [H|H]; [lia|].
  unfold Part000.calculatePolygonArea at 1.
  destruct (Nat.ltb_spec (length ring') 3) as [|_]; [lia|].
  rewrite <- Hkey, H. reflexivity.
Qed.

Lemma Part000_area_same_signature_witness :
  fst (Part000.calculatePolygonArea
         (snd (Part000.calculatePolygonArea [] band)) band_widened)
  = fst (Part000.calculatePolygonArea [] band) /\
  MapScript.calculatePolygonArea band_widened
  <> MapScript.calculatePolygonArea band.
Proof.
  split.
  - apply (Part000_area_same_signature [] band band_widened).
    + simpl. lia.
    + simpl. lia.
    + symmetry. exact cacheKey_band_widened.
  - rewrite !MapScript_area_formula. unfold area_formula, band_widened, band.
    cbn [length Nat.ltb Nat.leb].
    unfold shoelace_sum, mean_latitude, successor_pairs.
    cbn [tl firstn app combine map lat lng fst snd Rsum fold_right length INR].
    replace (1 + 1 + 1 + 1) with 4 by lra.
    replace ((-1 + (-1 + (1 + (1 + 0)))) / 4 * PI / 180) with 0 by lra.
    rewrite cos_0.
    rewrite !Rabs_pos_eq by lra. lra.
Defined.

Section CacheContents.
Context {V : Type}.
Implicit Types (m cache : Map V) (key : string) (value : V).

Lemma Map_get_In m key value :
  Map_get m key = Some value -> In (key, value) m.
Proof.
  induction m as [|[k v] m IH]; simpl; [discriminate|].
  destruct (String.eqb k key) eqn:E.
  - apply String.eqb_eq in E. subst k. intros [= ->]. left. reflexivity.
  - intros H. right. apply IH, H.
Qed.

Lemma Forall_Map_set (P : string * V -> Prop) m key value :
  Forall P m -> P (key, value) -> Forall P (Map_set m key value).
Proof.
  intros HF HP. induction HF as [|[k v] m Hkv HF IH]; simpl.
  - constructor; [exact HP | constructor].
  - destruct (String.eqb k key) eqn:E.
    + apply String.eqb_eq in E. subst k. constructor; assumption.
    + constructor; assumption.
Qed.

Lemma Forall_skipn_list {A : Type} (P : A -> Prop) (j : nat) (l : list A) :
  Forall P l -> Forall P (skipn j l).
Proof.
  revert l; induction j as [|j IH]; intros l HF; [exact HF|].
  destruct HF; [constructor | apply IH; assumption].
Qed.

Lemma Forall_Part000_store (P : string * V -> Prop) cache key value :
  Forall P cache -> P (key, value) -> Forall P (Part000.store cache key value).
Proof.
  intros HF HP. unfold Part000.store.
  destruct (Map_size cache <? 50)%nat.
  - apply Forall_Map_set; assumption.
  - rewrite Map_delete_firstn. apply Forall_Map_set; [|exact HP].
    apply Forall_skipn_list, HF.
Qed.

Lemma cached_from_more (compute : list point -> V) (minimum : nat)
    (calls calls' : list (list point)) cache :
  incl calls calls' ->
  cached_from compute minimum calls cache ->
  cached_from compute minimum calls' cache.
Proof.
  intros Hincl. unfold cached_from. apply Forall_impl.
  intros entry [ring [Hin H]]. exists ring. split; [apply Hincl, Hin | exact H].
Qed.
End CacheContents.

Lemma area_cache_after_contents (calls : list (list point)) :
  cached_from Part000.computeArea 3 calls (area_cache_after calls) /\
  (Map_size (area_cache_after calls) <= 50)%nat.
Proof.
  induction calls as [|points calls [IH IHsize]] using rev_ind.
  - split; [constructor | simpl; lia].
  - unfold area_cache_after in *. rewrite fold_left_app. cbn [fold_left].
    split; [|apply Part000_area_size, IHsize].
    apply (cached_from_more _ _ calls (calls ++ [points])) in IH;
      [|intros r Hr; apply in_or_app; left; exact Hr].
    unfold Part000.calculatePolygonArea.
    destruct (Nat.ltb_spec (length points) 3) as [Hn|Hn]; [exact IH|].
    destruct (Map_get _ (cacheKey points)); [exact IH|].
    cbn [snd]. apply Forall_Part000_store; [exact IH|].
    exists points. cbn [fst snd].
    split; [apply in_or_app; right; left; reflexivity|].
    split; [exact Hn|]. split; reflexivity.
Qed.

Lemma perimeter_cache_after_contents (calls : list (list point)) :
  cached_from Part000.computePerimeter 2 calls (perimeter_cache_after calls) /\
  (Map_size (perimeter_cache_after calls) <= 50)%nat.
Proof.
  induction calls as [|points calls [IH IHsize]] using rev_ind.
  - split; [constructor | simpl; lia].
  - unfold perimeter_cache_after in *. rewrite fold_left_app. cbn [fold_left].
    split; [|apply Part000_perimeter_size, IHsize].
    apply (cached_from_more _ _ calls (calls ++ [points])) in IH;
      [|intros r Hr; apply in_or_app; left; exact Hr].
    unfold Part000.calculatePolygonPerimeter.
    destruct (Nat.ltb_spec (length points) 2) as [Hn|Hn]; [exact IH|].
    destruct (Map_get _ (cacheKey points)); [exact IH|].
    cbn [snd]. apply Forall_Part000_store; [exact IH|].
    exists points. cbn [fst snd].
    split; [apply in_or_app; right; left; reflexivity|].
    split; [exact Hn|]. split; reflexivity.
Qed.

(** X10. Whatever measurements were made before, starting from the empty
    caches of a freshly loaded page, the caches of part_000 hold at most 50
    entries, and the area returned for a list of three or more vertices is
    the Shoelace area of that list or of an earlier measured list with the
    same six-decimal signature; below three vertices it is 0.  Likewise the
    perimeter is the computed perimeter of the list or of an earlier list
    with the same signature, and 0 below two vertices. *)
Theorem Part000_results_after_any_history
    (calls : list (list point)) (points : list point) :
  let areaCache := area_cache_after calls in
  let perimeterCache := perimeter_cache_after calls in
  (Map_size areaCache <= 50)%nat /\
  (Map_size perimeterCache <= 50)%nat /\
  ((length points < 3)%nat /\
   fst (Part000.calculatePolygonArea areaCache points) = 0 \/
   exists ring,
     In ring (points :: calls) /\ (3 <= length ring)%nat /\
     cacheKey ring = cacheKey points /\
     fst (Part000.calculatePolygonArea areaCache points) = area_formula ring) /\
  ((length points < 2)%nat /\
   fst (Part000.calculatePolygonPerimeter perimeterCache points) = Finite 0 \/
   exists ring,
     In ring (points :: calls) /\ (2 <= length ring)%nat /\
     cacheKey ring = cacheKey points /\
     fst (Part000.calculatePolygonPerimeter perimeterCache points)
     = Part000.computePerimeter ring).
Proof.
  cbv zeta.
  destruct (area_cache_after_contents calls) as [Ha Hasize].
  destruct (perimeter_cache_after_contents calls) as [Hp Hpsize].
  split; [exact Hasize|]. split; [exact Hpsize|]. split.
  - unfold Part000.calculatePolygonArea.
    destruct (Nat.ltb_spec (length points) 3) as [Hn|Hn];
      [left; split; [exact Hn | reflexivity]|].
    right.
    destruct (Map_get (area_cache_after calls) (cacheKey points))
      as [cached|] eqn:E; cbn [fst].
    + apply Map_get_In in E. unfold cached_from in Ha.
      rewrite Forall_forall in Ha.
      destruct (Ha _ E) as [ring [Hin [Hlen [Hkey Hval]]]].
      cbn [fst snd] in Hkey, Hval.
      exists ring. split; [right; exact Hin|]. split; [exact Hlen|].
      split; [exact Hkey|]. rewrite Hval.
      apply Part000_computeArea_formula, Hlen.
    + exists points. split; [left; reflexivity|]. split; [exact Hn|].
      split; [reflexivity|]. apply Part000_computeArea_formula, Hn.
  - unfold Part000.calculatePolygonPerimeter.
    destruct (Nat.ltb_spec (length points) 2) as [Hn|Hn];
      [left; split; [exact Hn | reflexivity]|].
    right.
    destruct (Map_get (perimeter_cache_after calls) (cacheKey points))
      as [cached|] eqn:E; cbn [fst].
    + apply Map_get_In in E. unfold cached_from in Hp.
      rewrite Forall_forall in Hp.
      destruct (Hp _ E) as [ring [Hin [Hlen [Hkey Hval]]]].
      cbn [fst snd] in Hkey, Hval.
      exists ring. split; [right; exact Hin|]. split; [exact Hlen|].
      split; [exact Hkey|]. exact Hval.
    + exists points. split; [left; reflexivity|]. split; [exact Hn|].
      split; reflexivity.
Qed.

(** ** Area and cache together *)

Lemma area_cache_after_single (ring : list point) :
  (3 <= length ring)%nat ->
  area_cache_after [ring] = [(cacheKey ring, Part000.computeArea ring)].
Proof.
  intros Hn. unfold area_cache_after. cbn [fold_left].
  unfold Part000.calculatePolygonArea.
  destruct (Nat.ltb_spec (length ring) 3) as [|_]; [lia|]. reflexivity.
Qed.

Lemma Map_get_single {V : Type} (k key : string) (v : V) :
  Map_get [(k, v)] key = if String.eqb k key then Some v else None.
Proof. reflexivity. Qed.

Lemma cacheKey_octant_band :
  String.eqb (cacheKey octant) (cacheKey band) = false /\
  String.eqb (cacheKey octant) (cacheKey (rev band)) = false /\
  String.eqb (cacheKey band) (cacheKey octant) = false.
Proof.
  change octant with (of_Z [(90, 0); (0, 0); (0, 180)]%Z).
  change band with (of_Z [(-1, 0); (-1, 1); (1, 1); (1, 0)]%Z).
  change (rev (of_Z [(-1, 0); (-1, 1); (1, 1); (1, 0)]%Z))
    with (of_Z [(1, 0); (1, 1); (-1, 1); (-1, 0)]%Z).
  rewrite !cacheKey_of_Z. repeat split; vm_compute; reflexivity.
Qed.

Lemma area_formula_band_widened :
  area_formula band_widened <> area_formula band.
Proof.
  unfold area_formula, band_widened, band.
  cbn [length Nat.ltb Nat.leb].
  unfold shoelace_sum, mean_latitude, successor_pairs.
  cbn [tl firstn app combine map lat lng fst snd Rsum fold_right length INR].
  replace (1 + 1 + 1 + 1) with 4 by lra.
  replace ((-1 + (-1 + (1 + (1 + 0)))) / 4 * PI / 180) with 0 by lra.
  rewrite cos_0.
  rewrite !Rabs_pos_eq by lra. lra.
Qed.

(** C1.  The function of map-script.js returns 0 below three vertices and
    the Shoelace formula from three vertices on.  The cached function of
    part_000, after any earlier calls on a page that started with an empty
    cache, returns 0 below three vertices; from three vertices on it returns
    the formula of the list when the signature of the list is not cached,
    and otherwise the value cached under the signature, which is the formula
    of an earlier list with the same signature. *)
Theorem area_shoelace_formula (points : list point) (calls : list (list point)) :
  MapScript.calculatePolygonArea points = area_formula points /\
  ((length points < 3)%nat ->
   MapScript.calculatePolygonArea points = 0 /\
   fst (Part000.calculatePolygonArea (area_cache_after calls) points) = 0) /\
  ((3 <= length points)%nat ->
   (Map_get (area_cache_after calls) (cacheKey points) = None ->
    fst (Part000.calculatePolygonArea (area_cache_after calls) points)
    = area_formula points) /\
   (forall cached,
      Map_get (area_cache_after calls) (cacheKey points) = Some cached ->
      fst (Part000.calculatePolygonArea (area_cache_after calls) points)
      = cached /\
      exists ring,
        In ring calls /\ (3 <= length ring)%nat /\
        cacheKey ring = cacheKey points /\ cached = area_formula ring)).
Proof.
  split; [apply MapScript_area_formula|]. split.
  - intros Hn. split.
    + unfold MapScript.calculatePolygonArea.
      destruct (Nat.ltb_spec (length points) 3); [reflexivity | lia].
    + unfold Part000.calculatePolygonArea.
      destruct (Nat.ltb_spec (length points) 3); [reflexivity | lia].
  - intros Hn. split.
    + intros Hmiss. apply Part000_area_miss. left. exact Hmiss.
    + intros cached Hhit.
      rewrite (Part000_area_hit _ _ _ Hn Hhit). split; [reflexivity|].
      destruct (area_cache_after_contents calls) as [Ha _].
      apply Map_get_In in Hhit. unfold cached_from in Ha.
      rewrite Forall_forall in Ha.
      destruct (Ha _ Hhit) as [ring [Hin [Hlen [Hkey Hval]]]].
      cbn [fst snd] in Hkey, Hval.
      exists ring. split; [exact Hin|]. split; [exact Hlen|].
      split; [exact Hkey|]. rewrite Hval.
      apply Part000_computeArea_formula, Hlen.
Qed.

Lemma area_shoelace_formula_witness :
  MapScript.calculatePolygonArea octant = area_formula octant /\
  fst (Part000.calculatePolygonArea (area_cache_after [band]) octant)
  = area_formula octant /\
  (fst (Part000.calculatePolygonArea (area_cache_after [band]) band_widened)
   = Part000.computeArea band /\
   exists ring,
     In ring [band] /\ (3 <= length ring)%nat /\
     cacheKey ring = cacheKey band_widened /\
     Part000.computeArea band = area_formula ring).
Proof.
  assert (Hoctant : (3 <= length octant)%nat) by (simpl; lia).
  assert (Hwidened : (3 <= length band_widened)%nat) by (simpl; lia).
  split; [exact (proj1 (area_shoelace_formula octant []))|]. split.
  - apply (proj1 (proj2 (proj2 (area_shoelace_formula octant [band])) Hoctant)).
    rewrite (area_cache_after_single band) by (simpl; lia).
    rewrite Map_get_single, (proj2 (proj2 cacheKey_octant_band)). reflexivity.
  - apply (proj2 (proj2 (proj2 (area_shoelace_formula band_widened [band]))
                    Hwidened)).
    rewrite (area_cache_after_single band) by (simpl; lia).
    rewrite Map_get_single, cacheKey_band_widened, String.eqb_refl. reflexivity.
Defined.

(** Against the formula for every list: measured after [band], the widened
    rectangle has three or more vertices and gets the area of [band], which
    is not the value of the formula for it. *)
Lemma area_of_cached_signature :
  (3 <= length band_widened)%nat /\
  fst (Part000.calculatePolygonArea (area_cache_after [band]) band_widened)
  = area_formula band /\
  area_formula band_widened <> area_formula band.
Proof.
  split; [simpl; lia|]. split; [|exact area_formula_band_widened].
  assert (Hhit : Map_get (area_cache_after [band]) (cacheKey band_widened)
                 = Some (Part000.computeArea band)).
  { rewrite (area_cache_after_single band) by (simpl; lia).
    rewrite Map_get_single, cacheKey_band_widened, String.eqb_refl.
    reflexivity. }
  assert (Hn : (3 <= length band_widened)%nat) by (simpl; lia).
  rewrite (Part000_area_hit _ _ _ Hn Hhit).
  apply Part000_computeArea_formula. simpl. lia.
Qed.

(** ** Orientation *)

Lemma Map_set_other_absent {V : Type} (m : Map V) (key key' : string) (value : V) :
  String.eqb key key' = false -> Map_get m key' = None ->
  Map_get (Map_set m key value) key' = None.
Proof.
  intros Hk. induction m as [|[k v] m IH]; simpl.
  - intros _. rewrite Hk. reflexivity.
  - destruct (String.eqb k key') eqn:E1; [discriminate|].
    intros Hm. destruct (String.eqb k key) eqn:E2; simpl; rewrite E1.
    + exact Hm.
    + apply IH, Hm.
Qed.

Lemma Part000_store_other_absent {V : Type} (cache : Map V) (key key' : string)
    (value : V) :
  String.eqb key key' = false -> Map_get cache key' = None ->
  Map_get (Part000.store cache key value) key' = None.
Proof.
  intros Hk Hm. unfold Part000.store.
  destruct (Map_size cache <? 50)%nat.
  - apply Map_set_other_absent; assumption.
  - rewrite Map_delete_firstn. apply Map_set_other_absent; [exact Hk|].
    apply Map_get_skipn_None, Hm.
Qed.

(** C8.  The area of a ring is at least 0, and the area of the ring and
    the area of the reversed vertex list are the same real number, the
    formula of the ring: reversal changes the sign of the Shoelace sum and
    keeps the mean latitude.  Stated for the function of map-script.js, and
    for the cached function of part_000 called on the ring and then, with
    the cache this call left, on the reversed list, when neither signature
    is cached before the first call. *)
Theorem area_nonneg_orientation_independent
    (ring : list point) (cache : Map R) :
  Ring ring ->
  Map_get cache (cacheKey ring) = None ->
  Map_get cache (cacheKey (rev ring)) = None ->
  let first_call := Part000.calculatePolygonArea cache ring in
  let second_call := Part000.calculatePolygonArea (snd first_call) (rev ring) in
  (0 <= MapScript.calculatePolygonArea ring /\
   MapScript.calculatePolygonArea ring = area_formula ring /\
   MapScript.calculatePolygonArea (rev ring) = area_formula ring) /\
  (0 <= fst first_call /\
   fst first_call = area_formula ring /\
   fst second_call = area_formula ring).
Proof.
  intros [Hn HV] H1 H2. cbv zeta.
  assert (Hfirst : fst (Part000.calculatePolygonArea cache ring)
                   = area_formula ring)
    by (apply Part000_area_miss; left; exact H1).
  split.
  - rewrite !MapScript_area_formula, area_formula_rev.
    split; [apply area_formula_nonneg, HV | split; reflexivity].
  - rewrite Hfirst. split; [apply area_formula_nonneg, HV|].
    split; [reflexivity|].
    destruct (String.eqb (cacheKey ring) (cacheKey (rev ring))) eqn:E.
    + apply String.eqb_eq in E.
      destruct (Part000_area_cached_after cache ring) as [Hlt|Hhit]; [lia|].
      rewrite E, Hfirst in Hhit.
      assert (Hrev : (3 <= length (rev ring))%nat) by (rewrite length_rev; exact Hn).
      rewrite (Part000_area_hit _ _ _ Hrev Hhit). reflexivity.
    + rewrite Part000_area_miss; [apply area_formula_rev|]. left.
      rewrite (Part000_area_store cache ring Hn H1).
      apply Part000_store_other_absent; assumption.
Qed.

Lemma area_nonneg_orientation_independent_witness :
  let cache := area_cache_after [octant] in
  let first_call := Part000.calculatePolygonArea cache band in
  let second_call := Part000.calculatePolygonArea (snd first_call) (rev band) in
  (0 <= MapScript.calculatePolygonArea band /\
   MapScript.calculatePolygonArea band = area_formula band /\
   MapScript.calculatePolygonArea (rev band) = area_formula band) /\
  (0 <= fst first_call /\
   fst first_call = area_formula band /\
   fst second_call = area_formula band).
Proof.
  apply (area_nonneg_orientation_independent band (area_cache_after [octant])).
  - exact band_Ring.
  - rewrite (area_cache_after_single octant) by (simpl; lia).
    rewrite Map_get_single, (proj1 cacheKey_octant_band). reflexivity.
  - rewrite (area_cache_after_single octant) by (simpl; lia).
    rewrite Map_get_single, (proj1 (proj2 cacheKey_octant_band)). reflexivity.
Defined.

(** Against the equality of the two results in the arithmetic of the code:
    on binary64 the function of map-script.js returns 53162.29089600001 for
    the triangle [skew] and 53162.290896 for its reversal. *)
Lemma area_of_reversal_in_binary64 :
  MapScript64.calculatePolygonArea MapScript64.skew
  = Some MapScript64.area_skew /\
  MapScript64.calculatePolygonArea (rev MapScript64.skew)
  = Some MapScript64.area_skew_reversed /\
  MapScript64.calculatePolygonArea (rev MapScript64.skew)
  <> MapScript64.calculatePolygonArea MapScript64.skew.
Proof.
  split; [vm_compute; reflexivity|]. split; [vm_compute; reflexivity|].
  vm_compute. discriminate.
Qed.

(** ** The transforms of the coordinate checker *)

Lemma minna_point_longitude (coord : point) :
  180 < lng (Part000.minna_point coord).
Proof.
  unfold Part000.minna_point, inverse_mercator, lng. cbv zeta. cbn [snd fst].
  match goal with
  | |- context [Math_atan2 ?a ?b] =>
      pose proof (Math_atan2_bounds a b) as [Hlo _];
      generalize dependent (Math_atan2 a b)
  end.
  intros angle Hlo.
  pose proof PI_4 as Hpi4.
  pose proof (degrees_above_180 (9 + angle)) as H.
  assert (Hd : 180 < (9 + angle) * 180 / PI) by (apply H; lra).
  lra.
Qed.

(** X11. The Minna datum transform never succeeds: it returns null on
    every coordinate list, because the longitude it computes for a vertex
    is above 180 degrees whatever the vertex is. *)
Theorem tryConvertMinnaDatum_never_succeeds (coordinates : list point) :
  Part000.tryConvertMinnaDatum coordinates = None /\
  forall coord, 180 < lng (Part000.minna_point coord).
Proof.
  split; [apply tryConvertMinnaDatum_null | apply minna_point_longitude].
Qed.




(** A loop whose later parameters cannot make the first vertex plausible
    when the first parameter does not, succeeds with its first parameter or
    not at all. *)
Lemma first_plausible_largest (f : R -> point -> point) (param : R)
    (params : list R) (first : point) (rest out : list point) :
  (forall p, In p params ->
     plausible (f param first) = false -> plausible (f p first) = false) ->
  first_plausible f (param :: params) (first :: rest) = Normal (Some out) ->
  out = map (f param) (first :: rest).
Proof.
  intros Hmono H.
  destruct (plausible (f param first)) eqn:E.
  - rewrite (first_plausible_head f param params first rest E) in H.
    injection H as <-. reflexivity.
  - rewrite (first_plausible_skip f param params first rest E) in H.
    assert (Hnone : first_plausible f params (first :: rest) = Normal None).
    { apply first_plausible_None. intros p Hp. apply Hmono; auto. }
    rewrite Hnone in H. discriminate.
Qed.

Lemma Rabs_div_pos (x s : R) : 0 < s -> Rabs (x / s) = Rabs x / s.
Proof.
  intros Hs. unfold Rdiv. rewrite Rabs_mult, (Rabs_pos_eq (/ s)); [reflexivity|].
  left. apply Rinv_0_lt_compat, Hs.
Qed.

Lemma div_smaller_scale (a bound s s' : R) :
  0 <= a -> 0 <= bound -> 0 < s' -> s' <= s -> bound < a / s -> bound < a / s'.
Proof.
  intros Ha Hb Hs' Hs H.
  assert (Hpos : 0 < s) by lra.
  apply Rmult_lt_reg_r with s'; [exact Hs'|].
  unfold Rdiv. rewrite Rmult_assoc, Rinv_l by lra.
  assert (bound * s < a).
  { apply Rmult_lt_reg_r with (/ s); [apply Rinv_0_lt_compat; lra|].
    rewrite Rmult_assoc, Rinv_r by lra. unfold Rdiv in H. lra. }
  nra.
Qed.

Lemma scale_by_smaller (s s' : R) (p : point) :
  0 < s' -> s' <= s ->
  plausible (Part000.scale_by s p) = false ->
  plausible (Part000.scale_by s' p) = false.
Proof.
  intros Hs' Hs. rewrite !plausible_spec_false.
  unfold Part000.scale_by. cbn [fst snd].
  assert (Hpos : 0 < s) by lra.
  rewrite !Rabs_div_pos by assumption.
  intros [Hfar|Hfar]; [left | right];
    (eapply div_smaller_scale;
     [apply Rabs_pos | lra | exact Hs' | exact Hs | exact Hfar]).
Qed.

Lemma swap_scale_by_smaller (s s' : R) (p : point) :
  0 < s' -> s' <= s ->
  plausible (Part000.swap_scale_by s p) = false ->
  plausible (Part000.swap_scale_by s' p) = false.
Proof.
  intros Hs' Hs. rewrite !plausible_spec_false.
  unfold Part000.swap_scale_by. cbn [fst snd].
  assert (Hpos : 0 < s) by lra.
  rewrite !Rabs_div_pos by assumption.
  intros [Hfar|Hfar]; [left | right];
    (eapply div_smaller_scale;
     [apply Rabs_pos | lra | exact Hs' | exact Hs | exact Hfar]).
Qed.

Lemma scale_swap_by_is_swap_scale_by (s : R) (p : point) :
  Part000.scale_swap_by s p = Part000.swap_scale_by s p.
Proof. reflexivity. Qed.

Lemma tryScalingTransform_largest (coordinates out : list point) :
  Part000.tryScalingTransform coordinates = Normal (Some out) ->
  out = map (Part000.scale_by 10000000) coordinates.
Proof.
  unfold Part000.tryScalingTransform. cbv zeta.
  destruct coordinates as [|first rest]; [discriminate|].
  apply first_plausible_largest. intros p Hp. simpl in Hp.
  destruct Hp as [<-|[<-|[<-|[<-|[<-|[<-|[]]]]]]];
    apply scale_by_smaller; lra.
Qed.

Lemma tryMixedTransform_largest (coordinates out : list point) :
  Part000.tryMixedTransform coordinates = Normal (Some out) ->
  out = map (Part000.scale_swap_by 1000000) coordinates.
Proof.
  unfold Part000.tryMixedTransform. cbv zeta.
  destruct coordinates as [|first rest]; [discriminate|].
  apply first_plausible_largest. intros p Hp. simpl in Hp.
  rewrite !scale_swap_by_is_swap_scale_by.
  destruct Hp as [<-|[<-|[<-|[]]]]; apply swap_scale_by_smaller; lra.
Qed.

Lemma tryGenericCoordinateTransform_largest (coordinates out : list point) :
  Part000.tryGenericCoordinateTransform coordinates = Some out ->
  out = map (Part000.scale_by 1000000) coordinates \/
  out = map (Part000.swap_scale_by 1000000) coordinates.
Proof.
  unfold Part000.tryGenericCoordinateTransform.
  destruct coordinates as [|[x y] rest]; [discriminate|].
  destruct (ltb 10000 (Rabs x) || ltb 10000 (Rabs y)); [|discriminate].
  destruct (first_plausible_cases Part000.scale_by
              [1000000; 100000; 10000; 1000; 100] (x, y) rest) as [E|[o E]];
    rewrite E; cbn [or_else catch_null].
  - destruct (first_plausible_cases Part000.swap_scale_by
                [1000000; 100000; 10000; 1000; 100] (x, y) rest) as [E'|[o E']];
      rewrite E'; cbn [catch_null]; [discriminate|].
    intros [= <-]. right. revert E'.
    apply first_plausible_largest. intros p Hp. simpl in Hp.
    destruct Hp as [<-|[<-|[<-|[<-|[]]]]]; apply swap_scale_by_smaller; lra.
  - intros [= <-]. left. revert E.
    apply first_plausible_largest. intros p Hp. simpl in Hp.
    destruct Hp as [<-|[<-|[<-|[<-|[]]]]]; apply scale_by_smaller; lra.
Qed.

(** X13. The loops over scale factors can only succeed with their first,
    largest factor: when dividing by it does not make the first vertex
    plausible, no smaller factor does.  A result of the scaling transform is
    the list divided by 10^7, a result of the scale-and-swap transform and
    of the generic transform is the list divided by 10^6 (swapped, for the
    generic transform possibly not). *)
Theorem scaling_loops_use_first_factor (coordinates out : list point) :
  (Part000.tryScalingTransform coordinates = Normal (Some out) ->
     out = map (Part000.scale_by 10000000) coordinates) /\
  (Part000.tryMixedTransform coordinates = Normal (Some out) ->
     out = map (Part000.scale_swap_by 1000000) coordinates) /\
  (Part000.tryGenericCoordinateTransform coordinates = Some out ->
     out = map (Part000.scale_by 1000000) coordinates \/
     out = map (Part000.swap_scale_by 1000000) coordinates).
Proof.
  split; [|split].
  - apply tryScalingTransform_largest.
  - apply tryMixedTransform_largest.
  - apply tryGenericCoordinateTransform_largest.
Qed.

Lemma scaling_loops_use_first_factor_witness :
  map (Part000.scale_by 10000000) scaled_input
  = map (Part000.scale_by 10000000) scaled_input /\
  map (Part000.scale_swap_by 1000000) mixed_input
  = map (Part000.scale_swap_by 1000000) mixed_input /\
  (map (Part000.swap_scale_by 1000000) generic_input
   = map (Part000.scale_by 1000000) generic_input \/
   map (Part000.swap_scale_by 1000000) generic_input
   = map (Part000.swap_scale_by 1000000) generic_input).
Proof.
  split; [|split].
  - exact (proj1 (scaling_loops_use_first_factor scaled_input _)
             tryScalingTransform_scaled_input).
  - exact (proj1 (proj2 (scaling_loops_use_first_factor mixed_input _))
             tryMixedTransform_mixed_input).
  - exact (proj2 (proj2 (scaling_loops_use_first_factor generic_input _))
             tryGenericCoordinateTransform_generic_input).
Defined.

Lemma scaling_fails_beyond (first : point) (rest : list point) :
  900000000 < Rabs (fst first) \/ 1800000000 < Rabs (snd first) ->
  Part000.tryScalingTransform (first :: rest) = Normal None.
Proof.
  intros Hfar. unfold Part000.tryScalingTransform. cbv zeta.
  apply first_plausible_None. intros scale Hin.
  apply plausible_spec_false. unfold Part000.scale_by. simpl.
  simpl in Hin.
  destruct Hin as [<-|[<-|[<-|[<-|[<-|[<-|[<-|[]]]]]]]];
    destruct Hfar as [Hfar|Hfar]; (left; absolute) || (right; absolute).
Qed.

Lemma generic_fails_beyond (first : point) (rest : list point) :
  900000000 < Rabs (fst first) \/ 1800000000 < Rabs (snd first) ->
  Part000.tryGenericCoordinateTransform (first :: rest) = None.
Proof.
  intros Hfar. unfold Part000.tryGenericCoordinateTransform.
  destruct first as [x y]. cbn [fst snd] in Hfar.
  assert (E1 : first_plausible Part000.scale_by
                 [1000000; 100000; 10000; 1000; 100] ((x, y) :: rest)
               = Normal None).
  { apply first_plausible_None. intros scale Hin.
    apply plausible_spec_false. unfold Part000.scale_by. simpl. simpl in Hin.
    destruct Hin as [<-|[<-|[<-|[<-|[<-|[]]]]]];
      destruct Hfar as [Hfar|Hfar]; (left; absolute) || (right; absolute). }
  assert (E2 : first_plausible Part000.swap_scale_by
                 [1000000; 100000; 10000; 1000; 100] ((x, y) :: rest)
               = Normal None).
  { apply first_plausible_None. intros scale Hin.
    apply plausible_spec_false. unfold Part000.swap_scale_by. simpl.
    simpl in Hin.
    destruct Hin as [<-|[<-|[<-|[<-|[<-|[]]]]]];
      destruct Hfar as [Hfar|Hfar]; (left; absolute) || (right; absolute). }
  cbv beta iota zeta.
  destruct (ltb 10000 (Rabs x) || ltb 10000 (Rabs y)); [|reflexivity].
  match goal with
  | |- catch_null (or_else ?a ?b) = _ =>
      replace a with (@Normal (option (list point)) None)
        by (symmetry; exact E1);
      replace b with (@Normal (option (list point)) None)
        by (symmetry; exact E2)
  end.
  reflexivity.
Qed.

Lemma trySimpleScaling_cons (first : point) (rest : list point) :
  Part000.trySimpleScaling (first :: rest)
  = if leb (Rabs (fst first)) 900000000 && leb (Rabs (snd first)) 1800000000
    then Some (map (Part000.scale_by 10000000) (first :: rest))
    else None.
Proof.
  destruct (leb (Rabs (fst first)) 900000000 &&
            leb (Rabs (snd first)) 1800000000) eqn:E.
  - apply andb_true_iff in E. rewrite !leb_spec in E. destruct E as [Hx Hy].
    unfold Part000.trySimpleScaling. cbn [Part000.run_transformations].
    rewrite (scaling_succeeds_near first rest Hx Hy). reflexivity.
  - apply andb_false_iff in E. rewrite !leb_spec_false in E.
    assert (Hswap : plausible (swap first) = false).
    { apply plausible_spec_false. unfold swap. cbn [fst snd].
      destruct E as [E|E]; [right | left]; lra. }
    rewrite (trySimpleScaling_is_scaling first rest Hswap).
    rewrite (scaling_fails_beyond first rest E). reflexivity.
Qed.

(** X14. [trySimpleScaling] is a division by 10^7 or a failure: it returns
    the list divided by 10^7 when the first vertex has [|x| <= 9e8] and
    [|y| <= 1.8e9], and null otherwise (also for the empty list); the swap,
    the offsets and the scale-and-swap transform it lists after the scaling
    never produce its result. *)
Theorem trySimpleScaling_is_division_by_1e7 (coordinates : list point) :
  Part000.trySimpleScaling coordinates
  = match coordinates with
    | [] => None
    | first :: _ =>
        if leb (Rabs (fst first)) 900000000 &&
           leb (Rabs (snd first)) 1800000000
        then Some (map (Part000.scale_by 10000000) coordinates)
        else None
    end.
Proof.
  destruct coordinates as [|first rest]; [reflexivity|].
  apply trySimpleScaling_cons.
Qed.

(** ** The outcomes of the coordinate checker *)

Lemma tryConvertUTMCoordinates_zone_31 (coordinates out : list point) :
  Part000.tryConvertUTMCoordinates coordinates = Some out ->
  repaired_by (Part000.utm_point 3) coordinates out.
Proof.
  intros H. unfold Part000.tryConvertUTMCoordinates in H.
  destruct coordinates as [|[x y] rest]; [discriminate|].
  destruct (ltb 100000 (Rabs x) && ltb 100000 (Rabs y)); [|discriminate].
  rewrite try_zones_is_zone_31 in H.
  apply convertUTMToWGS84_repaired in H. exact H.
Qed.

Lemma checker_plausible_first (mapCenter first : point) (rest : list point) :
  plausible first = true ->
  Part000.validateAndFixCoordinates mapCenter (Array (first :: rest))
  = (Array (first :: rest), []) \/
  Part000.validateAndFixCoordinates mapCenter (Array (first :: rest))
  = (Array (first :: rest), [WarningFarFromView]).
Proof.
  intros Hp. unfold Part000.validateAndFixCoordinates. cbv zeta.
  change (leb (Rabs (fst first)) 90 && leb (Rabs (snd first)) 180)
    with (plausible first).
  rewrite Hp.
  match goal with |- context [ltb 20 ?d] => destruct (ltb 20 d) end; auto.
Qed.

Lemma checker_swapped (mapCenter first : point) (rest : list point) :
  plausible first = false -> plausible (swap first) = true ->
  Part000.validateAndFixCoordinates mapCenter (Array (first :: rest))
  = (Array (map swap (first :: rest)), [CorrectedSwap]).
Proof.
  intros Hp Hs. unfold Part000.validateAndFixCoordinates. cbv zeta.
  change (leb (Rabs (fst first)) 90 && leb (Rabs (snd first)) 180)
    with (plausible first).
  change (leb (Rabs (snd first)) 90 && leb (Rabs (fst first)) 180)
    with (plausible (swap first)).
  rewrite Hp, Hs. reflexivity.
Qed.

(** The decision table of the checker on a non-empty list. *)
Lemma checker_table (mapCenter first : point) (rest : list point) :
  (plausible first = true /\
   (Part000.validateAndFixCoordinates mapCenter (Array (first :: rest))
    = (Array (first :: rest), []) \/
    Part000.validateAndFixCoordinates mapCenter (Array (first :: rest))
    = (Array (first :: rest), [WarningFarFromView]))) \/
  (plausible first = false /\ plausible (swap first) = true /\
   Part000.validateAndFixCoordinates mapCenter (Array (first :: rest))
   = (Array (map swap (first :: rest)), [CorrectedSwap])) \/
  (plausible first = false /\ plausible (swap first) = false /\
   Rabs (fst first) <= 1000 /\ Rabs (snd first) <= 1000 /\
   Part000.validateAndFixCoordinates mapCenter (Array (first :: rest))
   = (Array (first :: rest), [WarningDifferentSystem])) \/
  (plausible first = false /\
   plausible (Part000.scale_by 10000000 first) = true /\
   Part000.validateAndFixCoordinates mapCenter (Array (first :: rest))
   = (Array (map (Part000.scale_by 10000000) (first :: rest)),
      [ConvertedSimpleScaling])) \/
  (plausible first = false /\
   plausible (Part000.utm_point 3 first) = true /\
   Part000.validateAndFixCoordinates mapCenter (Array (first :: rest))
   = (Array (map (Part000.utm_point 3) (first :: rest)), [ConvertedUTM])) \/
  (plausible first = false /\
   Part000.validateAndFixCoordinates mapCenter (Array (first :: rest))
   = (Null, [ErrorNotWGS84; WarningCoordinateRanges])).
Proof.
  destruct (plausible first) eqn:Hp.
  { left. split; [reflexivity|]. apply checker_plausible_first, Hp. }
  right.
  destruct (plausible (swap first)) eqn:Hs.
  { left. split; [reflexivity|]. split; [reflexivity|].
    apply checker_swapped; assumption. }
  right.
  destruct (Rle_dec (Rabs (fst first)) 1000) as [Hx|Hx];
    [destruct (Rle_dec (Rabs (snd first)) 1000) as [Hy|Hy]|].
  { left. split; [reflexivity|]. split; [reflexivity|].
    split; [exact Hx|]. split; [exact Hy|].
    apply checker_warns_small; assumption. }
  all: right.
  all: assert (Hlarge : 1000 < Rabs (fst first) \/ 1000 < Rabs (snd first))
         by lra.
  all: rewrite (checker_projected mapCenter first rest Hp Hs Hlarge).
  all: rewrite trySimpleScaling_cons.
  all: destruct (leb (Rabs (fst first)) 900000000 &&
                 leb (Rabs (snd first)) 1800000000) eqn:Hnear.
  all: try (left; split; [reflexivity|]; split; [|reflexivity];
            apply andb_true_iff in Hnear; rewrite !leb_spec in Hnear;
            apply plausible_spec; unfold Part000.scale_by; cbn [fst snd];
            destruct Hnear; split; absolute).
  all: right.
  all: apply andb_false_iff in Hnear; rewrite !leb_spec_false in Hnear.
  all: destruct (Part000.tryConvertUTMCoordinates (first :: rest))
         as [out|] eqn:U.
  all: try (left; split; [reflexivity|];
            destruct (tryConvertUTMCoordinates_zone_31 _ _ U)
              as [-> (f & r & [= <- <-] & Hpl)];
            split; [exact Hpl | reflexivity]).
  all: right; split; [reflexivity|].
  all: rewrite tryConvertMinnaDatum_null, (generic_fails_beyond first rest Hnear).
  all: reflexivity.
Qed.

(** X15. On a non-empty list the checker of part_000 has seven outcomes:
    the list unchanged (silently, with the far-from-view warning or with the
    different-system warning), the list swapped, the list divided by 10^7,
    the list converted from UTM zone 31, or null with the error.  It never
    reports a conversion from the Minna datum or a generic conversion. *)
Theorem checker_outcomes (mapCenter first : point) (rest : list point) :
  let coordinates := first :: rest in
  let result :=
    Part000.validateAndFixCoordinates mapCenter (Array coordinates) in
  (result = (Array coordinates, []) \/
   result = (Array coordinates, [WarningFarFromView]) \/
   result = (Array coordinates, [WarningDifferentSystem]) \/
   result = (Array (map swap coordinates), [CorrectedSwap]) \/
   result = (Array (map (Part000.scale_by 10000000) coordinates),
             [ConvertedSimpleScaling]) \/
   result = (Array (map (Part000.utm_point 3) coordinates), [ConvertedUTM]) \/
   result = (Null, [ErrorNotWGS84; WarningCoordinateRanges])) /\
  ~ In ConvertedMinnaDatum (snd result) /\
  ~ In ConvertedGeneric (snd result).
Proof.
  cbv zeta.
  destruct (checker_table mapCenter first rest)
    as [[_ [H|H]]|[(_ & _ & H)|[(_ & _ & _ & _ & H)|[(_ & _ & H)|[(_ & _ & H)|[_ H]]]]]];
    rewrite H; cbn [snd];
    (split; [tauto|]);
    split; simpl; intros F; repeat destruct F as [F|F]; discriminate || auto.
Qed.

(** X16. Unless it shows the different-system warning, a list the checker
    of part_000 returns for a non-empty input has the length of the input
    and begins with a vertex in the plausible ranges. *)
Theorem checker_result_plausible (mapCenter first : point)
    (rest out : list point) (notes : list notification) :
  Part000.validateAndFixCoordinates mapCenter (Array (first :: rest))
  = (Array out, notes) ->
  ~ In WarningDifferentSystem notes ->
  length out = length (first :: rest) /\
  exists first' rest', out = first' :: rest' /\ plausible first' = true.
Proof.
  intros E Hw.
  destruct (checker_table mapCenter first rest)
    as [[Hp [H|H]]|[(_ & Hs & H)|[(_ & _ & _ & _ & H)|[(_ & Hs & H)|[(_ & Hs & H)|[_ H]]]]]];
    rewrite H in E; first [discriminate E | injection E as <- <-].
  - split; [reflexivity|]. exists first, rest. auto.
  - split; [reflexivity|]. exists first, rest. auto.
  - split; [cbn [map length]; rewrite length_map; reflexivity|].
    eexists _, _. split; [reflexivity | exact Hs].
  - contradiction Hw. left. reflexivity.
  - split; [cbn [map length]; rewrite length_map; reflexivity|].
    eexists _, _. split; [reflexivity | exact Hs].
  - split; [cbn [map length]; rewrite length_map; reflexivity|].
    eexists _, _. split; [reflexivity | exact Hs].
Qed.

Lemma checker_result_plausible_witness :
  length (map (Part000.scale_by 10000000) [(700000, 450000)])
  = length [(700000, 450000)] /\
  exists first' rest',
    map (Part000.scale_by 10000000) [(700000, 450000)] = first' :: rest' /\
    plausible first' = true.
Proof.
  apply (checker_result_plausible initialCenter (700000, 450000) [] _
           [ConvertedSimpleScaling]).
  - apply checker_scales_minna_input.
  - simpl. intros [F|[]]. discriminate.
Defined.

(** X17. The checker of part_000 is idempotent on values: applied to its
    own result (with the map centred anywhere), it returns that result. *)
Theorem checker_idempotent (mapCenter mapCenter' : point) (coordinates : value) :
  fst (Part000.validateAndFixCoordinates mapCenter'
         (fst (Part000.validateAndFixCoordinates mapCenter coordinates)))
  = fst (Part000.validateAndFixCoordinates mapCenter coordinates).
Proof.
  destruct coordinates as [| |[|first rest]]; try reflexivity.
  assert (Hkeep : forall first' rest', plausible first' = true ->
            fst (Part000.validateAndFixCoordinates mapCenter'
                   (Array (first' :: rest'))) = Array (first' :: rest')).
  { intros first' rest' Hp.
    destruct (checker_plausible_first mapCenter' first' rest' Hp) as [H|H];
      rewrite H; reflexivity. }
  destruct (checker_table mapCenter first rest)
    as [[Hp [H|H]]|[(_ & Hs & H)|[(Hp & Hs & Hx & Hy & H)|[(_ & Hs & H)|[(_ & Hs & H)|[_ H]]]]]];
    rewrite H; cbn [fst].
  - apply Hkeep, Hp.
  - apply Hkeep, Hp.
  - apply (Hkeep (swap first) (map swap rest)), Hs.
  - rewrite (checker_warns_small mapCenter' first rest Hp Hs Hx Hy). reflexivity.
  - apply (Hkeep (Part000.scale_by 10000000 first)
             (map (Part000.scale_by 10000000) rest)), Hs.
  - apply (Hkeep (Part000.utm_point 3 first)
             (map (Part000.utm_point 3) rest)), Hs.
  - reflexivity.
Qed.

(** *** The order of the attempts *)








(** ** The aggressive correction *)

Lemma aggressive_scales_cases (scales : list R) (first : point)
    (rest : list point) :
  Part000.aggressive_scales scales (first :: rest) = Normal None \/
  exists out f,
    Part000.aggressive_scales scales (first :: rest) = Normal (Some out) /\
    repaired_by f (first :: rest) out.
Proof.
  induction scales as [|scale scales IH]; cbn [Part000.aggressive_scales];
    [left; reflexivity|].
  destruct (first_plausible_cases Part000.scale_by [scale] first rest)
    as [E|[out E]]; rewrite E; cbn [or_else].
  - destruct (first_plausible_cases Part000.swap_scale_by [scale] first rest)
      as [E'|[out E']]; rewrite E'; cbn [or_else].
    + exact IH.
    + right. destruct (first_plausible_repaired _ _ _ _ E') as (s & _ & Hr).
      exists out, (Part000.swap_scale_by s). split; [reflexivity | exact Hr].
  - right. destruct (first_plausible_repaired _ _ _ _ E) as (s & _ & Hr).
    exists out, (Part000.scale_by s). split; [reflexivity | exact Hr].
Qed.

Lemma Math_max_ge (xs : list R) (x : R) : In x xs -> x <= Math_max xs.
Proof.
  unfold Math_max. destruct xs as [|x0 xs]; [intros []|]. cbn [hd tl].
  destruct (fold_Rmax_ge xs x0) as [H0 HF]. rewrite Forall_forall in HF.
  intros [<-|Hin]; [exact H0 | apply HF, Hin].
Qed.

Lemma Math_min_le (xs : list R) (x : R) : In x xs -> Math_min xs <= x.
Proof.
  unfold Math_min. destruct xs as [|x0 xs]; [intros []|]. cbn [hd tl].
  destruct (fold_Rmin_le xs x0) as [H0 HF]. rewrite Forall_forall in HF.
  intros [<-|Hin]; [exact H0 | apply HF, Hin].
Qed.

(** A coordinate between the least and the greatest one, taken relative to
    a centre between them and shrunk by the factor of the last resort, is
    at most 10 away from zero. *)
Lemma centred_within_10 (m M c x : R) :
  m <= x <= M -> m <= c <= M ->
  - 10 <= (x - c) * (if ltb 0 (M - m) then Rmin (10 / (M - m)) 1 else 1) <= 10.
Proof.
  intros Hx Hc. unfold ltb. destruct (Rlt_dec 0 (M - m)) as [Hr|Hr].
  - set (s := Rmin (10 / (M - m)) 1).
    assert (Hpos : 0 < 10 / (M - m)).
    { apply Rmult_lt_0_compat; [lra | apply Rinv_0_lt_compat, Hr]. }
    assert (Hs0 : 0 < s) by (unfold s; apply Rmin_glb_lt; lra).
    assert (Hs1 : s * (M - m) <= 10).
    { pose proof (Rmin_l (10 / (M - m)) 1) as Hl. fold s in Hl.
      assert (Hq : 10 / (M - m) * (M - m) = 10) by (field; lra).
      pose proof (Rmult_le_compat_r (M - m) s (10 / (M - m))) as Hm.
      lra. }
    split; nra.
  - assert (x = c) by lra. subst x. lra.
Qed.

Lemma last_resort_in_window (coordinates : list point) (p : point) :
  In p coordinates ->
  let n := INR (length coordinates) in
  let centerX := fold_left (fun sum coord => sum + fst coord) coordinates 0 / n in
  let centerY := fold_left (fun sum coord => sum + snd coord) coordinates 0 / n in
  let maxX := Math_max (map fst coordinates) in
  let minX := Math_min (map fst coordinates) in
  let maxY := Math_max (map snd coordinates) in
  let minY := Math_min (map snd coordinates) in
  let rangeX := maxX - minX in
  let rangeY := maxY - minY in
  let scaleX := if ltb 0 rangeX then Rmin (10 / rangeX) 1 else 1 in
  let scaleY := if ltb 0 rangeY then Rmin (10 / rangeY) 1 else 1 in
  let q := Part000.relocate centerX centerY scaleX scaleY p in
  (-2 <= lat q <= 18) /\ (-2 <= lng q <= 18).
Proof.
  intros Hin. cbv zeta.
  assert (Hne : forall (g : point -> R), map g coordinates <> []).
  { intros g. destruct coordinates; [destruct Hin | discriminate]. }
  assert (Hmean : forall (g : point -> R),
            Math_min (map g coordinates)
            <= fold_left (fun sum coord => sum + g coord) coordinates 0
               / INR (length coordinates)
            <= Math_max (map g coordinates)).
  { intros g. rewrite fold_left_Rplus, Rplus_0_l.
    rewrite <- (length_map g coordinates).
    apply mean_between; [apply Hne|].
    rewrite Forall_forall. intros x Hx.
    split; [apply Math_min_le | apply Math_max_ge]; exact Hx. }
  assert (Hp : forall (g : point -> R),
            Math_min (map g coordinates) <= g p <= Math_max (map g coordinates)).
  { intros g. split; [apply Math_min_le | apply Math_max_ge];
      apply in_map, Hin. }
  pose proof (centred_within_10 _ _ _ _ (Hp fst) (Hmean fst)) as HX.
  pose proof (centred_within_10 _ _ _ _ (Hp snd) (Hmean snd)) as HY.
  unfold Part000.relocate, lat, lng. cbv zeta. cbn [fst snd].
  match goal with
  | |- _ <= _ + ?u <= _ /\ _ <= _ + ?v <= _ =>
      assert (HY' : -10 <= u <= 10) by exact HY;
      assert (HX' : -10 <= v <= 10) by exact HX;
      clear - HX' HY'; revert HX' HY'; generalize u; generalize v
  end.
  intros v u HX' HY'. lra.
Qed.

Lemma window_plausible (q : point) :
  (-2 <= lat q <= 18) /\ (-2 <= lng q <= 18) -> plausible q = true.
Proof.
  unfold lat, lng. intros [H1 H2]. apply plausible_spec.
  split; apply Rabs_le; lra.
Qed.

Lemma tryAggressiveCorrection_succeeds (first : point) (rest : list point) :
  exists out,
    Part000.tryAggressiveCorrection (first :: rest) = Some out /\
    length out = length (first :: rest) /\
    exists first' rest', out = first' :: rest' /\ plausible first' = true.
Proof.
  unfold Part000.tryAggressiveCorrection. cbv zeta.
  destruct (aggressive_scales_cases
              [10000000; 1000000; 100000; 10000; 1000; 100; 10; 1] first rest)
    as [E|(out & f & E & Hr)]; rewrite E; cbn [or_else catch_null].
  - destruct (first_plausible_cases Part000.offset_by
                [1000000; 100000; 10000; 1000] first rest) as [E'|[out E']];
      rewrite E'; cbn [or_else catch_null].
    + eexists. split; [reflexivity|]. split; [apply length_map|].
      cbn [map]. eexists _, _. split; [reflexivity|].
      apply window_plausible.
      exact (last_resort_in_window (first :: rest) first (or_introl eq_refl)).
    + destruct (first_plausible_repaired _ _ _ _ E') as (s & _ & Hr).
      exists out. split; [reflexivity|]. apply repaired_by_first in Hr. exact Hr.
  - exists out. split; [reflexivity|]. apply repaired_by_first in Hr. exact Hr.
Qed.


(** X19. When no scale factor and no offset makes the first vertex
    plausible, the last resort of the aggressive correction places every
    vertex of the list, not only the first, near (8, 8): for a list of at
    most 1000 vertices with coordinates of magnitude at most 10^11,
    latitudes and longitudes of the result lie between -3 and 19.  In exact
    arithmetic they lie between -2 and 18; the degree on each side covers
    the rounding of the centre. *)
Theorem last_resort_within_10_degrees (coordinates : list point) :
  Part000.aggressive_scales
    [10000000; 1000000; 100000; 10000; 1000; 100; 10; 1] coordinates
  = Normal None ->
  first_plausible Part000.offset_by [1000000; 100000; 10000; 1000] coordinates
  = Normal None ->
  (length coordinates <= 1000)%nat ->
  Forall (fun p => Rabs (fst p) <= 100000000000 /\
                   Rabs (snd p) <= 100000000000) coordinates ->
  exists out,
    Part000.tryAggressiveCorrection coordinates = Some out /\
    length out = length coordinates /\
    Forall (fun p => -3 <= lat p <= 19 /\ -3 <= lng p <= 19) out.
Proof.
  intros E E' _ _. destruct coordinates as [|first rest]; [discriminate|].
  unfold Part000.tryAggressiveCorrection. cbv zeta.
  rewrite E, E'. cbn [or_else catch_null].
  eexists. split; [reflexivity|]. split; [apply length_map|].
  rewrite Forall_map, Forall_forall. intros p Hp.
  pose proof (last_resort_in_window (first :: rest) p Hp) as Hw.
  cbv zeta in Hw. destruct Hw as [[H1 H2] [H3 H4]].
  split; split; [apply Rle_trans with (-2) | apply Rle_trans with 18
                | apply Rle_trans with (-2) | apply Rle_trans with 18];
    first [assumption | lra].
Qed.

Lemma last_resort_within_10_degrees_witness :
  exists out,
    Part000.tryAggressiveCorrection hopeless_ring = Some out /\
    length out = length hopeless_ring /\
    Forall (fun p => -3 <= lat p <= 19 /\ -3 <= lng p <= 19) out.
Proof.
  apply (last_resort_within_10_degrees hopeless_ring).
  - unfold hopeless_ring. run_transform. reflexivity.
  - unfold hopeless_ring. run_transform. reflexivity.
  - simpl. lia.
  - unfold hopeless_ring.
    repeat constructor; cbn [fst snd]; rewrite Rabs_pos_eq; lra.
Defined.

(** ** The upload *)

(** For data that is not [null], the handler is its body after the first
    test, whatever the shape of the data. *)
Lemma displayUploadedData_extracted (mapCenter : point) (state : page)
    (data : uploaded) :
  data <> NoData ->
  Part000.displayUploadedData mapCenter state data
  = let '(state, cleared) := Part000.clearMap state in
    let draw (coordinates : list point) (notes : list upload_notification) :=
      if (3 <=? length coordinates)%nat then
        let state :=
          mkPage (isDrawing state) coordinates true (totalArea state)
            (areaCalculationCache state) (perimeterCalculationCache state) in
        let '(area, areaCache) :=
          Part000.calculatePolygonArea (areaCalculationCache state) coordinates in
        let '(perimeter, perimeterCache) :=
          Part000.calculatePolygonPerimeter (perimeterCalculationCache state)
            coordinates in
        let state :=
          mkPage (isDrawing state) (polygonPoints state)
            (currentPolygon state) (totalArea state) areaCache
            perimeterCache in
        (Part000.updateAreaInfo area perimeter coordinates state,
         cleared ++ notes ++ [AOILoaded])
      else (state, cleared ++ notes ++ [InvalidGeometry]) in
    match extract_coordinates data with
    | Array ((_ :: _) as coords) =>
        let '(validatedCoordinates, notes) :=
          Part000.validateAndFixCoordinates mapCenter (Array coords) in
        let notes := map FromChecker notes in
        match validatedCoordinates with
        | Null =>
            match Part000.tryAggressiveCorrection coords with
            | Some aggressiveCoords =>
                draw aggressiveCoords (notes ++ [AggressiveWarning])
            | None => (state, cleared ++ notes ++ [CannotDisplay])
            end
        | Array validated => draw validated notes
        | Undefined => (state, cleared ++ notes ++ [InvalidGeometry])
        end
    | Array [] => draw [] []
    | _ => (state, cleared ++ [InvalidGeometry])
    end.
Proof.
  intros Hdata. destruct data; [contradiction Hdata | | | |]; reflexivity.
Qed.

Lemma checker_array_or_null (mapCenter first : point) (rest : list point) :
  (exists validated notes,
     Part000.validateAndFixCoordinates mapCenter (Array (first :: rest))
     = (Array validated, notes) /\
     length validated = length (first :: rest)) \/
  (exists notes,
     Part000.validateAndFixCoordinates mapCenter (Array (first :: rest))
     = (Null, notes)).
Proof.
  destruct (checker_table mapCenter first rest)
    as [[_ [H|H]]|[(_ & _ & H)|[(_ & _ & _ & _ & H)|[(_ & _ & H)|[(_ & _ & H)|[_ H]]]]]];
    rewrite H;
    first [ right; eexists; reflexivity
          | left; eexists _, _; split; [reflexivity|];
            cbn [map length]; rewrite ?length_map; reflexivity ].
Qed.

Lemma not_CannotDisplay (notes : list notification)
    (more : list upload_notification) :
  ~ In CannotDisplay more ->
  ~ In CannotDisplay ([MapCleared] ++ (map FromChecker notes ++ more)).
Proof.
  intros Hmore F. simpl in F. destruct F as [F|F]; [discriminate|].
  apply in_app_or in F. destruct F as [F|F]; [|exact (Hmore F)].
  apply in_map_iff in F. destruct F as [n [F _]]. discriminate.
Qed.

(** X20. An upload that carries data is never rejected with the "Cannot
    display" error.  Either the extracted list has three or more vertices:
    then a polygon with as many vertices is drawn, its area is shown and the
    success notification appears; or it has fewer (or there is none): then
    the drawing that was on the map is gone, the area is 0 and the
    "Invalid geometry" error appears.  The caches are kept in both cases. *)
Theorem upload_is_drawn_or_cleared (mapCenter : point) (state : page)
    (data : uploaded) :
  data <> NoData ->
  let result := Part000.displayUploadedData mapCenter state data in
  ~ In CannotDisplay (snd result) /\
  ((exists coordinates,
      extract_coordinates data = Array coordinates /\
      (3 <= length coordinates)%nat /\
      length (polygonPoints (fst result)) = length coordinates) /\
   currentPolygon (fst result) = true /\
   totalArea (fst result)
   = fst (Part000.calculatePolygonArea (areaCalculationCache state)
            (polygonPoints (fst result))) /\
   In AOILoaded (snd result)
   \/
   (forall coordinates,
      extract_coordinates data = Array coordinates ->
      (length coordinates < 3)%nat) /\
   fst result
   = mkPage false [] false 0 (areaCalculationCache state)
       (perimeterCalculationCache state) /\
   In InvalidGeometry (snd result)).
Proof.
  intros Hdata. cbv zeta.
  pattern (Part000.displayUploadedData mapCenter state data).
  match goal with |- ?P _ => set (Outcome := P) end.
  rewrite (displayUploadedData_extracted mapCenter state data Hdata).
  unfold Part000.clearMap, Part000.stopDrawing, Part000.updateAreaInfo.
  cbv beta iota zeta.
  cbn [isDrawing polygonPoints currentPolygon totalArea areaCalculationCache
       perimeterCalculationCache].
  assert (Hdraw : forall coordinates final notes more,
    extract_coordinates data = Array coordinates ->
    length final = length coordinates ->
    ~ In CannotDisplay more ->
    Outcome
      (if (3 <=? length final)%nat
       then
         (let '(area, areaCache) :=
            Part000.calculatePolygonArea (areaCalculationCache state) final in
          let '(perimeter, perimeterCache) :=
            Part000.calculatePolygonPerimeter
              (perimeterCalculationCache state) final in
          (mkPage false final true area areaCache perimeterCache,
           [MapCleared] ++ (map FromChecker notes ++ more) ++ [AOILoaded]))
       else
         (mkPage false [] false 0 (areaCalculationCache state)
            (perimeterCalculationCache state),
          [MapCleared] ++ (map FromChecker notes ++ more)
          ++ [InvalidGeometry]))).
  { intros coordinates final notes more E Hlen Hmore. unfold Outcome.
    destruct (Nat.leb_spec 3 (length final)) as [Hn|Hn].
    - destruct (Part000.calculatePolygonArea (areaCalculationCache state) final)
        as [area areaCache] eqn:EA.
      destruct (Part000.calculatePolygonPerimeter
                  (perimeterCalculationCache state) final)
        as [perimeter perimeterCache].
      cbn [fst snd polygonPoints currentPolygon totalArea].
      split.
      + rewrite app_assoc. intros F. apply in_app_or in F.
        destruct F as [F|[F|[]]]; [|discriminate].
        revert F. apply not_CannotDisplay, Hmore.
      + left. split; [|split; [reflexivity|split]].
        * exists coordinates. split; [exact E|]. split; [lia | exact Hlen].
        * rewrite EA. reflexivity.
        * apply in_or_app. right. apply in_or_app. right. left. reflexivity.
    - cbn [fst snd]. split.
      + rewrite app_assoc. intros F. apply in_app_or in F.
        destruct F as [F|[F|[]]]; [|discriminate].
        revert F. apply not_CannotDisplay, Hmore.
      + right. split; [|split; [reflexivity|]].
        * intros coordinates' E'. rewrite E in E'. injection E' as <-. lia.
        * apply in_or_app. right. apply in_or_app. right. left. reflexivity. }
  assert (Hnone : (forall coordinates,
                     extract_coordinates data <> Array coordinates) ->
    Outcome
      (mkPage false [] false 0 (areaCalculationCache state)
         (perimeterCalculationCache state),
       [MapCleared] ++ [InvalidGeometry])).
  { intros Hno. unfold Outcome. cbn [fst snd]. split.
    - simpl. intros [F|[F|[]]]; discriminate.
    - right. split; [|split; [reflexivity|]].
      + intros coordinates E. destruct (Hno coordinates E).
      + simpl. auto. }
  clearbody Outcome.
  destruct (extract_coordinates data) as [| |[|first rest]] eqn:E.
  - apply Hnone. intros coordinates. discriminate.
  - apply Hnone. intros coordinates. discriminate.
  - apply (Hdraw [] [] [] []); [reflexivity | reflexivity | intros []].
  - destruct (checker_array_or_null mapCenter first rest)
      as [(validated & notes & H & Hlen)|(notes & H)]; rewrite H.
    + pose proof (Hdraw (first :: rest) validated notes [] eq_refl Hlen) as Hd.
      rewrite app_nil_r in Hd. apply Hd. intros [].
    + destruct (tryAggressiveCorrection_succeeds first rest)
        as (out & Ea & Hlen & _).
      rewrite Ea.
      apply (Hdraw (first :: rest) out notes [AggressiveWarning] eq_refl Hlen).
      intros [F|[]]. discriminate.
Qed.

Lemma upload_is_drawn_or_cleared_witness :
  let state := mkPage false [] false 0 [] [] in
  let result :=
    Part000.displayUploadedData initialCenter state (CoordinateArray band) in
  ~ In CannotDisplay (snd result) /\
  ((exists coordinates,
      extract_coordinates (CoordinateArray band) = Array coordinates /\
      (3 <= length coordinates)%nat /\
      length (polygonPoints (fst result)) = length coordinates) /\
   currentPolygon (fst result) = true /\
   totalArea (fst result)
   = fst (Part000.calculatePolygonArea (areaCalculationCache state)
            (polygonPoints (fst result))) /\
   In AOILoaded (snd result)
   \/
   (forall coordinates,
      extract_coordinates (CoordinateArray band) = Array coordinates ->
      (length coordinates < 3)%nat) /\
   fst result
   = mkPage false [] false 0 (areaCalculationCache state)
       (perimeterCalculationCache state) /\
   In InvalidGeometry (snd result)).
Proof.
  apply (upload_is_drawn_or_cleared initialCenter
           (mkPage false [] false 0 [] []) (CoordinateArray band)).
  discriminate.
Defined.

(** ** The checker of part_001 against the checker of part_000 *)

Lemma outOfRange_plausible (p : point) :
  ltb 90 (Rabs (fst p)) || ltb 180 (Rabs (snd p)) = negb (plausible p).
Proof.
  unfold plausible, leb, ltb.
  destruct (Rlt_dec 90 (Rabs (fst p))), (Rle_dec (Rabs (fst p)) 90);
    destruct (Rlt_dec 180 (Rabs (snd p))), (Rle_dec (Rabs (snd p)) 180);
    try reflexivity; lra.
Qed.

(** X21. The checker of part_001 returns the list itself or the list with
    every vertex swapped, and on a list whose first vertex is plausible, or
    becomes plausible by the swap, it returns the same list as the checker
    of part_000. *)
Theorem checkers_agree_up_to_swap (mapCenter first : point) (rest : list point) :
  (fst (Part001.validateAndFixCoordinates (Array (first :: rest)))
   = Array (first :: rest) \/
   fst (Part001.validateAndFixCoordinates (Array (first :: rest)))
   = Array (map swap (first :: rest))) /\
  (plausible first = true \/ plausible (swap first) = true ->
   fst (Part001.validateAndFixCoordinates (Array (first :: rest)))
   = fst (Part000.validateAndFixCoordinates mapCenter (Array (first :: rest)))).
Proof.
  unfold Part001.validateAndFixCoordinates. cbv zeta.
  rewrite outOfRange_plausible. cbn [map hd].
  destruct (plausible first) eqn:Hp; cbn [negb andb].
  - split; [left; reflexivity|]. intros _.
    destruct (checker_plausible_first mapCenter first rest Hp) as [H|H];
      rewrite H; reflexivity.
  - destruct (plausible (swap first)) eqn:Hs.
    + split; [right; reflexivity|]. intros _.
      rewrite (checker_swapped mapCenter first rest Hp Hs). reflexivity.
    + split; [left; reflexivity|]. intros [F|F]; discriminate.
Qed.

Lemma checkers_agree_up_to_swap_witness :
  fst (Part001.validateAndFixCoordinates (Array swapped_input))
  = fst (Part000.validateAndFixCoordinates initialCenter (Array swapped_input)).
Proof.
  apply (proj2 (checkers_agree_up_to_swap initialCenter (100, 50) [])).
  right. unfold_transforms. compare. reflexivity.
Defined.

(** ** The perimeter of part_000 against the perimeter of map-script.js *)

Lemma fold_left_pointwise_In {A B : Type} (f g : A -> B -> A) (l : list B)
    (a0 : A) :
  (forall a x, In x l -> f a x = g a x) -> fold_left f l a0 = fold_left g l a0.
Proof.
  revert a0; induction l as [|x l IH]; intros a0 H; [reflexivity|].
  simpl. rewrite (H a0 x (or_introl eq_refl)).
  apply IH. intros a y Hy. apply H. right. exact Hy.
Qed.

Lemma nscale_thousandth (x : number) : nscale 0.001 x = nscale (/ 1000) x.
Proof. destruct x; try reflexivity. simpl. f_equal. lra. Qed.

Lemma computePerimeter_uniform (points : list point) :
  Forall (fun p => cos (lat p * PI / 180)
                   = cos (lat (at_index points 0) * PI / 180)) points ->
  Part000.computePerimeter points = MapScript.calculatePolygonPerimeter points.
Proof.
  intros HF. unfold Part000.computePerimeter, MapScript.calculatePolygonPerimeter.
  cbv zeta. rewrite nscale_thousandth. f_equal.
  apply fold_left_pointwise_In. intros a i Hi.
  apply in_seq in Hi.
  unfold Part000.perimeter_step, MapScript.perimeter_step,
    MapScript.edge_distance. cbv zeta.
  rewrite Forall_forall in HF.
  rewrite <- (HF (at_index points i))
    by (unfold at_index; apply nth_In; lia).
  rewrite Part000_haversine_a_own_vertex. reflexivity.
Qed.

Lemma MapScript_perimeter_single (p : point) :
  MapScript.calculatePolygonPerimeter [p] = Finite 0.
Proof.
  unfold MapScript.calculatePolygonPerimeter. cbn [length seq fold_left].
  unfold MapScript.perimeter_step, MapScript.edge_distance. cbv zeta.
  cbn [Nat.add Nat.modulo Nat.divmod fst snd Nat.sub at_index nth].
  assert (Ha : MapScript.haversine_a p p = 0).
  { unfold MapScript.haversine_a. cbv zeta.
    replace ((lat p * PI / 180 - lat p * PI / 180) / 2) with 0 by lra.
    replace ((lng p - lng p) * PI / 180 / 2) with 0 by lra.
    rewrite sin_0. lra. }
  rewrite Ha, central_angle_0. simpl. f_equal. lra.
Qed.

(** X22. On a ring whose vertices all have the cosine of latitude of the
    first vertex (for instance all on one parallel), the perimeter function
    of part_000, called with an empty cache, and the perimeter function of
    map-script.js convert the same sum of edge lengths in metres, the one
    accumulated by the loop of map-script.js: part_000 multiplies it by
    0.001, map-script.js divides it by 1000. *)
Theorem Part000_perimeter_uniform_latitude (points : list point) :
  Forall (fun p => cos (lat p * PI / 180)
                   = cos (lat (at_index points 0) * PI / 180)) points ->
  let n := length points in
  let metres :=
    fold_left (MapScript.perimeter_step points n) (seq 0 n) (Finite 0) in
  fst (Part000.calculatePolygonPerimeter [] points) = nscale 0.001 metres /\
  MapScript.calculatePolygonPerimeter points = nscale (/ 1000) metres.
Proof.
  intros HF n metres. split; [|reflexivity].
  rewrite nscale_thousandth.
  change (nscale (/ 1000) metres)
    with (MapScript.calculatePolygonPerimeter points).
  unfold Part000.calculatePolygonPerimeter.
  destruct (Nat.ltb_spec (length points) 2) as [Hn|Hn].
  - destruct points as [|p [|q rest]]; [| |simpl in Hn; lia]; cbn [fst].
    + unfold MapScript.calculatePolygonPerimeter. simpl. f_equal. lra.
    + symmetry. apply MapScript_perimeter_single.
  - cbn [Map_get fst]. apply computePerimeter_uniform, HF.
Qed.

Lemma Part000_perimeter_uniform_latitude_witness :
  let metres :=
    fold_left (MapScript.perimeter_step flat 3) (seq 0 3) (Finite 0) in
  fst (Part000.calculatePolygonPerimeter [] flat) = nscale 0.001 metres /\
  MapScript.calculatePolygonPerimeter flat = nscale (/ 1000) metres.
Proof.
  apply (Part000_perimeter_uniform_latitude flat).
  unfold flat. repeat constructor.
Defined.

(** X23. Degenerate inputs of the perimeter of map-script.js: the empty
    list and a single vertex give 0 km, and for two vertices the segment is
    counted out and back, so the result is twice the distance between
    them. *)
Theorem MapScript_perimeter_degenerate (p q : point) :
  MapScript.calculatePolygonPerimeter [] = Finite 0 /\
  MapScript.calculatePolygonPerimeter [p] = Finite 0 /\
  MapScript.calculatePolygonPerimeter [p; q]
  = nscale (/ 1000)
      (nadd (MapScript.edge_distance p q) (MapScript.edge_distance p q)).
Proof.
  split; [|split].
  - unfold MapScript.calculatePolygonPerimeter. simpl. f_equal. lra.
  - apply MapScript_perimeter_single.
  - rewrite MapScript_perimeter_sum. unfold successor_pairs.
    cbn [tl firstn app combine map fst snd nsum fold_right].
    rewrite (MapScript_edge_distance_sym q p).
    f_equal. f_equal.
    destruct (MapScript.edge_distance p q); try reflexivity.
    simpl. f_equal. lra.
Qed.

(** ** The cache of part_001, the aspect ratio, the error of the checker *)

Lemma Forall_Part001_store {V : Type} (P : string * V -> Prop)
    (cache : Map V) (key : string) (value : V) :
  Forall P cache -> P (key, value) -> Forall P (Part001.store cache key value).
Proof.
  intros HF HP. unfold Part001.store.
  destruct (Map_size cache <? 100)%nat; [|exact HF].
  apply Forall_Map_set; assumption.
Qed.

Lemma area_cache_after_001_contents (calls : list (list point)) :
  cached_from Part000.computeArea 3 calls (area_cache_after_001 calls) /\
  (Map_size (area_cache_after_001 calls) <= 100)%nat.
Proof.
  induction calls as [|points calls [IH IHsize]] using rev_ind.
  - split; [constructor | simpl; lia].
  - unfold area_cache_after_001 in *. rewrite fold_left_app. cbn [fold_left].
    split; [|apply Part001_area_size, IHsize].
    apply (cached_from_more _ _ calls (calls ++ [points])) in IH;
      [|intros r Hr; apply in_or_app; left; exact Hr].
    unfold Part001.calculatePolygonArea.
    destruct (Nat.ltb_spec (length points) 3) as [Hn|Hn]; [exact IH|].
    destruct (Map_get _ (cacheKey points)); [exact IH|].
    cbn [snd]. apply Forall_Part001_store; [exact IH|].
    exists points. cbn [fst snd].
    split; [apply in_or_app; right; left; reflexivity|].
    split; [exact Hn|]. split; reflexivity.
Qed.

(** X24. Whatever measurements were made before, starting from the empty
    cache, the area cache of part_001 holds at most 100 entries, and the
    area returned for three or more vertices is the Shoelace area of that
    list or of an earlier measured list with the same six-decimal
    signature; below three vertices it is 0. *)
Theorem Part001_area_after_any_history
    (calls : list (list point)) (points : list point) :
  let areaCache := area_cache_after_001 calls in
  (Map_size areaCache <= 100)%nat /\
  ((length points < 3)%nat /\
   fst (Part001.calculatePolygonArea areaCache points) = 0 \/
   exists ring,
     In ring (points :: calls) /\ (3 <= length ring)%nat /\
     cacheKey ring = cacheKey points /\
     fst (Part001.calculatePolygonArea areaCache points) = area_formula ring).
Proof.
  cbv zeta.
  destruct (area_cache_after_001_contents calls) as [Ha Hasize].
  split; [exact Hasize|].
  unfold Part001.calculatePolygonArea.
  destruct (Nat.ltb_spec (length points) 3) as [Hn|Hn];
    [left; split; [exact Hn | reflexivity]|].
  right.
  destruct (Map_get (area_cache_after_001 calls) (cacheKey points))
    as [cached|] eqn:E; cbn [fst].
  - apply Map_get_In in E. unfold cached_from in Ha.
    rewrite Forall_forall in Ha.
    destruct (Ha _ E) as [ring [Hin [Hlen [Hkey Hval]]]].
    cbn [fst snd] in Hkey, Hval.
    exists ring. split; [right; exact Hin|]. split; [exact Hlen|].
    split; [exact Hkey|]. rewrite Hval.
    apply Part000_computeArea_formula, Hlen.
  - exists points. split; [left; reflexivity|]. split; [exact Hn|].
    split; [reflexivity|]. apply Part000_computeArea_formula, Hn.
Qed.

(** X25. The aspect ratio of a vertex list of the data model is never
    negative: it is a finite number that is at least 0, or, when the
    bounding box has no height, NaN or +Infinity. *)
Theorem aspect_ratio_never_negative (points : list point) :
  Forall Vertex points ->
  (exists ratio,
     MapScript.calculateAspectRatio points = Finite ratio /\ 0 <= ratio) \/
  MapScript.calculateAspectRatio points = NaN \/
  MapScript.calculateAspectRatio points = PosInfinity.
Proof.
  intros HV. unfold MapScript.calculateAspectRatio.
  destruct (MapScript.calculateBoundingBox points) as [bbox|] eqn:E;
    [|left; exists 0; split; [reflexivity | lra]].
  destruct (calculateBoundingBox_encloses points bbox E) as [Hin [Hw Hh]].
  destruct (calculateBoundingBox_attained points bbox E)
    as [H1 [H2 [H3 H4]]].
  rewrite in_map_iff in H1, H2, H3, H4.
  destruct H1 as [p1 [E1 I1]]. destruct H2 as [p2 [E2 I2]].
  destruct H3 as [p3 [E3 I3]]. destruct H4 as [p4 [E4 I4]].
  rewrite Forall_forall in Hin, HV.
  pose proof (Hin p2 I2) as [Ha _]. pose proof (Hin p4 I4) as [_ Hb].
  pose proof (HV p1 I1) as [V1 _]. pose proof (HV p2 I2) as [V2 _].
  cbv zeta.
  set (c := cos ((MapScript.minLat bbox + MapScript.maxLat bbox) / 2 * PI / 180)).
  assert (Hc : 0 <= c).
  { unfold c. pose proof PI_RGT_0. apply cos_ge_0; nra. }
  assert (Hwidth : 0 <= MapScript.width bbox * 111320 * c).
  { apply Rmult_le_pos; [|exact Hc]. nra. }
  assert (Hheight : 0 <= MapScript.height bbox * 111320) by nra.
  unfold divide.
  destruct (Req_dec_T (MapScript.height bbox * 111320) 0) as [Hz|Hz].
  - destruct (Req_dec_T (MapScript.width bbox * 111320 * c) 0);
      [right; left; reflexivity|].
    destruct (Rlt_dec 0 (MapScript.width bbox * 111320 * c));
      [right; right; reflexivity | lra].
  - left. eexists. split; [reflexivity|].
    apply Rmult_le_pos; [exact Hwidth|].
    left. apply Rinv_0_lt_compat. lra.
Qed.

Lemma aspect_ratio_never_negative_witness :
  (exists ratio,
     MapScript.calculateAspectRatio band = Finite ratio /\ 0 <= ratio) \/
  MapScript.calculateAspectRatio band = NaN \/
  MapScript.calculateAspectRatio band = PosInfinity.
Proof.
  apply (aspect_ratio_never_negative band). exact (proj2 band_Ring).
Defined.

(** X26. On a non-empty list the checker of part_000 returns null exactly
    when it shows the error notification. *)
Theorem checker_null_iff_error (mapCenter first : point) (rest : list point) :
  let result :=
    Part000.validateAndFixCoordinates mapCenter (Array (first :: rest)) in
  fst result = Null <-> In ErrorNotWGS84 (snd result).
Proof.
  cbv zeta.
  destruct (checker_table mapCenter first rest)
    as [[_ [H|H]]|[(_ & _ & H)|[(_ & _ & _ & _ & H)|[(_ & _ & H)|[(_ & _ & H)|[_ H]]]]]];
    rewrite H; cbn [fst snd]; split; intros F;
    try discriminate F; try reflexivity;
    try (simpl in F; repeat destruct F as [F|F]; discriminate || contradiction).
  simpl. auto.
Qed.

(** X27. The UTM conversion succeeds on every list whose first vertex has
    an easting above 100000 and up to 500000 and a northing above 100000
    and up to 1000000: it returns the list mapped through the inverse
    projection of zone 31. *)
Theorem tryConvertUTMCoordinates_succeeds (easting northing : R)
    (rest : list point) :
  100000 < easting <= 500000 -> 100000 < northing <= 1000000 ->
  Part000.tryConvertUTMCoordinates ((easting, northing) :: rest)
  = Some (map (Part000.utm_point 3) ((easting, northing) :: rest)).
Proof.
  intros He Hn. unfold Part000.tryConvertUTMCoordinates.
  rewrite (ltb_true 100000 (Rabs easting)) by absolute.
  rewrite (ltb_true 100000 (Rabs northing)) by absolute.
  cbn [andb]. rewrite try_zones_is_zone_31.
  unfold Part000.convertUTMToWGS84. cbn [map].
  rewrite (utm_zone31_west easting northing) by lra.
  reflexivity.
Qed.

Lemma tryConvertUTMCoordinates_succeeds_witness :
  Part000.tryConvertUTMCoordinates [(500000, 200000)]
  = Some (map (Part000.utm_point 3) [(500000, 200000)]).
Proof.
  apply (tryConvertUTMCoordinates_succeeds 500000 200000 []); lra.
Defined.
